(** * Daily-installment loan ledger: schedule, settlement and overdue sweep

    A shallow embedding of the ledger core of the loan back end
    (services/emiCalculator.js, routes/payment.js, routes/webhook.js,
    routes/admin.js, routes/loan.js, models/Loan.js, models/EMI.js) and the
    properties of its schedule generator, payment paths and overdue
    processor.

    Modelling conventions.
    - A JavaScript [Number] that the code only ever fills with whole values
      (parseInt results, Math.ceil and Math.round results, sums and products
      of those) is a [Z]; the two quantities that can be fractional
      ([totalInterest] and [remainingBalance]) are exact rationals [Q].
      Rounding of binary floating point is not modelled.
    - A [Date] is the number of milliseconds on the local clock, in a zone
      with a fixed offset, so that local midnights are the multiples of
      [msPerDay] and [setDate(getDate() + k)] moves by [k] whole days.
    - A Mongo collection is the list of its documents in insertion order;
      [_id]s are allocated from a counter kept with the collections.
    - Every handler is a function from the data base to the new data base
      and the HTTP status it answers with; requests are handled one at a
      time. *)

From Stdlib Require Import String Ascii DecimalString.
From Stdlib Require Import ZArith QArith Qround List Bool Lia Lqa.
From Stdlib Require Import Permutation Sorted.
Import ListNotations.
Open Scope Z_scope.

(** ** JavaScript numerics and dates *)

Module JS.

(** [Math.ceil] and [Math.round] (halves go up). *)
Definition Math_ceil (x : Q) : Z := Qceiling x.
Definition Math_round (x : Q) : Z := Qfloor (x + (1 # 2))%Q.

(** Template-literal rendering of a whole number. *)
Definition toString (z : Z) : string := NilZero.string_of_int (Z.to_int z).

Definition msPerDay : Z := 24 * 60 * 60 * 1000.

(** [d.setHours(0, 0, 0, 0)] *)
Definition setHours0 (d : Z) : Z := d - d mod msPerDay.

(** [d.setDate(d.getDate() + k)] *)
Definition addDays (d k : Z) : Z := d + k * msPerDay.

(** Result of [parseInt] on a request field. *)
Inductive Int := NaN | Num (z : Z).

End JS.

(** ** Documents *)

Module EMI.

Inductive Status := pending | paid | overdue.

Definition Status_eqb (a b : Status) : bool :=
  match a, b with
  | pending, pending | paid, paid | overdue, overdue => true
  | _, _ => false
  end.

Record t := mk {
  _id : nat;
  loanId : nat;
  userId : nat;
  dayNumber : Z;
  principalAmount : Z;
  interestAmount : Z;
  penaltyAmount : Z;
  totalAmount : Z;
  dueDate : Z;
  status : Status;
  razorpayPaymentId : option string;
  paidAt : option Z
}.

(** The three assignments every settlement path makes before [emi.save()]. *)
Definition settle (ref : string) (now : Z) (e : t) : t :=
  mk (_id e) (loanId e) (userId e) (dayNumber e) (principalAmount e)
     (interestAmount e) (penaltyAmount e) (totalAmount e) (dueDate e)
     paid (Some ref) (Some now).

(** The assignments of the overdue processor before [emi.save()]. *)
Definition penalise (newPenalty : Z) (e : t) : t :=
  mk (_id e) (loanId e) (userId e) (dayNumber e) (principalAmount e)
     (interestAmount e) newPenalty
     (principalAmount e + interestAmount e + newPenalty) (dueDate e)
     overdue (razorpayPaymentId e) (paidAt e).

End EMI.

Module Loan.

Inductive Status := pending | approved | rejected | completed.

Inductive Autopay := none | autopay_pending | active | paused | cancelled.

Record t := mk {
  _id : nat;
  userId : nat;
  amount : Z;
  status : Status;
  totalDays : Z;
  dailyEMI : Z;
  dailyInterest : Z;
  interestRate : Z;
  totalPaid : Z;
  remainingBalance : Q;
  penaltyAmount : Z;
  approvedAt : option Z;
  startDate : option Z;
  endDate : option Z;
  autopayEnabled : bool;
  autopayStatus : Autopay
}.

Definition set_status (s : Status) (l : t) : t :=
  mk (_id l) (userId l) (amount l) s (totalDays l) (dailyEMI l)
     (dailyInterest l) (interestRate l) (totalPaid l) (remainingBalance l)
     (penaltyAmount l) (approvedAt l) (startDate l) (endDate l)
     (autopayEnabled l) (autopayStatus l).

Definition set_terms (a n r : Z) (l : t) : t :=
  mk (_id l) (userId l) a (status l) n (dailyEMI l)
     (dailyInterest l) r (totalPaid l) (remainingBalance l)
     (penaltyAmount l) (approvedAt l) (startDate l) (endDate l)
     (autopayEnabled l) (autopayStatus l).

Definition set_dates (approved start finish : Z) (l : t) : t :=
  mk (_id l) (userId l) (amount l) (status l) (totalDays l) (dailyEMI l)
     (dailyInterest l) (interestRate l) (totalPaid l) (remainingBalance l)
     (penaltyAmount l) (Some approved) (Some start) (Some finish)
     (autopayEnabled l) (autopayStatus l).

Definition set_autopay (en : bool) (s : Autopay) (l : t) : t :=
  mk (_id l) (userId l) (amount l) (status l) (totalDays l) (dailyEMI l)
     (dailyInterest l) (interestRate l) (totalPaid l) (remainingBalance l)
     (penaltyAmount l) (approvedAt l) (startDate l) (endDate l) en s.

(** [loan.totalPaid += emi.totalAmount;
    loan.remainingBalance -= (emi.principalAmount + emi.interestAmount)] *)
Definition credit (e : EMI.t) (l : t) : t :=
  mk (_id l) (userId l) (amount l) (status l) (totalDays l) (dailyEMI l)
     (dailyInterest l) (interestRate l)
     (totalPaid l + EMI.totalAmount e)
     (remainingBalance l
      - inject_Z (EMI.principalAmount e + EMI.interestAmount e))%Q
     (penaltyAmount l) (approvedAt l) (startDate l) (endDate l)
     (autopayEnabled l) (autopayStatus l).

(** [{ $inc: { penaltyAmount: delta } }] *)
Definition inc_penalty (delta : Z) (l : t) : t :=
  mk (_id l) (userId l) (amount l) (status l) (totalDays l) (dailyEMI l)
     (dailyInterest l) (interestRate l) (totalPaid l) (remainingBalance l)
     (penaltyAmount l + delta) (approvedAt l) (startDate l) (endDate l)
     (autopayEnabled l) (autopayStatus l).

(** The body of [loanSchema.pre('save')]. *)
Definition totalInterest (l : t) : Q :=
  (inject_Z (amount l) * (inject_Z (interestRate l) / 100))%Q.

Definition recompute (l : t) : t :=
  let dailyPrincipal := (inject_Z (amount l) / inject_Z (totalDays l))%Q in
  let di := JS.Math_ceil (totalInterest l / inject_Z (totalDays l))%Q in
  mk (_id l) (userId l) (amount l) (status l) (totalDays l)
     (JS.Math_ceil (dailyPrincipal + inject_Z di)%Q) di
     (interestRate l) (totalPaid l)
     (inject_Z (amount l) + totalInterest l)%Q
     (penaltyAmount l) (approvedAt l) (startDate l) (endDate l)
     (autopayEnabled l) (autopayStatus l).

End Loan.

(** ** The data base *)

Record DB := mkDB {
  emis : list EMI.t;
  loans : list Loan.t;
  nextId : nat
}.

Definition emptyDB : DB := mkDB [] [] 0.

Definition with_emis (es : list EMI.t) (db : DB) : DB :=
  mkDB es (loans db) (nextId db).
Definition with_loans (ls : list Loan.t) (db : DB) : DB :=
  mkDB (emis db) ls (nextId db).

Definition EMI_find (q : EMI.t -> bool) (db : DB) : list EMI.t :=
  filter q (emis db).

Definition EMI_findById (id : nat) (db : DB) : option EMI.t :=
  find (fun e => Nat.eqb (EMI._id e) id) (emis db).

Definition EMI_countDocuments (q : EMI.t -> bool) (db : DB) : nat :=
  length (EMI_find q db).

(** [emi.save()] of a document that was read from the collection. *)
Definition replace_emi (e : EMI.t) (x : EMI.t) : EMI.t :=
  if Nat.eqb (EMI._id x) (EMI._id e) then e else x.

Definition EMI_save (e : EMI.t) (db : DB) : DB :=
  with_emis (map (replace_emi e) (emis db)) db.

Definition EMI_insertMany (es : list EMI.t) (db : DB) : DB :=
  mkDB (emis db ++ es) (loans db) (nextId db + length es).

Definition Loan_findById (id : nat) (db : DB) : option Loan.t :=
  find (fun l => Nat.eqb (Loan._id l) id) (loans db).

(** [loan.save()]: the pre-save hook recomputes the derived terms of a new
    document and of one whose [amount] or [totalDays] was modified. *)
Definition isModified_terms (old l : Loan.t) : bool :=
  negb (Loan.amount old =? Loan.amount l)
  || negb (Loan.totalDays old =? Loan.totalDays l).

Definition replace_loan (l : Loan.t) (x : Loan.t) : Loan.t :=
  if Nat.eqb (Loan._id x) (Loan._id l) then l else x.

Definition Loan_save (l : Loan.t) (db : DB) : DB :=
  match Loan_findById (Loan._id l) db with
  | None => with_loans (loans db ++ [Loan.recompute l]) db
  | Some old =>
      let l' := if isModified_terms old l then Loan.recompute l else l in
      with_loans (map (replace_loan l') (loans db)) db
  end.

(** [Loan.findByIdAndUpdate(id, { $inc: { penaltyAmount: delta } })] *)
Definition Loan_incPenalty (id : nat) (delta : Z) (db : DB) : DB :=
  with_loans
    (map (fun x => if Nat.eqb (Loan._id x) id then Loan.inc_penalty delta x
                   else x) (loans db)) db.

(** Query fragments. *)
Definition ofLoan (id : nat) (e : EMI.t) : bool := Nat.eqb (EMI.loanId e) id.
Definition notPaid (e : EMI.t) : bool :=
  negb (EMI.Status_eqb (EMI.status e) EMI.paid).
Definition isPaid (e : EMI.t) : bool :=
  EMI.Status_eqb (EMI.status e) EMI.paid.
Definition unpaidOf (id : nat) (e : EMI.t) : bool := ofLoan id e && notPaid e.

(** ** Schedule generator (services/emiCalculator.js) *)

Definition scheduleStart (now : Z) : Z :=
  JS.setHours0 (JS.addDays now 1).

Definition dailyPrincipalOf (amount totalDays : Z) : Z :=
  JS.Math_ceil (inject_Z amount / inject_Z totalDays)%Q.

Definition dailyInterestOf (amount totalDays : Z) : Z :=
  let totalInterest := (inject_Z amount * (20 # 100))%Q in
  JS.Math_ceil (totalInterest / inject_Z totalDays)%Q.

(** One iteration of the loop for [day = 1 + i], [_id]s counting up from
    [base]. *)
Definition scheduleEMI (loan : Loan.t) (startDate : Z) (base i : nat)
  : EMI.t :=
  let day := 1 + Z.of_nat i in
  let dailyPrincipal := dailyPrincipalOf (Loan.amount loan) (Loan.totalDays loan) in
  let dailyInterest := dailyInterestOf (Loan.amount loan) (Loan.totalDays loan) in
  EMI.mk (base + i) (Loan._id loan) (Loan.userId loan) day
         dailyPrincipal dailyInterest 0 (dailyPrincipal + dailyInterest)
         (JS.addDays startDate (day - 1)) EMI.pending None None.

Definition buildSchedule (loan : Loan.t) (startDate : Z) (base : nat)
  : list EMI.t :=
  map (scheduleEMI loan startDate base) (seq 0 (Z.to_nat (Loan.totalDays loan))).

Definition generateEMISchedule (now : Z) (loan : Loan.t) (db : DB)
  : DB * list EMI.t :=
  let startDate := scheduleStart now in
  let es := buildSchedule loan startDate (nextId db) in
  let db1 := EMI_insertMany es db in
  let endDate := JS.addDays startDate (Loan.totalDays loan - 1) in
  let loan' := Loan.set_dates now startDate endDate loan in
  (Loan_save loan' db1, es).

(** ** Overdue processor (services/emiCalculator.js) *)

Definition lateQuery (today : Z) (e : EMI.t) : bool :=
  (EMI.Status_eqb (EMI.status e) EMI.pending
   || EMI.Status_eqb (EMI.status e) EMI.overdue)
  && (EMI.dueDate e <? today).

Definition daysOverdueAt (today : Z) (e : EMI.t) : Z :=
  let diffTime := today - EMI.dueDate e in
  JS.Math_round (inject_Z diffTime / inject_Z JS.msPerDay)%Q.

(** The body of the [for (const emi of lateEMIs)] loop; [emi] is the document
    as the query returned it. *)
Definition overdueStep (today : Z) (acc : DB * Z) (emi : EMI.t) : DB * Z :=
  let (db, processedCount) := acc in
  let oldPenalty := EMI.penaltyAmount emi in
  let daysOverdue := daysOverdueAt today emi in
  if daysOverdue <=? 0 then acc
  else
    let penaltyPerDay := EMI.interestAmount emi in
    let newPenalty := penaltyPerDay * daysOverdue in
    if newPenalty >? oldPenalty then
      let delta := newPenalty - oldPenalty in
      let db1 := EMI_save (EMI.penalise newPenalty emi) db in
      let db2 := Loan_incPenalty (EMI.loanId emi) delta db1 in
      (db2, processedCount + 1)
    else acc.

Definition processOverdueEMIs (now : Z) (db : DB) : DB * Z :=
  let today := JS.setHours0 now in
  let lateEMIs := EMI_find (lateQuery today) db in
  fold_left (overdueStep today) lateEMIs (db, 0).

(** The earlier variant of the same function: pending installments only, a
    flat fee per day, the whole fee added to the loan. *)
Definition flatPenalty (today : Z) (emi : EMI.t) : Z :=
  let d := Qfloor (inject_Z (today - EMI.dueDate emi) / inject_Z JS.msPerDay)%Q in
  let daysOverdue := if d =? 0 then 1 else d in
  let penaltyPerDay := 120 in
  penaltyPerDay * daysOverdue.

Definition flatStep (today : Z) (db : DB) (emi : EMI.t) : DB :=
  let emi' := EMI.penalise (flatPenalty today emi) emi in
  Loan_incPenalty (EMI.loanId emi') (EMI.penaltyAmount emi') (EMI_save emi' db).

Definition flatQuery (today : Z) (e : EMI.t) : bool :=
  EMI.Status_eqb (EMI.status e) EMI.pending && (EMI.dueDate e <? today).

Definition processOverdueEMIs_flat (now : Z) (db : DB) : DB * Z :=
  let today := JS.setHours0 now + (JS.msPerDay - 1) in
  let overdueEMIs := EMI_find (flatQuery today) db in
  (fold_left (flatStep today) overdueEMIs db,
   Z.of_nat (List.length overdueEMIs)).

(** ** Payment paths *)

(** What the handlers read from [process.env], and the two library calls
    they make: [crypto.createHmac('sha256', key).update(msg).digest('hex')]
    and [JSON.parse] of a webhook body. *)

Inductive WebhookEvent :=
  subscription_charged | subscription_cancelled | payment_captured | other_event.

Record WebhookPayload := mkPayload {
  event : WebhookEvent;
  (** [payload.payload?.subscription?.entity], with its [notes?.loanId] *)
  subscriptionEntity : option (option nat);
  (** [payload.payload?.payment?.entity], with its [id] *)
  paymentEntity : option string
}.

Record Env := mkEnv {
  RAZORPAY_KEY_SECRET : string;
  RAZORPAY_WEBHOOK_SECRET : option string;
  hmacSha256Hex : string -> string -> string;
  JSON_parse : string -> option WebhookPayload
}.

(** [!field] for a string field of a request body. *)
Definition missing (s : option string) : bool :=
  match s with
  | None => true
  | Some s => String.eqb s EmptyString
  end.

Definition field (s : option string) : string :=
  match s with Some s => s | None => EmptyString end.

(** The block that follows [emi.save()] in /simulate, /verify and
    /emis/:id/mark-paid: credit the loan, count what is left, complete. *)
Definition updateLoanTotals (emi : EMI.t) (db : DB) : DB :=
  match Loan_findById (EMI.loanId emi) db with
  | Some loan =>
      let loan1 := Loan.credit emi loan in
      let pendingEMIs := EMI_countDocuments (unpaidOf (Loan._id loan1)) db in
      let loan2 := if Nat.eqb pendingEMIs 0
                   then Loan.set_status Loan.completed loan1 else loan1 in
      Loan_save loan2 db
  | None => db
  end.

(** POST /api/payment/simulate *)
Definition simulate (user : nat) (emiId : option nat) (now : Z) (db : DB)
  : DB * nat :=
  match emiId with
  | None => (db, 400%nat)
  | Some id =>
      match EMI_findById id db with
      | None => (db, 404%nat)
      | Some emi =>
          if negb (Nat.eqb (EMI.userId emi) user) then (db, 403%nat)
          else if isPaid emi then (db, 400%nat)
          else
            let emi' := EMI.settle ("sim_" ++ JS.toString now) now emi in
            (updateLoanTotals emi' (EMI_save emi' db), 200%nat)
      end
  end.

(** POST /api/payment/verify *)
Definition verify (env : Env)
  (razorpay_order_id razorpay_payment_id razorpay_signature : option string)
  (emiId : option nat) (now : Z) (db : DB) : DB * nat :=
  if missing razorpay_order_id || missing razorpay_payment_id
     || missing razorpay_signature
     || match emiId with None => true | Some _ => false end
  then (db, 400%nat)
  else
    let body := (field razorpay_order_id ++ "|" ++ field razorpay_payment_id)%string in
    let expectedSignature := hmacSha256Hex env (RAZORPAY_KEY_SECRET env) body in
    let isAuthentic := String.eqb expectedSignature (field razorpay_signature) in
    if negb isAuthentic then (db, 400%nat)
    else
      match emiId with
      | None => (db, 400%nat)
      | Some id =>
          match EMI_findById id db with
          | None => (db, 404%nat)
          | Some emi =>
              let emi' := EMI.settle (field razorpay_payment_id) now emi in
              (updateLoanTotals emi' (EMI_save emi' db), 200%nat)
          end
      end.

(** PUT /api/admin/emis/:id/mark-paid *)
Definition markPaid (admin : nat) (id : nat) (now : Z) (db : DB) : DB * nat :=
  match EMI_findById id db with
  | None => (db, 404%nat)
  | Some emi =>
      if isPaid emi then (db, 400%nat)
      else
        let ref := ("admin_" ++ JS.toString (Z.of_nat admin) ++ "_"
                    ++ JS.toString now)%string in
        let emi' := EMI.settle ref now emi in
        (updateLoanTotals emi' (EMI_save emi' db), 200%nat)
  end.

(** [.sort({ dayNumber: 1 })] *)
Fixpoint insertByDay (e : EMI.t) (l : list EMI.t) : list EMI.t :=
  match l with
  | [] => [e]
  | x :: r => if EMI.dayNumber e <=? EMI.dayNumber x then e :: x :: r
              else x :: insertByDay e r
  end.

Definition sortByDayNumber (l : list EMI.t) : list EMI.t :=
  fold_right insertByDay [] l.

(** [EMI.find({ loanId, status: { $ne: 'paid' } }).sort({ dayNumber: 1 }).limit(7)] *)
Definition oldestUnpaid (loanId : nat) (db : DB) : list EMI.t :=
  firstn 7 (sortByDayNumber (EMI_find (unpaidOf loanId) db)).

(** The body of the batch loops: settle the installment, save it, credit the
    loan document held by the handler. *)
Definition batchStep (ref : string) (now : Z) (acc : DB * Loan.t) (emi : EMI.t)
  : DB * Loan.t :=
  let (db, loan) := acc in
  let emi' := EMI.settle ref now emi in
  (EMI_save emi' db, Loan.credit emi' loan).

Definition handleSubscriptionCharged (payload : WebhookPayload) (now : Z)
  (db : DB) : DB :=
  match subscriptionEntity payload, paymentEntity payload with
  | Some notes, Some paymentId =>
      match notes with
      | None => db
      | Some loanId =>
          let pendingEmis := oldestUnpaid loanId db in
          if Nat.eqb (List.length pendingEmis) 0 then db
          else
            match Loan_findById loanId db with
            | None => db
            | Some loan =>
                let (db1, loan1) :=
                  fold_left (batchStep paymentId now) pendingEmis (db, loan) in
                let remainingPending :=
                  EMI_countDocuments (unpaidOf loanId) db1 in
                let loan2 := if Nat.eqb remainingPending 0
                             then Loan.set_status Loan.completed loan1
                             else loan1 in
                Loan_save loan2 db1
            end
      end
  | _, _ => db
  end.

Definition handleSubscriptionCancelled (payload : WebhookPayload) (db : DB)
  : DB :=
  match subscriptionEntity payload with
  | Some (Some loanId) =>
      with_loans
        (map (fun x => if Nat.eqb (Loan._id x) loanId
                       then Loan.set_autopay false Loan.cancelled x else x)
             (loans db)) db
  | _ => db
  end.

Definition handleWebhookEvent (payload : WebhookPayload) (now : Z) (db : DB)
  : DB :=
  match event payload with
  | subscription_charged => handleSubscriptionCharged payload now db
  | subscription_cancelled => handleSubscriptionCancelled payload db
  | payment_captured => db
  | other_event => db
  end.

(** POST /api/webhooks/razorpay *)
Definition webhook (env : Env) (rawBody : string) (signature : option string)
  (now : Z) (db : DB) : DB * nat :=
  match RAZORPAY_WEBHOOK_SECRET env with
  | None => (db, 500%nat)
  | Some webhookSecret =>
      if String.eqb webhookSecret EmptyString then (db, 500%nat)
      else if missing signature then (db, 400%nat)
      else
        let expectedSignature := hmacSha256Hex env webhookSecret rawBody in
        if negb (String.eqb expectedSignature (field signature))
        then (db, 400%nat)
        else
          match JSON_parse env rawBody with
          | None => (db, 500%nat)
          | Some payload => (handleWebhookEvent payload now db, 200%nat)
          end
  end.

(** POST /api/payment/verify-autopay *)
Definition verifyAutopay (env : Env)
  (razorpay_subscription_id razorpay_payment_id razorpay_signature : option string)
  (loanId : option nat) (now : Z) (db : DB) : DB * nat :=
  if missing razorpay_subscription_id || missing razorpay_payment_id
     || missing razorpay_signature
     || match loanId with None => true | Some _ => false end
  then (db, 400%nat)
  else
    let body := (field razorpay_payment_id ++ "|"
                 ++ field razorpay_subscription_id)%string in
    let expectedSignature := hmacSha256Hex env (RAZORPAY_KEY_SECRET env) body in
    let isAuthentic := String.eqb expectedSignature (field razorpay_signature) in
    if negb isAuthentic then (db, 400%nat)
    else
      match loanId with
      | None => (db, 400%nat)
      | Some id =>
          match Loan_findById id db with
          | None => (db, 404%nat)
          | Some loan =>
              let loan0 := Loan.set_autopay true Loan.active loan in
              let db0 := Loan_save loan0 db in
              let firstBatch := oldestUnpaid (Loan._id loan0) db0 in
              let (db1, loan1) :=
                fold_left (batchStep (field razorpay_payment_id) now)
                          firstBatch (db0, loan0) in
              (Loan_save loan1 db1, 200%nat)
          end
      end.

(** ** Loan application and approval (routes/loan.js, routes/admin.js) *)

Definition amountInRange (amt : Z) : bool := negb (amt <? 1000) && negb (amt >? 100000).
Definition daysInRange (days : Z) : bool := negb (days <? 1) && negb (days >? 365).

(** [new Loan({ userId, amount, totalDays, ... })] with the schema defaults. *)
Definition newLoan (id user : nat) (amount totalDays : Z) : Loan.t :=
  Loan.mk id user amount Loan.pending totalDays 0 0 20 0 0%Q 0
          None None None false Loan.none.

(** POST /api/loan/apply *)
Definition apply (user : nat) (amount : JS.Int) (db : DB) : DB * nat :=
  match amount with
  | JS.NaN => (db, 400%nat)
  | JS.Num amountNum =>
      if negb (amountInRange amountNum) then (db, 400%nat)
      else if existsb (fun l => Nat.eqb (Loan.userId l) user
                                && match Loan.status l with
                                   | Loan.pending => true
                                   | _ => false
                                   end) (loans db)
      then (db, 400%nat)
      else
        let totalDays := 100 in
        let loan := newLoan (nextId db) user amountNum totalDays in
        let db1 := Loan_save loan db in
        (mkDB (emis db1) (loans db1) (S (nextId db1)), 201%nat)
  end.

Definition isPending (l : Loan.t) : bool :=
  match Loan.status l with Loan.pending => true | _ => false end.

(** PUT /api/admin/loans/:id/approve *)
Definition approve (id : nat) (amount totalDays : option JS.Int) (now : Z)
  (db : DB) : DB * nat :=
  match Loan_findById id db with
  | None => (db, 404%nat)
  | Some loan =>
      if negb (isPending loan) then (db, 400%nat)
      else
        match amount with
        | Some JS.NaN => (db, 400%nat)
        | _ =>
            let amt := match amount with
                       | Some (JS.Num a) => a
                       | _ => Loan.amount loan
                       end in
            if match amount with Some _ => negb (amountInRange amt) | None => false end
            then (db, 400%nat)
            else
              match totalDays with
              | Some JS.NaN => (db, 400%nat)
              | _ =>
                  let days := match totalDays with
                              | Some (JS.Num d) => d
                              | _ => Loan.totalDays loan
                              end in
                  if match totalDays with Some _ => negb (daysInRange days) | None => false end
                  then (db, 400%nat)
                  else
                    let loan1 :=
                      Loan.set_status Loan.approved
                        (Loan.set_terms amt days 20 loan) in
                    (fst (generateEMISchedule now loan1 db), 200%nat)
              end
        end
  end.

(** PUT /api/admin/loans/:id/reject *)
Definition reject (id : nat) (db : DB) : DB * nat :=
  match Loan_findById id db with
  | None => (db, 404%nat)
  | Some loan =>
      if negb (isPending loan) then (db, 400%nat)
      else (Loan_save (Loan.set_status Loan.rejected loan) db, 200%nat)
  end.

(** DELETE /api/admin/loans/:id *)
Definition deleteLoan (id : nat) (db : DB) : DB * nat :=
  match Loan_findById id db with
  | None => (db, 404%nat)
  | Some loan =>
      let db1 :=
        with_emis (filter (fun e => negb (ofLoan (Loan._id loan) e)) (emis db)) db in
      (with_loans
         (filter (fun l => negb (Nat.eqb (Loan._id l) (Loan._id loan))) (loans db1))
         db1,
       200%nat)
  end.

(** ** Requests and the life of the ledger

    The routes that write to the two collections.  Left out are the routes
    that only read, and those that only write fields outside the model
    (order and subscription ids, the autopay flags set by setup-autopay and
    cancel-autopay). *)

Inductive Request :=
| ReqApply (user : nat) (amount : JS.Int)
| ReqApprove (loanId : nat) (amount totalDays : option JS.Int)
| ReqReject (loanId : nat)
| ReqDeleteLoan (loanId : nat)
| ReqSimulate (user : nat) (emiId : option nat)
| ReqVerify (order_id payment_id signature : option string) (emiId : option nat)
| ReqMarkPaid (admin : nat) (emiId : nat)
| ReqWebhook (rawBody : string) (signature : option string)
| ReqVerifyAutopay (subscription_id payment_id signature : option string)
                   (loanId : option nat)
| ReqProcessOverdues.

Definition handle (env : Env) (now : Z) (req : Request) (db : DB) : DB * nat :=
  match req with
  | ReqApply user amount => apply user amount db
  | ReqApprove id amount totalDays => approve id amount totalDays now db
  | ReqReject id => reject id db
  | ReqDeleteLoan id => deleteLoan id db
  | ReqSimulate user emiId => simulate user emiId now db
  | ReqVerify o p s emiId => verify env o p s emiId now db
  | ReqMarkPaid admin id => markPaid admin id now db
  | ReqWebhook rawBody s => webhook env rawBody s now db
  | ReqVerifyAutopay sub p s loanId => verifyAutopay env sub p s loanId now db
  | ReqProcessOverdues => (fst (processOverdueEMIs now db), 200%nat)
  end.

(** A run: requests stamped with the time they are served at, in order. *)
Fixpoint run (env : Env) (reqs : list (Z * Request)) (db : DB) : DB :=
  match reqs with
  | [] => db
  | (now, req) :: rest => run env rest (fst (handle env now req db))
  end.

(** ** Aggregates over the installments of a loan *)

Definition sumZ (l : list Z) : Z := fold_right Z.add 0 l.

Definition emisOf (id : nat) (db : DB) : list EMI.t := EMI_find (ofLoan id) db.

Definition paidOf (id : nat) (db : DB) : list EMI.t :=
  EMI_find (fun e => ofLoan id e && isPaid e) db.

Definition sumTotalOf (id : nat) (db : DB) : Z :=
  sumZ (map EMI.totalAmount (emisOf id db)).
Definition sumPenaltyOf (id : nat) (db : DB) : Z :=
  sumZ (map EMI.penaltyAmount (emisOf id db)).

(** Principal and interest of the installments that are paid. *)
Definition baseOf (e : EMI.t) : Z := EMI.principalAmount e + EMI.interestAmount e.

Definition paidBaseOf (id : nat) (db : DB) : Z :=
  sumZ (map baseOf (paidOf id db)).
Definition paidTotalOf (id : nat) (db : DB) : Z :=
  sumZ (map EMI.totalAmount (paidOf id db)).

Definition allPaidOf (id : nat) (db : DB) : bool :=
  forallb isPaid (emisOf id db).


Definition scheduled (l : Loan.t) : Prop :=
  Loan.status l = Loan.approved \/ Loan.status l = Loan.completed.

(** ** Signatures of the gateway-sourced requests *)

Definition suppliedSignature (req : Request) : option string :=
  match req with
  | ReqVerify _ _ s _ => s
  | ReqWebhook _ s => s
  | ReqVerifyAutopay _ _ s _ => s
  | _ => None
  end.

(** The digest each gateway-sourced handler recomputes. *)
Definition recomputedSignature (env : Env) (req : Request) : option string :=
  match req with
  | ReqVerify o p _ _ =>
      Some (hmacSha256Hex env (RAZORPAY_KEY_SECRET env)
              (field o ++ "|" ++ field p)%string)
  | ReqVerifyAutopay sub p _ _ =>
      Some (hmacSha256Hex env (RAZORPAY_KEY_SECRET env)
              (field p ++ "|" ++ field sub)%string)
  | ReqWebhook rawBody _ =>
      match RAZORPAY_WEBHOOK_SECRET env with
      | Some secret => Some (hmacSha256Hex env secret rawBody)
      | None => None
      end
  | _ => None
  end.

Definition gatewaySourced (req : Request) : bool :=
  match req with
  | ReqVerify _ _ _ _ | ReqWebhook _ _ | ReqVerifyAutopay _ _ _ _ => true
  | _ => false
  end.

(** ** Loops of saves, as maps over the collection *)

Definition sameId (x e : EMI.t) : bool := Nat.eqb (EMI._id e) (EMI._id x).

(** Conditional saves of the documents of [todo], as a map over the
    collection. *)
Definition updWhere (c : EMI.t -> bool) (g : EMI.t -> EMI.t)
  (todo : list EMI.t) (x : EMI.t) : EMI.t :=
  if existsb (sameId x) todo && c x then g x else x.

(** One conditional [emi.save()] of a loop, on the collection. *)
Definition saveIf (c : EMI.t -> bool) (g : EMI.t -> EMI.t)
  (l : list EMI.t) (e : EMI.t) : list EMI.t :=
  if c e then map (replace_emi (g e)) l else l.

Definition always (e : EMI.t) : bool := true.

(** The loan document a batch loop ends with. *)
Definition creditAll (ref : string) (now : Z) (batch : list EMI.t)
  (loan : Loan.t) : Loan.t :=
  fold_left (fun l e => Loan.credit (EMI.settle ref now e) l) batch loan.

(** What a batch of settlements does to a stored installment. *)
Definition settleIn (ref : string) (now : Z) (batch : list EMI.t) (x : EMI.t)
  : EMI.t :=
  if existsb (sameId x) batch then EMI.settle ref now x else x.


(** ** The overdue sweep, one installment at a time *)

Definition newPenaltyAt (today : Z) (e : EMI.t) : Z :=
  EMI.interestAmount e * daysOverdueAt today e.

(** The two tests of the loop body that let the update through. *)
Definition applies (today : Z) (e : EMI.t) : bool :=
  negb (daysOverdueAt today e <=? 0)
  && (newPenaltyAt today e >? EMI.penaltyAmount e).

(** What one run does to one stored installment. *)
Definition sweepOne (today : Z) (e : EMI.t) : EMI.t :=
  if lateQuery today e && applies today e
  then EMI.penalise (newPenaltyAt today e) e else e.

(** The penalty one run adds to loan [id]. *)
Definition sweepDelta (today : Z) (id : nat) (e : EMI.t) : Z :=
  if applies today e && Nat.eqb (EMI.loanId e) id
  then newPenaltyAt today e - EMI.penaltyAmount e else 0.

(** The penalty one run adds to loan [id] over the installments [late]. *)
Definition sweepIncrease (today : Z) (late : list EMI.t) (id : nat) : Z :=
  sumZ (map (sweepDelta today id) late).

(** ** Reachable ledgers and what holds in all of them *)

(** Runs in which every request satisfies [G]; the index is the time the
    last request was served at, which never goes backwards. *)
Inductive reachable_by (G : DB -> Request -> Prop) (env : Env)
  : Z -> DB -> Prop :=
| reach_empty (t0 : Z) : reachable_by G env t0 emptyDB
| reach_step (t now : Z) (db : DB) (req : Request) :
    reachable_by G env t db -> t <= now -> G db req ->
    reachable_by G env now (fst (handle env now req db)).

Definition anyRequest (db : DB) (req : Request) : Prop := True.

Definition reachable : Env -> Z -> DB -> Prop := reachable_by anyRequest.

(** No gateway callback is delivered for an installment that is already
    paid. *)
Definition noRedelivery (db : DB) (req : Request) : Prop :=
  match req with
  | ReqVerify _ _ _ (Some id) =>
      forall e, EMI_findById id db = Some e -> isPaid e = false
  | _ => True
  end.

Definition isActive (l : Loan.t) : bool :=
  match Loan.status l with
  | Loan.approved | Loan.completed => true
  | _ => false
  end.

(** The penalty is a whole number of days of interest, never more days than
    the installment is overdue by the clock. *)
Definition accrued (clock : Z) (e : EMI.t) : Prop :=
  exists d, 0 <= d <= Z.max 0 (daysOverdueAt (JS.setHours0 clock) e)
            /\ EMI.penaltyAmount e = EMI.interestAmount e * d.

Record emi_ok (clock : Z) (e : EMI.t) : Prop := {
  emi_total : EMI.totalAmount e
              = EMI.principalAmount e + EMI.interestAmount e + EMI.penaltyAmount e;
  emi_interest_pos : 0 < EMI.interestAmount e;
  emi_pending_clean : EMI.status e = EMI.pending -> EMI.penaltyAmount e = 0;
  emi_accrued : accrued clock e
}.

Definition owned (l : Loan.t) (e : EMI.t) : Prop :=
  isActive l = true
  /\ EMI.principalAmount e = dailyPrincipalOf (Loan.amount l) (Loan.totalDays l)
  /\ EMI.interestAmount e = dailyInterestOf (Loan.amount l) (Loan.totalDays l).

Definition scheduledTotal (l : Loan.t) : Z :=
  Loan.totalDays l
  * (dailyPrincipalOf (Loan.amount l) (Loan.totalDays l)
     + dailyInterestOf (Loan.amount l) (Loan.totalDays l)).

Record loan_ok (db : DB) (l : Loan.t) : Prop := {
  loan_rate : Loan.interestRate l = 20;
  loan_amount : 1000 <= Loan.amount l <= 100000;
  loan_days : 1 <= Loan.totalDays l <= 365;
  loan_idle : isActive l = false -> Loan.penaltyAmount l = 0;
  loan_count : isActive l = true ->
               List.length (emisOf (Loan._id l) db) = Z.to_nat (Loan.totalDays l);
  loan_conserved : isActive l = true ->
                   sumTotalOf (Loan._id l) db
                   = scheduledTotal l + Loan.penaltyAmount l
}.

Record ledger_inv (clock : Z) (db : DB) : Prop := {
  inv_emi_ids : NoDup (map EMI._id (emis db));
  inv_loan_ids : NoDup (map Loan._id (loans db));
  inv_emi_fresh : forall e, In e (emis db) -> (EMI._id e < nextId db)%nat;
  inv_loan_fresh : forall l, In l (loans db) -> (Loan._id l < nextId db)%nat;
  inv_emi : forall e, In e (emis db) -> emi_ok clock e;
  inv_owner : forall e, In e (emis db) ->
              exists l, In l (loans db) /\ Loan._id l = EMI.loanId e /\ owned l e;
  inv_loan : forall l, In l (loans db) -> loan_ok db l
}.

(** The balance equation of a loan. *)
Definition balance_ok (db : DB) (l : Loan.t) : Prop :=
  (Loan.remainingBalance l
   == inject_Z (Loan.amount l) + Loan.totalInterest l
      - inject_Z (paidBaseOf (Loan._id l) db))%Q.

Definition balance_inv (db : DB) : Prop :=
  forall l, In l (loans db) -> balance_ok db l.

(** What a settlement may change on the loan document besides the two
    totals: the autopay fields and the status. *)
Definition loan_touched (batch : list EMI.t) (loan loanX : Loan.t) : Prop :=
  Loan._id loanX = Loan._id loan
  /\ Loan.amount loanX = Loan.amount loan
  /\ Loan.totalDays loanX = Loan.totalDays loan
  /\ Loan.interestRate loanX = Loan.interestRate loan
  /\ Loan.penaltyAmount loanX = Loan.penaltyAmount loan
  /\ (Loan.remainingBalance loanX
      == Loan.remainingBalance loan - inject_Z (sumZ (map baseOf batch)))%Q
  /\ (Loan.status loanX = Loan.status loan
      \/ (batch <> [] /\ Loan.status loanX = Loan.completed)
      \/ (isActive loan = false /\ isActive loanX = false)).

(** The effect of a settlement request that goes through. *)
Definition settles (now : Z) (batch : list EMI.t) (db db' : DB) : Prop :=
  exists ref loan loanX,
    incl batch (emis db)
    /\ NoDup (map EMI._id batch)
    /\ (forall b, In b batch -> EMI.loanId b = Loan._id loan)
    /\ emis db' = map (settleIn ref now batch) (emis db)
    /\ nextId db' = nextId db
    /\ In loan (loans db)
    /\ loans db' = map (replace_loan loanX) (loans db)
    /\ loan_touched batch loan loanX.

(** A request either leaves the data base alone or settles a batch. *)
Definition settlesOrKeeps (now : Z) (req : Request) (db db' : DB) : Prop :=
  db' = db
  \/ exists batch, settles now batch db db'
       /\ (noRedelivery db req -> forall b, In b batch -> isPaid b = false).

(** ** A concrete deployment and worked scenarios *)

Definition demoHmac (key msg : string) : string :=
  ("hmac(" ++ key ++ "," ++ msg ++ ")")%string.

Definition chargedPayload (loanId : nat) (paymentId : string) : WebhookPayload :=
  mkPayload subscription_charged (Some (Some loanId)) (Some paymentId).

(** The demo parser reads the body [charged:<n>] as a charge for loan 0 paid
    with reference [<n>]. *)
Definition demoParse (s : string) : option WebhookPayload :=
  if String.prefix "charged:" s
  then Some (chargedPayload 0 (String.substring 8 (String.length s - 8) s))
  else None.

Definition demoEnv : Env :=
  mkEnv "key_secret" (Some "hook_secret"%string) demoHmac demoParse.

Definition day (k : Z) : Z := k * JS.msPerDay.

(** User 7 applies for [amount]; the admin approves it over [days] days. *)
Definition approvedLoanDB (amount days : Z) : DB :=
  run demoEnv
      [(day 10, ReqApply 7%nat (JS.Num amount));
       (day 11, ReqApprove 0%nat None (Some (JS.Num days)))]
      emptyDB.

(** A genuine gateway callback for installment 1 of that loan. *)
Definition payInstallment1 : Request :=
  ReqVerify (Some "order_1"%string) (Some "pay_1"%string)
            (Some (demoHmac "key_secret" "order_1|pay_1"))
            (Some 1%nat).

(** A genuine autopay activation for loan 0. *)
Definition activateAutopay : Request :=
  ReqVerifyAutopay (Some "sub_1"%string) (Some "pay_1"%string)
                   (Some (demoHmac "key_secret" "pay_1|sub_1"))
                   (Some 0%nat).

(** A callback whose signature was made up. *)
Definition forgedVerify : Request :=
  ReqVerify (Some "order_1"%string) (Some "pay_1"%string)
            (Some "forged"%string) (Some 1%nat).

(** Installment 1 of a 1000-over-3-days loan paid through /verify, and the
    same callback delivered a second time a day later. *)
Definition paidOnceDB : DB :=
  fst (handle demoEnv (day 12) payInstallment1 (approvedLoanDB 1000 3)).
Definition paidTwiceDB : DB :=
  fst (handle demoEnv (day 13) payInstallment1 paidOnceDB).

(** Autopay activated on a 1000-over-5-days loan. *)
Definition autopayDB : DB :=
  fst (handle demoEnv (day 12) activateAutopay (approvedLoanDB 1000 5)).

(** A 1001-over-2-days loan whose two installments the borrower pays. *)
Definition settledOddLoanDB : DB :=
  run demoEnv
      [(day 12, ReqSimulate 7%nat (Some 1%nat));
       (day 13, ReqSimulate 7%nat (Some 2%nat))]
      (approvedLoanDB 1001 2).


(** Installment 1 of the 1000-over-3-days loan, as stored after approval. *)
Definition firstInstallment : EMI.t :=
  EMI.mk 1 0 7 1 334 67 0 401 (day 12) EMI.pending None None.

(** Decidable form of key uniqueness, for the worked scenarios. *)
Fixpoint nodupb (l : list nat) : bool :=
  match l with
  | [] => true
  | x :: r => negb (existsb (Nat.eqb x) r) && nodupb r
  end.

(** ** Reports over the installments of a loan
    (services/emiCalculator.js, routes/emi.js) *)

Module Stats.

Record t := mk {
  totalEMIs : Z;
  paidEMIs : Z;
  pendingEMIs : Z;
  overdueEMIs : Z;
  totalPaid : Z;
  totalPending : Z;
  totalPenalty : Z
}.

End Stats.

(** The callback of [emis.forEach] in [getLoanStats]. *)
Definition statsStep (stats : Stats.t) (emi : EMI.t) : Stats.t :=
  match EMI.status emi with
  | EMI.paid =>
      Stats.mk (Stats.totalEMIs stats) (Stats.paidEMIs stats + 1)
               (Stats.pendingEMIs stats) (Stats.overdueEMIs stats)
               (Stats.totalPaid stats + EMI.totalAmount emi)
               (Stats.totalPending stats) (Stats.totalPenalty stats)
  | EMI.pending =>
      Stats.mk (Stats.totalEMIs stats) (Stats.paidEMIs stats)
               (Stats.pendingEMIs stats + 1) (Stats.overdueEMIs stats)
               (Stats.totalPaid stats)
               (Stats.totalPending stats + EMI.totalAmount emi)
               (Stats.totalPenalty stats)
  | EMI.overdue =>
      Stats.mk (Stats.totalEMIs stats) (Stats.paidEMIs stats)
               (Stats.pendingEMIs stats) (Stats.overdueEMIs stats + 1)
               (Stats.totalPaid stats)
               (Stats.totalPending stats + EMI.totalAmount emi)
               (Stats.totalPenalty stats + EMI.penaltyAmount emi)
  end.

Definition getLoanStats (loanId : nat) (db : DB) : Stats.t :=
  let loanEmis := EMI_find (ofLoan loanId) db in
  fold_left statsStep loanEmis
            (Stats.mk (Z.of_nat (List.length loanEmis)) 0 0 0 0 0 0).

Module Summary.

Record t := mk {
  total : Z;
  paid : Z;
  pending : Z;
  overdue : Z;
  totalPaid : Z;
  totalPending : Z
}.

End Summary.

Definition hasStatus (s : EMI.Status) (e : EMI.t) : bool :=
  EMI.Status_eqb (EMI.status e) s.

(** [.reduce((sum, e) => sum + e.totalAmount, 0)] *)
Definition reduceTotal (l : list EMI.t) : Z :=
  fold_left (fun sum e => sum + EMI.totalAmount e) l 0.

Definition count (q : EMI.t -> bool) (l : list EMI.t) : Z :=
  Z.of_nat (List.length (filter q l)).

(** GET /api/emi/loan/:loanId: the installments of a loan by day number,
    with their summary. *)
Definition loanEMIs (user : nat) (isAdmin : bool) (loanId : nat) (db : DB)
  : nat * option (list EMI.t * Summary.t) :=
  match Loan_findById loanId db with
  | None => (404%nat, None)
  | Some loan =>
      if negb (Nat.eqb (Loan.userId loan) user) && negb isAdmin
      then (403%nat, None)
      else
        let found := sortByDayNumber (EMI_find (ofLoan loanId) db) in
        let summary :=
          Summary.mk (Z.of_nat (List.length found))
                     (count (hasStatus EMI.paid) found)
                     (count (hasStatus EMI.pending) found)
                     (count (hasStatus EMI.overdue) found)
                     (reduceTotal (filter (hasStatus EMI.paid) found))
                     (reduceTotal (filter notPaid found)) in
        (200%nat, Some (found, summary))
  end.

(** ** What one request does to the two collections *)

(** What a settlement leaves on the loan document: every field but the two
    totals, the autopay flags and the status is kept; the status is kept,
    or becomes [completed] when no unpaid installment is left, or
    [rejected] on a pending application.  [completing] marks the paths
    that run the completion check. *)
Definition loan_settled (completing : bool) (db' : DB) (batch : list EMI.t)
  (loan loanX : Loan.t) : Prop :=
  Loan._id loanX = Loan._id loan
  /\ Loan.userId loanX = Loan.userId loan
  /\ Loan.amount loanX = Loan.amount loan
  /\ Loan.totalDays loanX = Loan.totalDays loan
  /\ Loan.dailyEMI loanX = Loan.dailyEMI loan
  /\ Loan.dailyInterest loanX = Loan.dailyInterest loan
  /\ Loan.interestRate loanX = Loan.interestRate loan
  /\ Loan.penaltyAmount loanX = Loan.penaltyAmount loan
  /\ Loan.approvedAt loanX = Loan.approvedAt loan
  /\ Loan.startDate loanX = Loan.startDate loan
  /\ Loan.endDate loanX = Loan.endDate loan
  /\ Loan.totalPaid loanX
     = Loan.totalPaid loan + sumZ (map EMI.totalAmount batch)
  /\ (Loan.remainingBalance loanX
      == Loan.remainingBalance loan - inject_Z (sumZ (map baseOf batch)))%Q
  /\ ((Loan.status loanX = Loan.status loan
       /\ (completing = true -> batch <> [] ->
           EMI_countDocuments (unpaidOf (Loan._id loan)) db' <> 0%nat))
      \/ (batch <> [] /\ Loan.status loanX = Loan.completed
          /\ EMI_countDocuments (unpaidOf (Loan._id loan)) db' = 0%nat)
      \/ (batch = [] /\ Loan.status loan = Loan.pending
          /\ Loan.status loanX = Loan.rejected)).

(** The paths that check for completion after settling. *)
Definition completes (req : Request) : bool :=
  match req with
  | ReqSimulate _ _ | ReqVerify _ _ _ _ | ReqMarkPaid _ _ | ReqWebhook _ _ => true
  | _ => false
  end.

(** The loan document an approval stores. *)
Definition approvedLoan (now amt days : Z) (loan : Loan.t) : Loan.t :=
  let loan1 := Loan.set_status Loan.approved (Loan.set_terms amt days 20 loan) in
  let dated := Loan.set_dates now (scheduleStart now)
                 (JS.addDays (scheduleStart now) (days - 1)) loan1 in
  if isModified_terms loan dated then Loan.recompute dated else dated.

Inductive effect (now : Z) (req : Request) (db db' : DB) : Prop :=
| eff_none : db' = db -> effect now req db db'
| eff_settle (ref : string) (batch : list EMI.t) (loan loanX : Loan.t) :
    incl batch (emis db) ->
    NoDup (map EMI._id batch) ->
    (forall b, In b batch -> EMI.loanId b = Loan._id loan) ->
    (noRedelivery db req -> forall b, In b batch -> isPaid b = false) ->
    In loan (loans db) ->
    emis db' = map (settleIn ref now batch) (emis db) ->
    loans db' = map (replace_loan loanX) (loans db) ->
    nextId db' = nextId db ->
    loan_settled (completes req) db' batch loan loanX ->
    effect now req db db'
| eff_sweep :
    emis db' = map (sweepOne (JS.setHours0 now)) (emis db) ->
    loans db'
    = map (fun l => Loan.inc_penalty
                      (sweepIncrease (JS.setHours0 now)
                         (filter (lateQuery (JS.setHours0 now)) (emis db))
                         (Loan._id l)) l)
          (loans db) ->
    nextId db' = nextId db ->
    effect now req db db'
| eff_apply (user : nat) (a : Z) :
    amountInRange a = true ->
    (forall l, In l (loans db) -> Loan.userId l = user -> isPending l = false) ->
    db' = mkDB (emis db)
               (loans db ++ [Loan.recompute (newLoan (nextId db) user a 100)])
               (S (nextId db)) ->
    effect now req db db'
| eff_approve (loan : Loan.t) (amt days : Z) :
    In loan (loans db) -> isPending loan = true ->
    (amt = Loan.amount loan \/ amountInRange amt = true) ->
    (days = Loan.totalDays loan \/ daysInRange days = true) ->
    emis db'
    = emis db
      ++ buildSchedule (Loan.set_status Loan.approved
                          (Loan.set_terms amt days 20 loan))
                       (scheduleStart now) (nextId db) ->
    loans db' = map (replace_loan (approvedLoan now amt days loan)) (loans db) ->
    nextId db' = (nextId db + Z.to_nat days)%nat ->
    effect now req db db'
| eff_delete (loan : Loan.t) :
    In loan (loans db) ->
    emis db' = filter (fun e => negb (ofLoan (Loan._id loan) e)) (emis db) ->
    loans db'
    = filter (fun l => negb (Nat.eqb (Loan._id l) (Loan._id loan))) (loans db) ->
    nextId db' = nextId db ->
    effect now req db db'.

(** ** What holds of schedules, dates and statuses in every reachable
       ledger *)

(** The derived terms of a loan document, as the pre-save hook leaves
    them. *)
Definition terms_ok (l : Loan.t) : Prop :=
  Loan.dailyInterest l = dailyInterestOf (Loan.amount l) (Loan.totalDays l)
  /\ Loan.dailyEMI l
     = dailyPrincipalOf (Loan.amount l) (Loan.totalDays l)
       + dailyInterestOf (Loan.amount l) (Loan.totalDays l).

(** The dates approval stamps on the loan, and the due dates they give. *)
Definition dated (db : DB) (l : Loan.t) : Prop :=
  exists approved,
    Loan.approvedAt l = Some approved
    /\ Loan.startDate l = Some (scheduleStart approved)
    /\ Loan.endDate l
       = Some (JS.addDays (scheduleStart approved) (Loan.totalDays l - 1))
    /\ forall e, In e (emisOf (Loan._id l) db) ->
         EMI.dueDate e
         = JS.addDays (scheduleStart approved) (EMI.dayNumber e - 1).

(** The payment stamp is on the paid installments, and only on them. *)
Definition stamped (e : EMI.t) : Prop :=
  (isPaid e = true ->
   EMI.paidAt e <> None /\ EMI.razorpayPaymentId e <> None)
  /\ (isPaid e = false ->
      EMI.paidAt e = None /\ EMI.razorpayPaymentId e = None).

Record schedule_inv (db : DB) : Prop := {
  sch_days : forall l, In l (loans db) -> isActive l = true ->
             map EMI.dayNumber (emisOf (Loan._id l) db)
             = map Z.of_nat (seq 1 (Z.to_nat (Loan.totalDays l)));
  sch_user : forall e l, In e (emis db) -> In l (loans db) ->
             Loan._id l = EMI.loanId e -> EMI.userId e = Loan.userId l;
  sch_dated : forall l, In l (loans db) -> isActive l = true -> dated db l;
  sch_terms : forall l, In l (loans db) -> terms_ok l;
  sch_completed : forall l, In l (loans db) ->
                  Loan.status l = Loan.completed ->
                  forall e, In e (emisOf (Loan._id l) db) -> isPaid e = true;
  sch_one_pending : forall l1 l2, In l1 (loans db) -> In l2 (loans db) ->
                    isPending l1 = true -> isPending l2 = true ->
                    Loan.userId l1 = Loan.userId l2 -> l1 = l2;
  sch_stamped : forall e, In e (emis db) -> stamped e
}.

(** What a request may do to a stored installment and to a stored loan. *)
Definition emi_kept (f : EMI.t -> EMI.t) : Prop :=
  forall x,
    EMI._id (f x) = EMI._id x /\ EMI.loanId (f x) = EMI.loanId x
    /\ EMI.userId (f x) = EMI.userId x /\ EMI.dayNumber (f x) = EMI.dayNumber x
    /\ EMI.dueDate (f x) = EMI.dueDate x
    /\ (isPaid x = true -> isPaid (f x) = true).

Definition loan_kept (db : DB) (g : Loan.t -> Loan.t) : Prop :=
  forall l, In l (loans db) ->
    Loan._id (g l) = Loan._id l /\ Loan.userId (g l) = Loan.userId l
    /\ Loan.amount (g l) = Loan.amount l
    /\ Loan.totalDays (g l) = Loan.totalDays l
    /\ Loan.dailyEMI (g l) = Loan.dailyEMI l
    /\ Loan.dailyInterest (g l) = Loan.dailyInterest l
    /\ Loan.approvedAt (g l) = Loan.approvedAt l
    /\ Loan.startDate (g l) = Loan.startDate l
    /\ Loan.endDate (g l) = Loan.endDate l
    /\ (isActive (g l) = true -> isActive l = true)
    /\ (isPending (g l) = true -> isPending l = true).

(** User 7's application for 1000, before any decision on it. *)
Definition appliedDB : DB :=
  run demoEnv [(day 10, ReqApply 7%nat (JS.Num 1000))] emptyDB.

(** ** The life of one document *)

(** The status changes of a loan: a pending application is approved or
    rejected, an approved loan is completed, nothing else. *)
Definition status_next (s s' : Loan.Status) : bool :=
  match s, s' with
  | Loan.pending, (Loan.pending | Loan.approved | Loan.rejected) => true
  | Loan.approved, (Loan.approved | Loan.completed) => true
  | Loan.rejected, Loan.rejected => true
  | Loan.completed, Loan.completed => true
  | _, _ => false
  end.

(** The status changes of an installment: nothing returns to pending, and
    paid is final. *)
Definition emi_status_next (s s' : EMI.Status) : bool :=
  match s, s' with
  | EMI.pending, _ => true
  | EMI.overdue, (EMI.overdue | EMI.paid) => true
  | EMI.paid, EMI.paid => true
  | _, _ => false
  end.

(** The loan's running total against its paid installments. *)
Definition paid_inv (db : DB) : Prop :=
  forall l, In l (loans db) -> Loan.totalPaid l = paidTotalOf (Loan._id l) db.

(** The 1001-over-2-days loan with its first installment paid, and its
    second installment as stored then. *)
Definition oddLoanHalfPaidDB : DB :=
  run demoEnv [(day 12, ReqSimulate 7%nat (Some 1%nat))] (approvedLoanDB 1001 2).

Definition secondOddInstallment : EMI.t :=
  EMI.mk 2 0 7 2 501 101 0 602 (day 13) EMI.pending None None.

(** ** A subscription over the unpaid installments of a loan
    (routes/payment.js, setup-autopay; routes/webhook.js) *)

(** [const billingCycles = Math.ceil(pendingEMIs / 7)], the number of
    charges setup-autopay asks the gateway for. *)
Definition billingCycles (pendingEMIs : nat) : Z :=
  JS.Math_ceil (inject_Z (Z.of_nat pendingEMIs) / 7)%Q.

(** The subscription.charged events of one subscription, each with its
    payment id and the time it is handled at, in order. *)
Definition chargeAll (loanId : nat) (charges : list (string * Z)) (db : DB) : DB :=
  fold_left (fun d c => handleSubscriptionCharged
                          (chargedPayload loanId (fst c)) (snd c) d)
            charges db.

(** A subscription of [billingCycles] weekly charges on the
    10000-over-100-days loan: 100 unpaid installments, 15 charges. *)
Definition weeklyCharges (n : nat) : list (string * Z) :=
  map (fun i => ("pay_w"%string, day (12 + 7 * Z.of_nat i))) (seq 0 n).

(** * Properties *)

(** ** Rounding facts *)

Lemma inject_Z_pos (n : Z) : 0 < n -> (0 < inject_Z n)%Q.
Proof. intros H. change (inject_Z 0 < inject_Z n)%Q. rewrite <- Zlt_Qlt. exact H. Qed.

Lemma mul_div_share (x : Q) (n : Z) :
  0 < n -> (x == inject_Z n * (x / inject_Z n))%Q.
Proof.
  intros Hn. pose proof (inject_Z_pos n Hn) as Hq.
  rewrite Qmult_div_r; [reflexivity | intro E; rewrite E in Hq; discriminate].
Qed.

Lemma ceil_share_lower (x : Q) (n : Z) :
  0 < n -> (x <= inject_Z (n * JS.Math_ceil (x / inject_Z n)))%Q.
Proof.
  intros Hn. unfold JS.Math_ceil.
  pose proof (inject_Z_pos n Hn) as Hq.
  pose proof (Qle_ceiling (x / inject_Z n)) as Hc.
  rewrite inject_Z_mult.
  pose proof (mul_div_share x n Hn) as Hx.
  rewrite Hx at 1.
  apply Qmult_le_l; assumption.
Qed.

Lemma ceil_share_upper (x : Q) (n : Z) :
  0 < n -> (inject_Z (n * JS.Math_ceil (x / inject_Z n)) < x + inject_Z n)%Q.
Proof.
  intros Hn. unfold JS.Math_ceil.
  pose proof (inject_Z_pos n Hn) as Hq.
  pose proof (Qceiling_lt (x / inject_Z n)) as Hc.
  unfold Z.sub in Hc. rewrite inject_Z_plus in Hc.
  pose proof (mul_div_share x n Hn) as Hx.
  rewrite inject_Z_mult.
  apply (Qmult_lt_l _ _ _ Hq) in Hc.
  rewrite <- Hx in Hc.
  setoid_replace (inject_Z n * (inject_Z (Qceiling (x / inject_Z n)) + inject_Z (-1)))%Q
    with (inject_Z n * inject_Z (Qceiling (x / inject_Z n)) - inject_Z n)%Q in Hc
    by (simpl; ring).
  lra.
Qed.

(** Shares of a whole amount: at least the amount, at most [n - 1] over. *)
Lemma ceil_share_Z (a n : Z) :
  0 < n ->
  a <= n * JS.Math_ceil (inject_Z a / inject_Z n)
  /\ n * JS.Math_ceil (inject_Z a / inject_Z n) <= a + (n - 1).
Proof.
  intros Hn.
  pose proof (ceil_share_lower (inject_Z a) n Hn) as L.
  pose proof (ceil_share_upper (inject_Z a) n Hn) as U.
  rewrite <- inject_Z_plus in U.
  rewrite <- Zle_Qle in L. rewrite <- Zlt_Qlt in U. lia.
Qed.

(** Shares of a fractional amount, compared with the amount rounded up. *)
Lemma ceil_share_Q (x : Q) (n : Z) :
  0 < n ->
  JS.Math_ceil x <= n * JS.Math_ceil (x / inject_Z n)
  /\ n * JS.Math_ceil (x / inject_Z n) <= JS.Math_ceil x + (n - 1).
Proof.
  intros Hn.
  pose proof (ceil_share_lower x n Hn) as L.
  pose proof (ceil_share_upper x n Hn) as U.
  split.
  - apply Qceiling_resp_le in L. rewrite Qceiling_Z in L. exact L.
  - pose proof (Qle_ceiling x) as C. unfold JS.Math_ceil at 2.
    assert (H : (inject_Z (n * JS.Math_ceil (x / inject_Z n))
                 < inject_Z (Qceiling x + n))%Q).
    { rewrite inject_Z_plus. lra. }
    rewrite <- Zlt_Qlt in H. lia.
Qed.

Lemma round_mono (x y : Q) : (x <= y)%Q -> JS.Math_round x <= JS.Math_round y.
Proof.
  intros H. unfold JS.Math_round. apply Qfloor_resp_le. lra.
Qed.

Lemma setHours0_mono (a b : Z) : a <= b -> JS.setHours0 a <= JS.setHours0 b.
Proof.
  intros H. unfold JS.setHours0.
  assert (Hd : 0 < JS.msPerDay) by reflexivity.
  pose proof (Z.div_le_mono a b JS.msPerDay Hd H) as Hdiv.
  rewrite !Zmod_eq_full by (intro E; rewrite E in Hd; discriminate).
  replace (a - (a - a / JS.msPerDay * JS.msPerDay)) with (a / JS.msPerDay * JS.msPerDay) by lia.
  replace (b - (b - b / JS.msPerDay * JS.msPerDay)) with (b / JS.msPerDay * JS.msPerDay) by lia.
  apply Z.mul_le_mono_nonneg_r; [lia | exact Hdiv].
Qed.

Lemma daysOverdueAt_mono (t1 t2 : Z) (e : EMI.t) :
  t1 <= t2 -> daysOverdueAt t1 e <= daysOverdueAt t2 e.
Proof.
  intros H. unfold daysOverdueAt. apply round_mono.
  apply Qmult_le_compat_r.
  - rewrite <- Zle_Qle. lia.
  - apply Qinv_le_0_compat. apply Qlt_le_weak, inject_Z_pos. reflexivity.
Qed.

(** ** Signature check of the gateway-sourced paths *)

Lemma missing_false (s : option string) :
  missing s = false -> exists v, s = Some v /\ field s = v.
Proof.
  destruct s as [v|]; simpl; intros H; [eauto | discriminate].
Qed.

(** C9. A gateway-sourced request (/verify, /verify-autopay, the webhook)
    whose supplied signature is not the HMAC-SHA256 digest the handler
    recomputes is answered with an error status and leaves every installment
    and every loan as it was. *)
Theorem signature_mismatch_rejected (env : Env) (now : Z) (req : Request) (db : DB) :
  gatewaySourced req = true ->
  suppliedSignature req <> recomputedSignature env req ->
  fst (handle env now req db) = db
  /\ (snd (handle env now req db) = 400%nat
      \/ snd (handle env now req db) = 500%nat).
Proof.
  intros G Hneq. destruct req; try discriminate G; simpl in *.
  - unfold verify.
    destruct (missing order_id) eqn:Mo; [simpl; auto|].
    destruct (missing payment_id) eqn:Mp; [simpl; auto|].
    destruct (missing signature) eqn:Ms; [simpl; auto|].
    destruct emiId as [id|]; [|simpl; auto]. simpl.
    destruct (missing_false _ Ms) as [sg [Es Fs]]. rewrite Fs.
    destruct (String.eqb _ sg) eqn:E; simpl; auto.
    apply String.eqb_eq in E. subst signature. rewrite E in Hneq.
    exfalso. apply Hneq. reflexivity.
  - unfold webhook.
    destruct (RAZORPAY_WEBHOOK_SECRET env) as [secret|]; [|simpl; auto].
    destruct (String.eqb secret EmptyString); [simpl; auto|].
    destruct (missing signature) eqn:Ms; [simpl; auto|].
    destruct (missing_false _ Ms) as [sg [Es Fs]]. rewrite Fs.
    destruct (String.eqb _ sg) eqn:E; simpl; auto.
    apply String.eqb_eq in E. subst signature. rewrite E in Hneq.
    exfalso. apply Hneq. reflexivity.
  - unfold verifyAutopay.
    destruct (missing subscription_id) eqn:Mo; [simpl; auto|].
    destruct (missing payment_id) eqn:Mp; [simpl; auto|].
    destruct (missing signature) eqn:Ms; [simpl; auto|].
    destruct loanId as [id|]; [|simpl; auto]. simpl.
    destruct (missing_false _ Ms) as [sg [Es Fs]]. rewrite Fs.
    destruct (String.eqb _ sg) eqn:E; simpl; auto.
    apply String.eqb_eq in E. subst signature. rewrite E in Hneq.
    exfalso. apply Hneq. reflexivity.
Qed.

Lemma signature_mismatch_rejected_witness :
  fst (handle demoEnv (day 12) forgedVerify (approvedLoanDB 1000 3))
  = approvedLoanDB 1000 3
  /\ (snd (handle demoEnv (day 12) forgedVerify (approvedLoanDB 1000 3)) = 400%nat
      \/ snd (handle demoEnv (day 12) forgedVerify (approvedLoanDB 1000 3)) = 500%nat).
Proof.
  apply (signature_mismatch_rejected demoEnv (day 12) forgedVerify
           (approvedLoanDB 1000 3)).
  - reflexivity.
  - simpl. discriminate.
Defined.

(** ** The settlement paths at an installment that is already paid *)

(** C1. The /verify path has no already-paid guard: the callback for
    installment 1, delivered again, is answered 200, overwrites [paidAt] and
    credits the loan a second time (totalPaid 401 becomes 802). *)
Theorem verify_redelivery_credits_again :
  option_map EMI.status (EMI_findById 1 paidOnceDB) = Some EMI.paid
  /\ snd (handle demoEnv (day 13) payInstallment1 paidOnceDB) = 200%nat
  /\ option_map EMI.paidAt (EMI_findById 1 paidOnceDB) = Some (Some (day 12))
  /\ option_map EMI.paidAt (EMI_findById 1 paidTwiceDB) = Some (Some (day 13))
  /\ option_map Loan.totalPaid (Loan_findById 0 paidOnceDB) = Some 401
  /\ option_map Loan.totalPaid (Loan_findById 0 paidTwiceDB) = Some 802.
Proof. vm_compute. repeat split; reflexivity. Qed.

(** C7. After the second delivery the loan's totalPaid is 802 and its
    remainingBalance 398, although only one installment (334 + 67, total 401)
    of the 1200 owed is paid. *)
Theorem verify_redelivery_breaks_balance :
  paidBaseOf 0 paidTwiceDB = 401
  /\ paidTotalOf 0 paidTwiceDB = 401
  /\ (exists l, Loan_findById 0 paidTwiceDB = Some l
        /\ Loan.totalPaid l = 802
        /\ (Loan.remainingBalance l == 398)%Q
        /\ ~ (Loan.remainingBalance l
              == inject_Z (Loan.amount l) + Loan.totalInterest l
                 - inject_Z (paidBaseOf 0 paidTwiceDB))%Q).
Proof.
  split; [reflexivity|]. split; [reflexivity|].
  eexists. split; [vm_compute; reflexivity|].
  split; [reflexivity|]. split; vm_compute; congruence.
Qed.

(** ** Completion after autopay activation *)

(** C6. /verify-autopay settles the first batch without the completion
    check: on a five-installment loan every installment ends paid and the
    loan is still [approved]. *)
Theorem verifyAutopay_leaves_loan_approved :
  snd (handle demoEnv (day 12) activateAutopay (approvedLoanDB 1000 5)) = 200%nat
  /\ List.length (emisOf 0 autopayDB) = 5%nat
  /\ allPaidOf 0 autopayDB = true
  /\ option_map Loan.status (Loan_findById 0 autopayDB) = Some Loan.approved.
Proof. vm_compute. repeat split; reflexivity. Qed.

(** ** Rounding up against the exact totals *)

(** C2, as stated, fails right after schedule generation: three installments
    of 334 + 67 add up to 1203, the loan's amount plus interest to 1200. *)
Lemma conservation_counterexample :
  exists l, Loan_findById 0 (approvedLoanDB 1000 3) = Some l
    /\ Loan.status l = Loan.approved
    /\ sumTotalOf 0 (approvedLoanDB 1000 3) = 1203
    /\ ~ (inject_Z (sumTotalOf 0 (approvedLoanDB 1000 3))
          == inject_Z (Loan.amount l) + Loan.totalInterest l
             + inject_Z (Loan.penaltyAmount l))%Q.
Proof.
  eexists. split; [vm_compute; reflexivity|].
  repeat split; vm_compute; congruence.
Qed.


(** ** Saving documents in a loop *)

Lemma overdueStep_eq (today : Z) (db : DB) (c : Z) (e : EMI.t) :
  overdueStep today (db, c) e =
  if applies today e
  then (Loan_incPenalty (EMI.loanId e)
          (newPenaltyAt today e - EMI.penaltyAmount e)
          (EMI_save (EMI.penalise (newPenaltyAt today e) e) db), c + 1)
  else (db, c).
Proof.
  unfold overdueStep, applies, newPenaltyAt.
  destruct (daysOverdueAt today e <=? 0); simpl; [reflexivity|].
  destruct (_ >? _); reflexivity.
Qed.

Lemma sweep_fold_emis (today : Z) (todo : list EMI.t) (db : DB) (c : Z) :
  emis (fst (fold_left (overdueStep today) todo (db, c)))
  = fold_left (saveIf (applies today)
                 (fun e => EMI.penalise (newPenaltyAt today e) e))
              todo (emis db).
Proof.
  revert db c. induction todo as [|e todo IH]; intros db c; [reflexivity|].
  cbn [fold_left]. rewrite overdueStep_eq. unfold saveIf at 2.
  destruct (applies today e); rewrite IH; reflexivity.
Qed.

Lemma sweep_fold_nextId (today : Z) (todo : list EMI.t) (db : DB) (c : Z) :
  nextId (fst (fold_left (overdueStep today) todo (db, c))) = nextId db.
Proof.
  revert db c. induction todo as [|e todo IH]; intros db c; [reflexivity|].
  cbn [fold_left]. rewrite overdueStep_eq.
  destruct (applies today e); rewrite IH; reflexivity.
Qed.

Lemma penalise_settled (today : Z) (e : EMI.t) :
  applies today (EMI.penalise (newPenaltyAt today e) e) = false.
Proof.
  unfold applies, newPenaltyAt, daysOverdueAt. simpl.
  apply andb_false_iff. right. rewrite Z.gtb_ltb. apply Z.ltb_irrefl.
Qed.

(** After a run nothing the query returns passes the tests again. *)
Lemma sweep_leaves_nothing_due (today : Z) (todo l : list EMI.t) :
  (forall x, In x l ->
     lateQuery today x && applies today x = false
     \/ exists e, In e todo /\ EMI._id e = EMI._id x /\ applies today e = true) ->
  forall x,
    In x (fold_left (saveIf (applies today)
                       (fun e => EMI.penalise (newPenaltyAt today e) e)) todo l) ->
    lateQuery today x && applies today x = false.
Proof.
  revert l. induction todo as [|e todo IH]; intros l H x Hx; simpl in Hx.
  - destruct (H x Hx) as [S | [e [[] _]]]. exact S.
  - apply (IH _ ) in Hx; [exact Hx|]. clear x Hx.
    intros x Hx. unfold saveIf in Hx.
    destruct (applies today e) eqn:A.
    + apply in_map_iff in Hx. destruct Hx as [y [Ey Hy]].
      unfold replace_emi in Ey.
      destruct (Nat.eqb (EMI._id y) (EMI._id (EMI.penalise _ e))) eqn:I.
      * subst x. left. rewrite penalise_settled. apply andb_false_r.
      * subst x. destruct (H y Hy) as [S | [e' [[E | Hin] [Hid Ha]]]].
        -- left; exact S.
        -- subst e'. simpl in I. rewrite Hid, Nat.eqb_refl in I. discriminate.
        -- right. exists e'. auto.
    + destruct (H x Hx) as [S | [e' [[E | Hin] [Hid Ha]]]].
      * left; exact S.
      * subst e'. rewrite A in Ha. discriminate.
      * right. exists e'. auto.
Qed.

Lemma sweep_fold_idle (today : Z) (todo : list EMI.t) (db : DB) (c : Z) :
  (forall x, In x todo -> applies today x = false) ->
  fold_left (overdueStep today) todo (db, c) = (db, c).
Proof.
  induction todo as [|e todo IH]; intros H; [reflexivity|].
  cbn [fold_left]. rewrite overdueStep_eq, (H e (or_introl eq_refl)).
  apply IH. intros x Hx. apply H. right. exact Hx.
Qed.

(** C5. A second run of the overdue sweep at the same instant changes no
    installment and no loan, and reports 0 processed installments. *)
Theorem processOverdueEMIs_idempotent (now : Z) (db : DB) :
  processOverdueEMIs now (fst (processOverdueEMIs now db))
  = (fst (processOverdueEMIs now db), 0).
Proof.
  unfold processOverdueEMIs at 1.
  apply sweep_fold_idle. intros x Hx.
  unfold EMI_find in Hx. apply filter_In in Hx. destruct Hx as [Hx Hl].
  unfold processOverdueEMIs in Hx. rewrite sweep_fold_emis in Hx.
  apply sweep_leaves_nothing_due in Hx.
  - rewrite Hl in Hx. exact Hx.
  - intros y Hy. destruct (lateQuery (JS.setHours0 now) y && applies (JS.setHours0 now) y) eqn:E.
    + right. apply andb_true_iff in E. destruct E as [E1 E2].
      exists y. split; [|auto]. unfold EMI_find. apply filter_In. auto.
    + left. reflexivity.
Qed.

(** ** Documents, keys and loops of saves *)

Lemma in_same_id (l : list EMI.t) (x y : EMI.t) :
  NoDup (map EMI._id l) -> In x l -> In y l -> EMI._id x = EMI._id y -> x = y.
Proof.
  induction l as [|a l IH]; intros ND Hx Hy E; [contradiction|].
  simpl in ND. inversion ND as [|? ? Hn ND']; subst.
  destruct Hx as [Hx | Hx], Hy as [Hy | Hy]; subst.
  - reflexivity.
  - exfalso. apply Hn. rewrite E. apply in_map. exact Hy.
  - exfalso. apply Hn. rewrite <- E. apply in_map. exact Hx.
  - apply IH; assumption.
Qed.

Lemma sameId_eqb (x e : EMI.t) :
  sameId x e = Nat.eqb (EMI._id x) (EMI._id e).
Proof. unfold sameId. apply Nat.eqb_sym. Qed.

Lemma existsb_sameId_In (l todo : list EMI.t) (x : EMI.t) :
  NoDup (map EMI._id l) -> incl todo l -> In x l ->
  existsb (sameId x) todo = true <-> In x todo.
Proof.
  intros ND Hincl Hx. rewrite existsb_exists. split.
  - intros [e [He S]]. unfold sameId in S. apply Nat.eqb_eq in S.
    rewrite (in_same_id l x e ND Hx (Hincl e He) (eq_sym S)). exact He.
  - intros H. exists x. split; [exact H | apply Nat.eqb_refl].
Qed.

Lemma existsb_sameId_filter (q : EMI.t -> bool) (l : list EMI.t) (x : EMI.t) :
  NoDup (map EMI._id l) -> In x l ->
  existsb (sameId x) (filter q l) = q x.
Proof.
  intros ND Hx.
  destruct (q x) eqn:Q.
  - apply (existsb_sameId_In l); auto.
    + intros y Hy. apply filter_In in Hy. tauto.
    + apply filter_In. auto.
  - destruct (existsb (sameId x) (filter q l)) eqn:E; [|reflexivity].
    apply (existsb_sameId_In l) in E; auto.
    + apply filter_In in E. destruct E as [_ E]. congruence.
    + intros y Hy. apply filter_In in Hy. tauto.
Qed.

Lemma fold_saveIf_map (c : EMI.t -> bool) (g : EMI.t -> EMI.t)
  (l0 todo done : list EMI.t) :
  (forall e, EMI._id (g e) = EMI._id e) ->
  NoDup (map EMI._id l0) -> incl todo l0 ->
  fold_left (saveIf c g) todo (map (updWhere c g done) l0)
  = map (updWhere c g (done ++ todo)) l0.
Proof.
  intros Hg ND. revert done.
  induction todo as [|e todo IH]; intros done Hincl; simpl.
  - rewrite app_nil_r. reflexivity.
  - assert (He : In e l0) by (apply Hincl; left; reflexivity).
    assert (Hstep : saveIf c g (map (updWhere c g done) l0) e
                    = map (updWhere c g (done ++ [e])) l0).
    { unfold saveIf. destruct (c e) eqn:C.
      - rewrite map_map. apply map_ext_in. intros x Hx.
        unfold replace_emi, updWhere. rewrite existsb_app. simpl.
        rewrite orb_false_r, sameId_eqb.
        assert (Hid : EMI._id (if existsb (sameId x) done && c x then g x else x)
                      = EMI._id x)
          by (destruct (_ && _); [apply Hg | reflexivity]).
        rewrite Hid, Hg.
        destruct (Nat.eqb (EMI._id x) (EMI._id e)) eqn:I.
        + apply Nat.eqb_eq in I.
          rewrite (in_same_id l0 x e ND Hx He I).
          rewrite orb_true_r, C. reflexivity.
        + rewrite orb_false_r. reflexivity.
      - apply map_ext_in. intros x Hx. unfold updWhere.
        rewrite existsb_app. simpl. rewrite orb_false_r, sameId_eqb.
        destruct (Nat.eqb (EMI._id x) (EMI._id e)) eqn:I.
        + apply Nat.eqb_eq in I.
          rewrite (in_same_id l0 x e ND Hx He I), C, !andb_false_r. reflexivity.
        + rewrite orb_false_r. reflexivity. }
    rewrite Hstep, IH.
    + rewrite <- app_assoc. reflexivity.
    + intros y Hy. apply Hincl. right. exact Hy.
Qed.

Lemma fold_saveIf_all (c : EMI.t -> bool) (g : EMI.t -> EMI.t)
  (l todo : list EMI.t) :
  (forall e, EMI._id (g e) = EMI._id e) ->
  NoDup (map EMI._id l) -> incl todo l ->
  fold_left (saveIf c g) todo l = map (updWhere c g todo) l.
Proof.
  intros Hg ND Hincl.
  pose proof (fold_saveIf_map c g l todo [] Hg ND Hincl) as H.
  simpl in H. rewrite <- H. f_equal.
  rewrite <- (map_id l) at 1. apply map_ext. intros x. reflexivity.
Qed.

(** One run of the sweep, as a map over the installments. *)
Lemma sweep_emis (now : Z) (db : DB) :
  NoDup (map EMI._id (emis db)) ->
  emis (fst (processOverdueEMIs now db))
  = map (sweepOne (JS.setHours0 now)) (emis db).
Proof.
  intros ND. unfold processOverdueEMIs. rewrite sweep_fold_emis.
  rewrite fold_saveIf_all; auto.
  - apply map_ext_in. intros x Hx. unfold updWhere, sweepOne, EMI_find.
    rewrite existsb_sameId_filter; auto.
  - intros y Hy. apply filter_In in Hy. tauto.
Qed.

(** ** Sorting by day number *)

Lemma insertByDay_perm (e : EMI.t) (l : list EMI.t) :
  Permutation (insertByDay e l) (e :: l).
Proof.
  induction l as [|x r IH]; simpl; [apply Permutation_refl|].
  destruct (EMI.dayNumber e <=? EMI.dayNumber x); [apply Permutation_refl|].
  eapply Permutation_trans; [apply perm_skip, IH | apply perm_swap].
Qed.

Lemma sortByDayNumber_perm (l : list EMI.t) : Permutation (sortByDayNumber l) l.
Proof.
  induction l as [|x r IH]; simpl; [apply perm_nil|].
  eapply Permutation_trans; [apply insertByDay_perm | apply perm_skip, IH].
Qed.




(** ** The batch loops *)

Lemma batch_fold (ref : string) (now : Z) (batch : list EMI.t) (db : DB)
  (loan : Loan.t) :
  fold_left (batchStep ref now) batch (db, loan)
  = (with_emis (fold_left (saveIf always (EMI.settle ref now)) batch (emis db)) db,
     creditAll ref now batch loan).
Proof.
  revert db loan. induction batch as [|e r IH]; intros db loan.
  - destruct db; reflexivity.
  - cbn [fold_left]. unfold batchStep at 2. rewrite IH. reflexivity.
Qed.

Lemma creditAll_frame (ref : string) (now : Z) (batch : list EMI.t)
  (loan : Loan.t) :
  let l' := creditAll ref now batch loan in
  Loan._id l' = Loan._id loan /\ Loan.amount l' = Loan.amount loan
  /\ Loan.totalDays l' = Loan.totalDays loan
  /\ Loan.status l' = Loan.status loan
  /\ Loan.penaltyAmount l' = Loan.penaltyAmount loan
  /\ Loan.interestRate l' = Loan.interestRate loan
  /\ Loan.totalPaid l' = Loan.totalPaid loan + sumZ (map EMI.totalAmount batch)
  /\ (Loan.remainingBalance l'
      == Loan.remainingBalance loan
         - inject_Z (sumZ (map baseOf batch)))%Q.
Proof.
  revert loan. induction batch as [|e r IH]; intros loan; simpl.
  - repeat (split; [first [reflexivity | unfold creditAll; simpl; lia]|]).
    unfold creditAll, baseOf, sumZ; simpl.
    unfold Qminus. change (- inject_Z 0)%Q with 0%Q. rewrite Qplus_0_r.
    reflexivity.
  - unfold creditAll in *. cbn [fold_left].
    destruct (IH (Loan.credit (EMI.settle ref now e) loan))
      as (H1 & H2 & H3 & H4 & H5 & H6 & H7 & H8).
    cbn [Loan.credit Loan._id Loan.amount Loan.totalDays Loan.status
         Loan.penaltyAmount Loan.interestRate Loan.totalPaid
         Loan.remainingBalance EMI.settle EMI.totalAmount
         EMI.principalAmount EMI.interestAmount map sumZ fold_right] in *.
    repeat (split; [first [assumption | lia]|]).
    rewrite H8. unfold baseOf at 2. rewrite !inject_Z_plus. ring.
Qed.

Lemma find_replace_loan (l : Loan.t) (ls : list Loan.t) :
  (exists old, find (fun x => Nat.eqb (Loan._id x) (Loan._id l)) ls = Some old) ->
  find (fun x => Nat.eqb (Loan._id x) (Loan._id l)) (map (replace_loan l) ls)
  = Some l.
Proof.
  induction ls as [|x r IH]; intros [old H]; simpl in *; [discriminate|].
  destruct (Nat.eqb (Loan._id x) (Loan._id l)) eqn:E.
  - assert (R : replace_loan l x = l) by (unfold replace_loan; rewrite E; reflexivity).
    rewrite R, Nat.eqb_refl. reflexivity.
  - assert (R : replace_loan l x = x) by (unfold replace_loan; rewrite E; reflexivity).
    rewrite R, E. apply IH. eauto.
Qed.

Lemma find_replace_loan_other (l : Loan.t) (id : nat) (ls : list Loan.t) :
  id <> Loan._id l ->
  find (fun x => Nat.eqb (Loan._id x) id) (map (replace_loan l) ls)
  = find (fun x => Nat.eqb (Loan._id x) id) ls.
Proof.
  intros N. induction ls as [|x r IH]; simpl; [reflexivity|].
  destruct (Nat.eqb (Loan._id x) (Loan._id l)) eqn:E.
  - assert (R : replace_loan l x = l) by (unfold replace_loan; rewrite E; reflexivity).
    apply Nat.eqb_eq in E.
    assert (F1 : Nat.eqb (Loan._id l) id = false)
      by (apply Nat.eqb_neq; congruence).
    assert (F2 : Nat.eqb (Loan._id x) id = false)
      by (apply Nat.eqb_neq; congruence).
    rewrite R, F1, F2. exact IH.
  - assert (R : replace_loan l x = x) by (unfold replace_loan; rewrite E; reflexivity).
    rewrite R. destruct (Nat.eqb (Loan._id x) id); [reflexivity | exact IH].
Qed.

(** [loan.save()] of a document whose terms were not touched. *)
Lemma Loan_save_same_terms (l old : Loan.t) (db : DB) :
  Loan_findById (Loan._id l) db = Some old ->
  Loan.amount l = Loan.amount old -> Loan.totalDays l = Loan.totalDays old ->
  Loan_save l db = with_loans (map (replace_loan l) (loans db)) db.
Proof.
  intros F A N. unfold Loan_save. rewrite F. unfold isModified_terms.
  rewrite A, N, !Z.eqb_refl. reflexivity.
Qed.

Lemma nodupb_sound (l : list nat) : nodupb l = true -> NoDup l.
Proof.
  induction l as [|x r IH]; simpl; intros H; [constructor|].
  apply andb_true_iff in H. destruct H as [H1 H2].
  constructor; [|apply IH, H2].
  intros Hin. apply negb_true_iff in H1.
  assert (E : existsb (Nat.eqb x) r = true)
    by (apply existsb_exists; exists x; split; [exact Hin | apply Nat.eqb_refl]).
  congruence.
Qed.

Lemma Loan_findById_id (id : nat) (db : DB) (l : Loan.t) :
  Loan_findById id db = Some l -> Loan._id l = id /\ In l (loans db).
Proof.
  unfold Loan_findById. intros H. apply find_some in H.
  destruct H as [Hin E]. apply Nat.eqb_eq in E. auto.
Qed.

Lemma in_firstn (k : nat) (l : list EMI.t) (x : EMI.t) :
  In x (firstn k l) -> In x l.
Proof.
  intros H. rewrite <- (firstn_skipn k l). apply in_or_app. left. exact H.
Qed.

Lemma oldestUnpaid_incl (loanId : nat) (db : DB) (e : EMI.t) :
  In e (oldestUnpaid loanId db) -> In e (emis db) /\ unpaidOf loanId e = true.
Proof.
  unfold oldestUnpaid, EMI_find. intros H.
  apply in_firstn in H.
  apply (Permutation_in _ (sortByDayNumber_perm _)) in H.
  apply filter_In in H. exact H.
Qed.

Lemma oldestUnpaid_length (loanId : nat) (db : DB) :
  List.length (oldestUnpaid loanId db)
  = Nat.min 7 (EMI_countDocuments (unpaidOf loanId) db).
Proof.
  unfold oldestUnpaid, EMI_countDocuments. rewrite length_firstn.
  rewrite (Permutation_length (sortByDayNumber_perm _)). reflexivity.
Qed.


Lemma batch_emis (ref : string) (now : Z) (batch l : list EMI.t) :
  NoDup (map EMI._id l) -> incl batch l ->
  fold_left (saveIf always (EMI.settle ref now)) batch l
  = map (fun x => if existsb (sameId x) batch then EMI.settle ref now x else x) l.
Proof.
  intros ND Hincl. rewrite fold_saveIf_all; auto.
  apply map_ext. intros x. unfold updWhere, always.
  rewrite andb_true_r. reflexivity.
Qed.



(** ** Schedule generation *)

Lemma sumZ_const (f : EMI.t -> Z) (c : Z) (l : list EMI.t) :
  (forall e, In e l -> f e = c) ->
  sumZ (map f l) = Z.of_nat (List.length l) * c.
Proof.
  induction l as [|a l IH]; intros H; [reflexivity|].
  cbn [map sumZ fold_right List.length].
  change (fold_right Z.add 0 (map f l)) with (sumZ (map f l)).
  rewrite IH by (intros; apply H; right; assumption).
  rewrite (H a (or_introl eq_refl)). lia.
Qed.

Lemma buildSchedule_length (loan : Loan.t) (start : Z) (base : nat) :
  List.length (buildSchedule loan start base) = Z.to_nat (Loan.totalDays loan).
Proof. unfold buildSchedule. rewrite length_map, length_seq. reflexivity. Qed.

Lemma buildSchedule_days (loan : Loan.t) (start : Z) (base : nat) :
  map EMI.dayNumber (buildSchedule loan start base)
  = map Z.of_nat (seq 1 (Z.to_nat (Loan.totalDays loan))).
Proof.
  unfold buildSchedule. rewrite map_map, <- seq_shift, map_map.
  apply map_ext. intros i. unfold scheduleEMI. cbn [EMI.dayNumber]. lia.
Qed.

Lemma map_add_seq (base s n : nat) :
  map (Nat.add base) (seq s n) = seq (base + s) n.
Proof.
  revert s. induction n as [|n IH]; intros s; [reflexivity|].
  simpl. f_equal. rewrite IH, Nat.add_succ_r. reflexivity.
Qed.

Lemma buildSchedule_ids (loan : Loan.t) (start : Z) (base : nat) :
  map EMI._id (buildSchedule loan start base)
  = seq base (Z.to_nat (Loan.totalDays loan)).
Proof.
  unfold buildSchedule. rewrite map_map.
  transitivity (map (Nat.add base) (seq 0 (Z.to_nat (Loan.totalDays loan)))).
  - apply map_ext. intros i. reflexivity.
  - rewrite map_add_seq, Nat.add_0_r. reflexivity.
Qed.

Lemma buildSchedule_each (loan : Loan.t) (start : Z) (base : nat) (e : EMI.t) :
  In e (buildSchedule loan start base) ->
  EMI.loanId e = Loan._id loan
  /\ EMI.userId e = Loan.userId loan
  /\ EMI.principalAmount e = dailyPrincipalOf (Loan.amount loan) (Loan.totalDays loan)
  /\ EMI.interestAmount e = dailyInterestOf (Loan.amount loan) (Loan.totalDays loan)
  /\ EMI.penaltyAmount e = 0
  /\ EMI.totalAmount e = EMI.principalAmount e + EMI.interestAmount e
  /\ EMI.dueDate e = JS.addDays start (EMI.dayNumber e - 1)
  /\ EMI.status e = EMI.pending
  /\ EMI.razorpayPaymentId e = None /\ EMI.paidAt e = None.
Proof.
  unfold buildSchedule. intros H. apply in_map_iff in H.
  destruct H as [i [<- _]]. simpl. repeat split; reflexivity.
Qed.

Lemma find_app_l (q : Loan.t -> bool) (l r : list Loan.t) (x : Loan.t) :
  find q l = Some x -> find q (l ++ r) = Some x.
Proof.
  induction l as [|a l IH]; simpl; [discriminate|].
  destruct (q a); auto.
Qed.

Lemma generateEMISchedule_spec (now : Z) (loan old : Loan.t) (db : DB) :
  Loan_findById (Loan._id loan) db = Some old ->
  let es := buildSchedule loan (scheduleStart now) (nextId db) in
  let dated := Loan.set_dates now (scheduleStart now)
                 (JS.addDays (scheduleStart now) (Loan.totalDays loan - 1)) loan in
  snd (generateEMISchedule now loan db) = es
  /\ emis (fst (generateEMISchedule now loan db)) = emis db ++ es
  /\ nextId (fst (generateEMISchedule now loan db))
     = (nextId db + List.length es)%nat
  /\ loans (fst (generateEMISchedule now loan db))
     = map (replace_loan (if isModified_terms old dated
                          then Loan.recompute dated else dated)) (loans db).
Proof.
  intros F es dated. unfold generateEMISchedule. fold es. fold dated.
  cbn [fst snd]. unfold Loan_save.
  assert (F' : Loan_findById (Loan._id dated) (EMI_insertMany es db) = Some old)
    by exact F.
  rewrite F'. repeat split.
Qed.

Lemma dailyInterestOf_rate (a n r : Z) :
  r = 20 ->
  dailyInterestOf a n
  = JS.Math_ceil ((inject_Z a * (inject_Z r / 100)) / inject_Z n)%Q.
Proof. intros ->. reflexivity. Qed.

Lemma schedule_sums (loan : Loan.t) (start : Z) (base : nat) :
  1 <= Loan.totalDays loan ->
  let es := buildSchedule loan start base in
  let A := Loan.amount loan in
  let N := Loan.totalDays loan in
  sumZ (map EMI.principalAmount es) = N * dailyPrincipalOf A N
  /\ sumZ (map EMI.interestAmount es) = N * dailyInterestOf A N
  /\ sumZ (map EMI.totalAmount es)
     = N * (dailyPrincipalOf A N + dailyInterestOf A N)
  /\ A <= sumZ (map EMI.principalAmount es) <= A + (N - 1)
  /\ JS.Math_ceil (inject_Z A * (20 # 100))%Q
     <= sumZ (map EMI.interestAmount es)
     <= JS.Math_ceil (inject_Z A * (20 # 100))%Q + (N - 1).
Proof.
  intros HN es A N.
  assert (L : Z.of_nat (List.length es) = N)
    by (unfold es; rewrite buildSchedule_length; apply Z2Nat.id; unfold N; lia).
  assert (P : sumZ (map EMI.principalAmount es) = N * dailyPrincipalOf A N).
  { rewrite (sumZ_const _ (dailyPrincipalOf A N)), L; [reflexivity|].
    intros e He. apply (buildSchedule_each loan start base e He). }
  assert (I : sumZ (map EMI.interestAmount es) = N * dailyInterestOf A N).
  { rewrite (sumZ_const _ (dailyInterestOf A N)), L; [reflexivity|].
    intros e He. apply (buildSchedule_each loan start base e He). }
  assert (T : sumZ (map EMI.totalAmount es)
              = N * (dailyPrincipalOf A N + dailyInterestOf A N)).
  { rewrite (sumZ_const _ (dailyPrincipalOf A N + dailyInterestOf A N)), L;
      [reflexivity|].
    intros e He.
    destruct (buildSchedule_each loan start base e He)
      as (_ & _ & Hp & Hi & _ & Ht & _). rewrite Ht, Hp, Hi. reflexivity. }
  repeat split; try assumption.
  - rewrite P. apply (ceil_share_Z A N). unfold N; lia.
  - rewrite P. apply (ceil_share_Z A N). unfold N; lia.
  - rewrite I. apply (ceil_share_Q (inject_Z A * (20 # 100))%Q N). unfold N; lia.
  - rewrite I. apply (ceil_share_Q (inject_Z A * (20 # 100))%Q N). unfold N; lia.
Qed.

Lemma approve_ok (id : nat) (amount totalDays : option JS.Int) (now : Z)
  (db db' : DB) :
  approve id amount totalDays now db = (db', 200%nat) ->
  exists loan amt days,
    Loan_findById id db = Some loan /\ isPending loan = true
    /\ (amount = None /\ amt = Loan.amount loan
        \/ amount = Some (JS.Num amt) /\ amountInRange amt = true)
    /\ (totalDays = None /\ days = Loan.totalDays loan
        \/ totalDays = Some (JS.Num days) /\ daysInRange days = true)
    /\ db' = fst (generateEMISchedule now
                    (Loan.set_status Loan.approved
                       (Loan.set_terms amt days 20 loan)) db).
Proof.
  unfold approve. intros H.
  destruct (Loan_findById id db) as [loan|] eqn:F; [|inversion H].
  destruct (isPending loan) eqn:P; [|inversion H]. cbn [negb] in H.
  exists loan.
  destruct amount as [[|a]|]; [inversion H| |];
    destruct totalDays as [[|d]|];
    repeat match type of H with
           | (if negb ?c then _ else _) = _ =>
               destruct c eqn:?; cbn [negb] in H; [|inversion H]
           | _ => idtac
           end;
    try (inversion H; fail).
  all: inversion H; subst; clear H.
  all: do 2 eexists; (split; [reflexivity|]); (split; [exact P|]).
  all: split; [first [left; split; reflexivity | right; split; [reflexivity | assumption]]|].
  all: split; [first [left; split; reflexivity | right; split; [reflexivity | assumption]]|].
  all: reflexivity.
Qed.

Lemma amountInRange_spec (a : Z) : amountInRange a = true <-> 1000 <= a <= 100000.
Proof.
  unfold amountInRange. rewrite andb_true_iff, !negb_true_iff, Z.ltb_ge.
  rewrite Z.gtb_ltb, Z.ltb_ge. reflexivity.
Qed.

Lemma daysInRange_spec (d : Z) : daysInRange d = true <-> 1 <= d <= 365.
Proof.
  unfold daysInRange. rewrite andb_true_iff, !negb_true_iff, Z.ltb_ge.
  rewrite Z.gtb_ltb, Z.ltb_ge. reflexivity.
Qed.



(** ** Keys, lookups and sums *)

Lemma loan_same_id (ls : list Loan.t) (x y : Loan.t) :
  NoDup (map Loan._id ls) -> In x ls -> In y ls ->
  Loan._id x = Loan._id y -> x = y.
Proof.
  induction ls as [|a l IH]; intros ND Hx Hy E; [contradiction|].
  simpl in ND. inversion ND as [|? ? Hn ND']; subst.
  destruct Hx as [Hx | Hx], Hy as [Hy | Hy]; subst.
  - reflexivity.
  - exfalso. apply Hn. rewrite E. apply in_map. exact Hy.
  - exfalso. apply Hn. rewrite <- E. apply in_map. exact Hx.
  - apply IH; assumption.
Qed.

Lemma In_find_loan (db : DB) (l : Loan.t) :
  NoDup (map Loan._id (loans db)) -> In l (loans db) ->
  Loan_findById (Loan._id l) db = Some l.
Proof.
  intros ND Hin. unfold Loan_findById.
  destruct (find (fun x => Nat.eqb (Loan._id x) (Loan._id l)) (loans db))
    as [y|] eqn:F.
  - apply find_some in F. destruct F as [Hy E]. apply Nat.eqb_eq in E.
    f_equal. apply (loan_same_id (loans db)); auto.
  - exfalso. apply (find_none _ _ F) in Hin.
    rewrite Nat.eqb_refl in Hin. discriminate.
Qed.

Lemma EMI_findById_In (id : nat) (db : DB) (e : EMI.t) :
  EMI_findById id db = Some e -> In e (emis db) /\ EMI._id e = id.
Proof.
  unfold EMI_findById. intros H. apply find_some in H.
  destruct H as [Hin E]. apply Nat.eqb_eq in E. auto.
Qed.

Lemma sumZ_app (a b : list Z) : sumZ (a ++ b) = sumZ a + sumZ b.
Proof.
  induction a as [|x a IH]; simpl; [reflexivity|].
  change (fold_right Z.add 0 (a ++ b)) with (sumZ (a ++ b)).
  change (fold_right Z.add 0 a) with (sumZ a). rewrite IH. lia.
Qed.

Lemma sumZ_cons (x : Z) (l : list Z) : sumZ (x :: l) = x + sumZ l.
Proof. reflexivity. Qed.

(** A sum over the documents a query selects, as a sum over all of them. *)
Lemma sum_filter (q : EMI.t -> bool) (f : EMI.t -> Z) (l : list EMI.t) :
  sumZ (map f (filter q l)) = sumZ (map (fun x => if q x then f x else 0) l).
Proof.
  induction l as [|x l IH]; [reflexivity|].
  cbn [filter map]. rewrite sumZ_cons, <- IH.
  destruct (q x); [rewrite map_cons, sumZ_cons; reflexivity | lia].
Qed.

Lemma sumZ_ext_in (f g : EMI.t -> Z) (l : list EMI.t) :
  (forall x, In x l -> f x = g x) -> sumZ (map f l) = sumZ (map g l).
Proof.
  intros H. f_equal. apply map_ext_in. exact H.
Qed.

Lemma sumZ_plus (f g : EMI.t -> Z) (l : list EMI.t) :
  sumZ (map (fun x => f x + g x) l) = sumZ (map f l) + sumZ (map g l).
Proof.
  induction l as [|x l IH]; [reflexivity|].
  cbn [map]. rewrite !sumZ_cons, IH. lia.
Qed.

Lemma sumZ_zero (f : EMI.t -> Z) (l : list EMI.t) :
  (forall x, In x l -> f x = 0) -> sumZ (map f l) = 0.
Proof.
  induction l as [|x l IH]; intros H; [reflexivity|].
  cbn [map]. rewrite sumZ_cons, IH, (H x (or_introl eq_refl)); [reflexivity|].
  intros y Hy. apply H. right. exact Hy.
Qed.

(** The one document with the key of [b] carries the whole sum. *)
Lemma sum_at_key (f : EMI.t -> Z) (l : list EMI.t) (b : EMI.t) :
  NoDup (map EMI._id l) -> In b l ->
  sumZ (map (fun x => if sameId x b then f x else 0) l) = f b.
Proof.
  induction l as [|a l IH]; intros ND Hb; [contradiction|].
  simpl in ND. inversion ND as [|? ? Hn ND']; subst.
  cbn [map]. rewrite sumZ_cons. destruct Hb as [-> | Hb].
  - rewrite sameId_eqb, Nat.eqb_refl, sumZ_zero; [lia|].
    intros x Hx. rewrite sameId_eqb.
    destruct (Nat.eqb (EMI._id x) (EMI._id b)) eqn:E; [|reflexivity].
    apply Nat.eqb_eq in E. exfalso. apply Hn. rewrite <- E.
    apply in_map. exact Hx.
  - rewrite IH by assumption. rewrite sameId_eqb.
    destruct (Nat.eqb (EMI._id a) (EMI._id b)) eqn:E; [|lia].
    apply Nat.eqb_eq in E. exfalso. apply Hn. rewrite E.
    apply in_map. exact Hb.
Qed.

(** Summing over the members of a batch, by scanning the collection. *)
Lemma sum_over_batch (f : EMI.t -> Z) (l batch : list EMI.t) :
  NoDup (map EMI._id l) -> NoDup (map EMI._id batch) -> incl batch l ->
  sumZ (map (fun x => if existsb (sameId x) batch then f x else 0) l)
  = sumZ (map f batch).
Proof.
  intros ND. induction batch as [|b r IH]; intros NB Hincl.
  - apply sumZ_zero. reflexivity.
  - simpl in NB. inversion NB as [|? ? Hn NB']; subst.
    cbn [map]. rewrite sumZ_cons.
    rewrite <- IH by (auto; intros y Hy; apply Hincl; right; exact Hy).
    rewrite <- (sum_at_key f l b ND) by (apply Hincl; left; reflexivity).
    rewrite <- sumZ_plus. apply sumZ_ext_in. intros x Hx.
    cbn [existsb].
    destruct (sameId x b) eqn:E; [|reflexivity].
    destruct (existsb (sameId x) r) eqn:E'; [|simpl; lia].
    exfalso. apply existsb_exists in E'. destruct E' as [y [Hy Sy]].
    unfold sameId in E, Sy. apply Nat.eqb_eq in E, Sy.
    apply Hn. rewrite E, <- Sy. apply in_map. exact Hy.
Qed.

Lemma filter_map_comm (q : EMI.t -> bool) (f : EMI.t -> EMI.t) (l : list EMI.t) :
  (forall x, In x l -> q (f x) = q x) ->
  filter q (map f l) = map f (filter q l).
Proof.
  induction l as [|x l IH]; intros H; [reflexivity|].
  cbn [map filter]. rewrite (H x (or_introl eq_refl)), IH.
  - destruct (q x); reflexivity.
  - intros y Hy. apply H. right. exact Hy.
Qed.

(** ** Installment facts kept by every request *)

Lemma accrued_mono (t now : Z) (e : EMI.t) :
  t <= now -> accrued t e -> accrued now e.
Proof.
  intros H [d [Hd Hp]]. exists d. split; [|exact Hp].
  pose proof (daysOverdueAt_mono _ _ e (setHours0_mono t now H)). lia.
Qed.

Lemma emi_ok_mono (t now : Z) (e : EMI.t) :
  t <= now -> emi_ok t e -> emi_ok now e.
Proof.
  intros H [H1 H2 H3 H4]. constructor; auto. apply (accrued_mono t); auto.
Qed.

Lemma emi_ok_settle (clock : Z) (ref : string) (now : Z) (e : EMI.t) :
  emi_ok clock e -> emi_ok clock (EMI.settle ref now e).
Proof.
  intros [H1 H2 H3 H4]. constructor.
  - exact H1.
  - exact H2.
  - simpl. discriminate.
  - destruct H4 as [d Hd]. exists d. exact Hd.
Qed.

Lemma lateQuery_status (today : Z) (e : EMI.t) :
  lateQuery today e = true ->
  (EMI.status e = EMI.pending \/ EMI.status e = EMI.overdue)
  /\ EMI.dueDate e < today.
Proof.
  unfold lateQuery. rewrite andb_true_iff, orb_true_iff, Z.ltb_lt.
  intros [[H | H] D]; destruct (EMI.status e); try discriminate H; auto.
Qed.

Lemma applies_spec (today : Z) (e : EMI.t) :
  applies today e = true <->
  1 <= daysOverdueAt today e /\ EMI.penaltyAmount e < newPenaltyAt today e.
Proof.
  unfold applies. rewrite andb_true_iff, negb_true_iff, Z.leb_gt, Z.gtb_ltb, Z.ltb_lt.
  lia.
Qed.

Lemma emi_ok_sweepOne (now : Z) (e : EMI.t) :
  emi_ok now e -> emi_ok now (sweepOne (JS.setHours0 now) e).
Proof.
  intros H. unfold sweepOne.
  destruct (lateQuery _ e && applies _ e) eqn:C; [|exact H].
  apply andb_true_iff in C. destruct C as [_ A].
  apply applies_spec in A. destruct A as [A1 A2].
  destruct H as [H1 H2 H3 H4]. constructor.
  - reflexivity.
  - exact H2.
  - simpl. discriminate.
  - exists (daysOverdueAt (JS.setHours0 now) e). split; [|reflexivity].
    unfold daysOverdueAt in *. simpl. lia.
Qed.

Lemma ceil_pos (x : Q) : (0 < x)%Q -> 1 <= JS.Math_ceil x.
Proof.
  intros H. pose proof (Qle_ceiling x) as C. unfold JS.Math_ceil.
  assert (L : (inject_Z 0 < inject_Z (Qceiling x))%Q)
    by (eapply Qlt_le_trans; [exact H | exact C]).
  rewrite <- Zlt_Qlt in L. lia.
Qed.

Lemma dailyInterestOf_pos (a n : Z) : 1 <= a -> 1 <= n -> 0 < dailyInterestOf a n.
Proof.
  intros Ha Hn. unfold dailyInterestOf.
  assert (P : 1 <= JS.Math_ceil (inject_Z a * (20 # 100) / inject_Z n)%Q);
    [|lia].
  apply ceil_pos. apply Qlt_shift_div_l.
  - apply inject_Z_pos. lia.
  - rewrite Qmult_0_l.
    apply Qmult_lt_0_compat; [apply inject_Z_pos; lia | reflexivity].
Qed.

Lemma settleIn_frame (ref : string) (now : Z) (batch : list EMI.t) (x : EMI.t) :
  EMI._id (settleIn ref now batch x) = EMI._id x
  /\ EMI.loanId (settleIn ref now batch x) = EMI.loanId x
  /\ EMI.principalAmount (settleIn ref now batch x) = EMI.principalAmount x
  /\ EMI.interestAmount (settleIn ref now batch x) = EMI.interestAmount x
  /\ EMI.penaltyAmount (settleIn ref now batch x) = EMI.penaltyAmount x
  /\ EMI.totalAmount (settleIn ref now batch x) = EMI.totalAmount x.
Proof.
  unfold settleIn. destruct (existsb _ _); repeat split; reflexivity.
Qed.

Lemma sweepOne_frame (today : Z) (x : EMI.t) :
  EMI._id (sweepOne today x) = EMI._id x
  /\ EMI.loanId (sweepOne today x) = EMI.loanId x
  /\ EMI.principalAmount (sweepOne today x) = EMI.principalAmount x
  /\ EMI.interestAmount (sweepOne today x) = EMI.interestAmount x
  /\ isPaid (sweepOne today x) = isPaid x.
Proof.
  unfold sweepOne. destruct (lateQuery today x && applies today x) eqn:C;
    repeat split; try reflexivity.
  apply andb_true_iff in C. destruct C as [L _].
  apply lateQuery_status in L. destruct L as [[S | S] _];
    unfold isPaid; simpl; rewrite S; reflexivity.
Qed.

Lemma replace_loan_id (l x : Loan.t) :
  Loan._id (replace_loan l x) = Loan._id x.
Proof.
  unfold replace_loan. destruct (Nat.eqb (Loan._id x) (Loan._id l)) eqn:E;
    [apply Nat.eqb_eq in E; congruence | reflexivity].
Qed.

Lemma map_ids_emis (f : EMI.t -> EMI.t) (l : list EMI.t) :
  (forall x, EMI._id (f x) = EMI._id x) ->
  map EMI._id (map f l) = map EMI._id l.
Proof. intros H. rewrite map_map. apply map_ext. exact H. Qed.

Lemma map_ids_loans (g : Loan.t -> Loan.t) (l : list Loan.t) :
  (forall x, Loan._id (g x) = Loan._id x) ->
  map Loan._id (map g l) = map Loan._id l.
Proof. intros H. rewrite map_map. apply map_ext. exact H. Qed.

(** Installments of a loan after a map that keeps [loanId]. *)
Lemma emisOf_map (f : EMI.t -> EMI.t) (id : nat) (db db' : DB) :
  (forall x, EMI.loanId (f x) = EMI.loanId x) ->
  emis db' = map f (emis db) ->
  emisOf id db' = map f (emisOf id db).
Proof.
  intros H E. unfold emisOf, EMI_find. rewrite E.
  apply filter_map_comm. intros x _. unfold ofLoan. rewrite H. reflexivity.
Qed.

Lemma inactive_no_emis (clock : Z) (db : DB) (l : Loan.t) :
  ledger_inv clock db -> In l (loans db) -> isActive l = false ->
  emisOf (Loan._id l) db = [].
Proof.
  intros I Hl A.
  destruct (emisOf (Loan._id l) db) as [|e r] eqn:E; [reflexivity|].
  exfalso.
  assert (He : In e (emisOf (Loan._id l) db)) by (rewrite E; left; reflexivity).
  unfold emisOf, EMI_find in He. apply filter_In in He. destruct He as [He O].
  unfold ofLoan in O. apply Nat.eqb_eq in O.
  destruct (inv_owner _ _ I e He) as [l0 [Hl0 [Hid [Act _]]]].
  assert (l0 = l)
    by (apply (loan_same_id (loans db)); auto; [apply (inv_loan_ids _ _ I) | congruence]).
  subst l0. congruence.
Qed.

Lemma fresh_no_emis (clock : Z) (db : DB) (id : nat) :
  ledger_inv clock db -> (nextId db <= id)%nat ->
  emisOf id db = [].
Proof.
  intros I Hid.
  destruct (emisOf id db) as [|e r] eqn:E; [reflexivity|].
  exfalso.
  assert (He : In e (emisOf id db)) by (rewrite E; left; reflexivity).
  unfold emisOf, EMI_find in He. apply filter_In in He. destruct He as [He O].
  unfold ofLoan in O. apply Nat.eqb_eq in O.
  destruct (inv_owner _ _ I e He) as [l0 [Hl0 [Hid0 _]]].
  pose proof (inv_loan_fresh _ _ I l0 Hl0). lia.
Qed.

(** ** Settlements keep the ledger well formed *)

Lemma loan_ok_moved (db db' : DB) (l l' : Loan.t) :
  loan_ok db l ->
  Loan._id l' = Loan._id l -> Loan.amount l' = Loan.amount l ->
  Loan.totalDays l' = Loan.totalDays l ->
  Loan.interestRate l' = Loan.interestRate l ->
  (isActive l' = false -> Loan.penaltyAmount l' = 0) ->
  (isActive l' = true ->
   isActive l = true
   /\ List.length (emisOf (Loan._id l) db') = List.length (emisOf (Loan._id l) db)
   /\ sumTotalOf (Loan._id l) db' - Loan.penaltyAmount l'
      = sumTotalOf (Loan._id l) db - Loan.penaltyAmount l) ->
  loan_ok db' l'.
Proof.
  intros [R A D Idle C S] Hid Ha Hd Hr Hidle Hact.
  constructor.
  - congruence.
  - rewrite Ha. exact A.
  - rewrite Hd. exact D.
  - exact Hidle.
  - intros Act. destruct (Hact Act) as (Act0 & L & _).
    rewrite Hid, Hd, L. apply C, Act0.
  - intros Act. destruct (Hact Act) as (Act0 & _ & Su).
    unfold scheduledTotal. rewrite Hid, Ha, Hd.
    specialize (S Act0). unfold scheduledTotal in S. lia.
Qed.

Lemma settleIn_sums (ref : string) (now : Z) (batch : list EMI.t) (id : nat)
  (db db' : DB) :
  emis db' = map (settleIn ref now batch) (emis db) ->
  List.length (emisOf id db') = List.length (emisOf id db)
  /\ sumTotalOf id db' = sumTotalOf id db.
Proof.
  intros E.
  assert (M : emisOf id db' = map (settleIn ref now batch) (emisOf id db))
    by (apply emisOf_map; [intros; apply settleIn_frame | exact E]).
  unfold sumTotalOf. rewrite M, length_map, map_map. split; [reflexivity|].
  f_equal. apply map_ext. intros x. apply settleIn_frame.
Qed.

Lemma settles_inv (t now : Z) (batch : list EMI.t) (db db' : DB) :
  ledger_inv t db -> t <= now -> settles now batch db db' -> ledger_inv now db'.
Proof.
  intros I Hle (ref & loan & loanX & Hincl & NB & Hb & Ee & En & Hloan & El & T).
  destruct T as (T1 & T2 & T3 & T4 & T5 & T6 & T7).
  pose proof (inv_emi_ids _ _ I) as NDe. pose proof (inv_loan_ids _ _ I) as NDl.
  assert (Fid : forall x, EMI._id (settleIn ref now batch x) = EMI._id x)
    by (intros; apply settleIn_frame).
  assert (Rid : forall x, Loan._id (replace_loan loanX x) = Loan._id x)
    by (intros; apply replace_loan_id).
  assert (Own : forall b, In b batch -> isActive loan = true).
  { intros b Hin.
    destruct (inv_owner _ _ I b (Hincl b Hin)) as [l0 [Hl0 [Hid0 [A0 _]]]].
    assert (l0 = loan)
      by (apply (loan_same_id (loans db)); auto; rewrite Hid0; apply Hb, Hin).
    subst l0. exact A0. }
  assert (Act : isActive loan = true -> isActive loanX = true).
  { intros A. destruct T7 as [S | [[_ S] | [A' _]]].
    - unfold isActive in *. rewrite S. exact A.
    - unfold isActive. rewrite S. reflexivity.
    - congruence. }
  assert (ActX : isActive loanX = true -> isActive loan = true).
  { intros A. destruct T7 as [S | [[Ne _] | [_ A']]].
    - unfold isActive in *. rewrite <- S. exact A.
    - destruct batch as [|b r]; [contradiction|].
      apply (Own b). left. reflexivity.
    - congruence. }
  assert (Idle : isActive loanX = false -> isActive loan = false).
  { intros A. destruct (isActive loan) eqn:A0; [|reflexivity].
    rewrite (Act eq_refl) in A. discriminate. }
  assert (Repl : forall l, In l (loans db) ->
                   (l = loan /\ replace_loan loanX l = loanX)
                   \/ (Loan._id l <> Loan._id loan /\ replace_loan loanX l = l)).
  { intros l Hl. unfold replace_loan.
    destruct (Nat.eqb (Loan._id l) (Loan._id loanX)) eqn:E.
    - left. apply Nat.eqb_eq in E. split; [|reflexivity].
      apply (loan_same_id (loans db)); auto. congruence.
    - right. apply Nat.eqb_neq in E. split; [congruence | reflexivity]. }
  constructor.
  - rewrite Ee, map_ids_emis; auto.
  - rewrite El, map_ids_loans; auto.
  - intros e He. rewrite Ee in He. apply in_map_iff in He.
    destruct He as [x [<- Hx]]. rewrite Fid, En. apply (inv_emi_fresh _ _ I x Hx).
  - intros l Hl. rewrite El in Hl. apply in_map_iff in Hl.
    destruct Hl as [x [<- Hx]]. rewrite Rid, En. apply (inv_loan_fresh _ _ I x Hx).
  - intros e He. rewrite Ee in He. apply in_map_iff in He.
    destruct He as [x [<- Hx]].
    pose proof (emi_ok_mono t now x Hle (inv_emi _ _ I x Hx)) as Ok.
    unfold settleIn. destruct (existsb _ _); [apply emi_ok_settle|]; exact Ok.
  - intros e He. rewrite Ee in He. apply in_map_iff in He.
    destruct He as [x [<- Hx]].
    destruct (inv_owner _ _ I x Hx) as [l [Hl [Hid [A [P Q]]]]].
    destruct (settleIn_frame ref now batch x) as (_ & F2 & F3 & F4 & _).
    exists (replace_loan loanX l). split; [rewrite El; apply in_map; exact Hl|].
    split; [rewrite Rid, F2; exact Hid|].
    destruct (Repl l Hl) as [[-> ->] | [_ ->]].
    + unfold owned. rewrite F3, F4, T2, T3. auto.
    + unfold owned. rewrite F3, F4. auto.
  - intros l' Hl'. rewrite El in Hl'. apply in_map_iff in Hl'.
    destruct Hl' as [l [<- Hl]].
    destruct (settleIn_sums ref now batch (Loan._id l) db db' Ee) as [SL ST].
    destruct (Repl l Hl) as [[-> ->] | [_ ->]].
    + apply (loan_ok_moved db db' loan loanX); auto.
      * apply (inv_loan _ _ I loan Hl).
      * intros A. rewrite T5. apply (loan_idle _ _ (inv_loan _ _ I loan Hl)), Idle, A.
      * intros A. split; [apply ActX, A|]. split; [exact SL|]. rewrite ST, T5. reflexivity.
    + apply (loan_ok_moved db db' l l); auto.
      * apply (inv_loan _ _ I l Hl).
      * apply (loan_idle _ _ (inv_loan _ _ I l Hl)).
      * intros A. split; [exact A|]. split; [exact SL|]. rewrite ST. reflexivity.
Qed.

(** ** The settlement handlers, as settlements *)

Lemma Qminus_0 (q : Q) : (q == q - inject_Z 0)%Q.
Proof. unfold Qminus. change (- inject_Z 0)%Q with 0%Q. rewrite Qplus_0_r. reflexivity. Qed.

Lemma single_settle (t now : Z) (db : DB) (id : nat) (emi : EMI.t) (ref : string) :
  ledger_inv t db -> EMI_findById id db = Some emi ->
  settles now [emi] db
          (updateLoanTotals (EMI.settle ref now emi)
                            (EMI_save (EMI.settle ref now emi) db)).
Proof.
  intros I F. destruct (EMI_findById_In _ _ _ F) as [Hin _].
  pose proof (inv_emi_ids _ _ I) as NDe. pose proof (inv_loan_ids _ _ I) as NDl.
  destruct (inv_owner _ _ I emi Hin) as [loan [Hl [Hid _]]].
  set (emi' := EMI.settle ref now emi).
  set (db1 := EMI_save emi' db).
  assert (FL : Loan_findById (EMI.loanId emi') db1 = Some loan).
  { unfold emi'. cbn [EMI.settle EMI.loanId]. rewrite <- Hid.
    apply (In_find_loan db); assumption. }
  set (loan1 := Loan.credit emi' loan).
  set (loan2 := if Nat.eqb (EMI_countDocuments (unpaidOf (Loan._id loan1)) db1) 0
                then Loan.set_status Loan.completed loan1 else loan1).
  assert (U : updateLoanTotals emi' db1
              = with_loans (map (replace_loan loan2) (loans db1)) db1).
  { unfold updateLoanTotals. rewrite FL. fold loan1. fold loan2.
    apply (Loan_save_same_terms loan2 loan db1).
    - unfold loan2. destruct (Nat.eqb _ 0); cbn; rewrite Hid; exact FL.
    - unfold loan2. destruct (Nat.eqb _ 0); reflexivity.
    - unfold loan2. destruct (Nat.eqb _ 0); reflexivity. }
  rewrite U.
  exists ref, loan, loan2.
  split; [intros x [<- | []]; exact Hin|].
  split; [repeat constructor; intros []|].
  split; [intros b [<- | []]; symmetry; exact Hid|].
  split.
  { cbn. apply map_ext_in. intros x Hx. unfold replace_emi, settleIn.
    cbn [existsb]. rewrite orb_false_r, sameId_eqb.
    unfold emi'. cbn [EMI.settle EMI._id].
    destruct (Nat.eqb (EMI._id x) (EMI._id emi)) eqn:E; [|reflexivity].
    apply Nat.eqb_eq in E. rewrite (in_same_id (emis db) x emi NDe Hx Hin E).
    reflexivity. }
  split; [reflexivity|]. split; [exact Hl|]. split; [reflexivity|].
  unfold loan_touched, loan2.
  destruct (Nat.eqb _ 0); cbn; repeat split; auto.
  all: try (unfold baseOf, sumZ; cbn; rewrite Z.add_0_r; reflexivity).
  - right. left. split; [discriminate | reflexivity].
Qed.

Lemma NoDup_map_filter (q : EMI.t -> bool) (l : list EMI.t) :
  NoDup (map EMI._id l) -> NoDup (map EMI._id (filter q l)).
Proof.
  induction l as [|x l IH]; intros ND; [constructor|].
  simpl in ND. inversion ND as [|? ? Hn ND']; subst. cbn [filter].
  destruct (q x); [|apply IH, ND'].
  cbn [map]. constructor; [|apply IH, ND'].
  intros Hin. apply Hn. apply in_map_iff in Hin.
  destruct Hin as [y [Ey Hy]]. apply filter_In in Hy.
  rewrite <- Ey. apply in_map. tauto.
Qed.

Lemma NoDup_map_firstn (k : nat) (l : list EMI.t) :
  NoDup (map EMI._id l) -> NoDup (map EMI._id (firstn k l)).
Proof.
  intros ND. rewrite <- (firstn_skipn k l), map_app in ND.
  apply NoDup_app_remove_r in ND. exact ND.
Qed.

Lemma oldestUnpaid_NoDup (loanId : nat) (db : DB) :
  NoDup (map EMI._id (emis db)) ->
  NoDup (map EMI._id (oldestUnpaid loanId db)).
Proof.
  intros ND. unfold oldestUnpaid. apply NoDup_map_firstn.
  apply (Permutation_NoDup
           (Permutation_sym (Permutation_map EMI._id (sortByDayNumber_perm _)))).
  apply NoDup_map_filter, ND.
Qed.

Lemma oldestUnpaid_ext (loanId : nat) (db db0 : DB) :
  emis db0 = emis db -> oldestUnpaid loanId db0 = oldestUnpaid loanId db.
Proof. unfold oldestUnpaid, EMI_find. intros ->. reflexivity. Qed.

Lemma unpaidOf_spec (loanId : nat) (e : EMI.t) :
  unpaidOf loanId e = true <-> EMI.loanId e = loanId /\ isPaid e = false.
Proof.
  unfold unpaidOf, ofLoan, notPaid, isPaid.
  rewrite andb_true_iff, Nat.eqb_eq, negb_true_iff. reflexivity.
Qed.

Lemma replace_loan_twice (a b x : Loan.t) :
  Loan._id a = Loan._id b ->
  replace_loan a (replace_loan b x) = replace_loan a x.
Proof.
  intros E. unfold replace_loan.
  destruct (Nat.eqb (Loan._id x) (Loan._id b)) eqn:Eb.
  - rewrite <- E, Nat.eqb_refl. rewrite E, Eb. reflexivity.
  - rewrite E, Eb. reflexivity.
Qed.

Lemma with_loans_same (db : DB) : with_loans (loans db) db = db.
Proof. destruct db; reflexivity. Qed.

Lemma settleIn_nil (ref : string) (now : Z) (l : list EMI.t) :
  l = map (settleIn ref now []) l.
Proof. rewrite <- (map_id l) at 1. apply map_ext. reflexivity. Qed.

(** A change of the loan document alone, as a settlement of no
    installment. *)
Lemma loan_only_settles (now : Z) (db : DB) (loan loanX : Loan.t) :
  In loan (loans db) -> loan_touched [] loan loanX ->
  settles now [] db (with_loans (map (replace_loan loanX) (loans db)) db).
Proof.
  intros Hl T. exists EmptyString, loan, loanX.
  split; [intros x []|]. split; [constructor|]. split; [intros b []|].
  split; [apply settleIn_nil|]. split; [reflexivity|].
  split; [exact Hl|]. split; [reflexivity | exact T].
Qed.

Lemma charged_settles (t now : Z) (db : DB) (payload : WebhookPayload) :
  ledger_inv t db ->
  handleSubscriptionCharged payload now db = db
  \/ exists batch,
       settles now batch db (handleSubscriptionCharged payload now db)
       /\ forall b, In b batch -> isPaid b = false.
Proof.
  intros I. unfold handleSubscriptionCharged.
  destruct (subscriptionEntity payload) as [[loanId|]|];
    destruct (paymentEntity payload) as [paymentId|]; auto.
  set (batch := oldestUnpaid loanId db).
  destruct (Nat.eqb (List.length batch) 0) eqn:E0; auto.
  destruct (Loan_findById loanId db) as [loan|] eqn:F; auto.
  right. destruct (Loan_findById_id _ _ _ F) as [Hid Hl].
  pose proof (inv_emi_ids _ _ I) as NDe.
  rewrite batch_fold.
  destruct (creditAll_frame paymentId now batch loan)
    as (F1 & F2 & F3 & F4 & F5 & F6 & F7 & F8).
  set (db1 := with_emis _ db).
  set (loan2 := if Nat.eqb (EMI_countDocuments (unpaidOf loanId) db1) 0
                then Loan.set_status Loan.completed (creditAll paymentId now batch loan)
                else creditAll paymentId now batch loan).
  assert (Ne : batch <> [])
    by (intros N; rewrite N in E0; discriminate).
  assert (T : loan_touched batch loan loan2).
  { unfold loan_touched, loan2.
    destruct (Nat.eqb (EMI_countDocuments (unpaidOf loanId) db1) 0);
      cbn [Loan.set_status Loan._id Loan.amount Loan.totalDays Loan.interestRate
           Loan.penaltyAmount Loan.remainingBalance Loan.status];
      repeat (split; [assumption|]); auto. }
  pose proof T as (T1 & T2 & T3 & _).
  rewrite (Loan_save_same_terms loan2 loan db1)
    by (try rewrite T1, Hid; assumption).
  exists batch. split;
    [|intros b Hb; destruct (oldestUnpaid_incl loanId db b Hb) as [_ U];
      apply unpaidOf_spec in U; tauto].
  exists paymentId, loan, loan2.
  split; [intros e He; apply (oldestUnpaid_incl loanId db e He)|].
  split; [apply oldestUnpaid_NoDup, NDe|].
  split.
  { intros b Hb. destruct (oldestUnpaid_incl loanId db b Hb) as [_ U].
    apply unpaidOf_spec in U. destruct U as [U _]. congruence. }
  split.
  { cbn. apply batch_emis; [exact NDe|].
    intros e He. apply (oldestUnpaid_incl loanId db e He). }
  split; [reflexivity|]. split; [exact Hl|]. split; [reflexivity | exact T].
Qed.

Lemma verifyAutopay_settles (t now : Z) (db : DB) (id : nat) (loan : Loan.t)
  (ref : string) :
  ledger_inv t db -> Loan_findById id db = Some loan ->
  let loan0 := Loan.set_autopay true Loan.active loan in
  let db0 := Loan_save loan0 db in
  let firstBatch := oldestUnpaid (Loan._id loan0) db0 in
  settles now firstBatch db
    (let (db1, loan1) := fold_left (batchStep ref now) firstBatch (db0, loan0)
     in Loan_save loan1 db1)
  /\ forall b, In b firstBatch -> isPaid b = false.
Proof.
  intros I F loan0 db0 firstBatch.
  destruct (Loan_findById_id _ _ _ F) as [Hid Hl].
  pose proof (inv_emi_ids _ _ I) as NDe.
  assert (E0 : db0 = with_loans (map (replace_loan loan0) (loans db)) db).
  { unfold db0. apply (Loan_save_same_terms loan0 loan db); [|reflexivity..].
    unfold loan0. cbn. rewrite Hid. exact F. }
  assert (B : firstBatch = oldestUnpaid id db).
  { unfold firstBatch. rewrite E0. unfold loan0. cbn [Loan.set_autopay Loan._id].
    rewrite Hid. apply oldestUnpaid_ext. reflexivity. }
  split;
    [|intros b Hb; rewrite B in Hb;
      destruct (oldestUnpaid_incl id db b Hb) as [_ U];
      apply unpaidOf_spec in U; tauto].
  rewrite batch_fold.
  destruct (creditAll_frame ref now firstBatch loan0)
    as (F1 & F2 & F3 & F4 & F5 & F6 & F7 & F8).
  set (loan1 := creditAll ref now firstBatch loan0) in *.
  set (db1 := with_emis _ db0).
  assert (F0 : Loan_findById (Loan._id loan1) db1 = Some loan0).
  { unfold Loan_findById, db1. cbn [with_emis loans]. rewrite E0, F1.
    cbn [with_loans loans]. apply find_replace_loan. exists loan.
    unfold loan0. cbn. rewrite Hid. exact F. }
  rewrite (Loan_save_same_terms loan1 loan0 db1 F0 F2 F3).
  exists ref, loan, loan1.
  split; [rewrite B; intros e He; apply (oldestUnpaid_incl id db e He)|].
  split; [rewrite B; apply oldestUnpaid_NoDup, NDe|].
  split.
  { intros b Hb. rewrite B in Hb.
    destruct (oldestUnpaid_incl id db b Hb) as [_ U].
    apply unpaidOf_spec in U. destruct U as [U _]. congruence. }
  split.
  { unfold db1. cbn [with_loans with_emis emis]. rewrite E0. cbn [with_loans emis].
    apply batch_emis; [exact NDe|]. rewrite B.
    intros e He. apply (oldestUnpaid_incl id db e He). }
  split; [unfold db1; rewrite E0; reflexivity|]. split; [exact Hl|].
  split.
  { unfold db1. cbn [with_loans with_emis loans]. rewrite E0. cbn [with_loans loans].
    rewrite map_map. apply map_ext. intros x.
    apply replace_loan_twice. exact F1. }
  unfold loan_touched. repeat (split; [assumption|]). left. exact F4.
Qed.

(** ** The overdue sweep keeps the ledger well formed *)

Lemma inc_penalty_0 (l : Loan.t) : Loan.inc_penalty 0 l = l.
Proof. destruct l. unfold Loan.inc_penalty. cbn. rewrite Z.add_0_r. reflexivity. Qed.

Lemma inc_penalty_twice (a b : Z) (l : Loan.t) :
  Loan.inc_penalty a (Loan.inc_penalty b l) = Loan.inc_penalty (b + a) l.
Proof. destruct l. unfold Loan.inc_penalty. cbn. rewrite Z.add_assoc. reflexivity. Qed.

Lemma sweepIncrease_cons (today : Z) (e : EMI.t) (todo : list EMI.t) (id : nat) :
  sweepIncrease today (e :: todo) id
  = sweepDelta today id e + sweepIncrease today todo id.
Proof. reflexivity. Qed.

Lemma inc_penalty_id (d : Z) (l : Loan.t) :
  Loan._id (Loan.inc_penalty d l) = Loan._id l.
Proof. reflexivity. Qed.

Lemma sweep_fold_loans (today : Z) (todo : list EMI.t) (db : DB) (c : Z) :
  loans (fst (fold_left (overdueStep today) todo (db, c)))
  = map (fun l => Loan.inc_penalty (sweepIncrease today todo (Loan._id l)) l)
        (loans db).
Proof.
  revert db c. induction todo as [|e todo IH]; intros db c.
  - cbn. rewrite <- (map_id (loans db)) at 1. apply map_ext.
    intros l. symmetry. apply inc_penalty_0.
  - cbn [fold_left]. rewrite overdueStep_eq.
    destruct (applies today e) eqn:A; rewrite IH.
    + cbn [Loan_incPenalty EMI_save with_loans with_emis loans].
      rewrite map_map. apply map_ext. intros l. cbv beta.
      rewrite sweepIncrease_cons. unfold sweepDelta. rewrite A. cbn [andb].
      rewrite (Nat.eqb_sym (EMI.loanId e)).
      destruct (Nat.eqb (Loan._id l) (EMI.loanId e)) eqn:E.
      * rewrite inc_penalty_id, inc_penalty_twice. reflexivity.
      * rewrite Z.add_0_l. reflexivity.
    + apply map_ext. intros l. rewrite sweepIncrease_cons.
      unfold sweepDelta. rewrite A. reflexivity.
Qed.

Lemma sweep_total_delta (today : Z) (id : nat) (l : list EMI.t) :
  (forall x, In x l ->
     EMI.totalAmount x
     = EMI.principalAmount x + EMI.interestAmount x + EMI.penaltyAmount x) ->
  sumZ (map EMI.totalAmount (filter (ofLoan id) (map (sweepOne today) l)))
  = sumZ (map EMI.totalAmount (filter (ofLoan id) l))
    + sweepIncrease today (filter (lateQuery today) l) id.
Proof.
  intros H. unfold sweepIncrease.
  rewrite filter_map_comm
    by (intros x _; unfold ofLoan;
        destruct (sweepOne_frame today x) as (_ & -> & _); reflexivity).
  rewrite map_map, !sum_filter, <- sumZ_plus.
  apply sumZ_ext_in. intros x Hx. specialize (H x Hx).
  unfold sweepOne, sweepDelta, ofLoan.
  destruct (Nat.eqb (EMI.loanId x) id);
    destruct (lateQuery today x); destruct (applies today x); cbn; lia.
Qed.

Lemma sweep_inv (t now : Z) (db : DB) :
  ledger_inv t db -> t <= now ->
  ledger_inv now (fst (processOverdueEMIs now db)).
Proof.
  intros I Hle.
  pose proof (inv_emi_ids _ _ I) as NDe. pose proof (inv_loan_ids _ _ I) as NDl.
  set (today := JS.setHours0 now).
  set (db' := fst (processOverdueEMIs now db)).
  set (late := EMI_find (lateQuery today) db).
  assert (Ee : emis db' = map (sweepOne today) (emis db))
    by (apply sweep_emis; exact NDe).
  assert (El : loans db'
               = map (fun l => Loan.inc_penalty (sweepIncrease today late (Loan._id l)) l)
                     (loans db))
    by (apply sweep_fold_loans).
  assert (En : nextId db' = nextId db) by (apply sweep_fold_nextId).
  assert (Fid : forall x, EMI._id (sweepOne today x) = EMI._id x)
    by (intros; apply sweepOne_frame).
  constructor.
  - rewrite Ee, map_ids_emis; auto.
  - rewrite El, map_ids_loans; auto.
  - intros e He. rewrite Ee in He. apply in_map_iff in He.
    destruct He as [x [<- Hx]]. rewrite Fid, En. apply (inv_emi_fresh _ _ I x Hx).
  - intros l Hl. rewrite El in Hl. apply in_map_iff in Hl.
    destruct Hl as [x [<- Hx]]. rewrite En. apply (inv_loan_fresh _ _ I x Hx).
  - intros e He. rewrite Ee in He. apply in_map_iff in He.
    destruct He as [x [<- Hx]]. apply emi_ok_sweepOne.
    apply (emi_ok_mono t); [exact Hle | apply (inv_emi _ _ I x Hx)].
  - intros e He. rewrite Ee in He. apply in_map_iff in He.
    destruct He as [x [<- Hx]].
    destruct (inv_owner _ _ I x Hx) as [l [Hl [Hid [A [P Q]]]]].
    destruct (sweepOne_frame today x) as (_ & F2 & F3 & F4 & _).
    exists (Loan.inc_penalty (sweepIncrease today late (Loan._id l)) l).
    split; [rewrite El; apply in_map_iff; exists l; auto|].
    split; [rewrite F2; exact Hid|].
    unfold owned. rewrite F3, F4. auto.
  - intros l' Hl'. rewrite El in Hl'. apply in_map_iff in Hl'.
    destruct Hl' as [l [<- Hl]].
    apply (loan_ok_moved db db' l); try reflexivity.
    + apply (inv_loan _ _ I l Hl).
    + intros A. change (isActive l = false) in A. cbn [Loan.inc_penalty Loan.penaltyAmount].
      rewrite (loan_idle _ _ (inv_loan _ _ I l Hl) A).
      unfold sweepIncrease. rewrite sumZ_zero; [reflexivity|].
      intros x Hx. unfold sweepDelta.
      destruct (Nat.eqb (EMI.loanId x) (Loan._id l)) eqn:E;
        [|rewrite andb_false_r; reflexivity].
      exfalso. unfold late, EMI_find in Hx. apply filter_In in Hx.
      pose proof (inactive_no_emis t db l I Hl A) as N.
      assert (In x (emisOf (Loan._id l) db))
        by (apply filter_In; split; [tauto | exact E]).
      rewrite N in H. contradiction.
    + intros A. change (isActive l = true) in A. split; [exact A|].
      split.
      * rewrite (emisOf_map (sweepOne today) _ db db');
          [apply length_map | intros; apply sweepOne_frame | exact Ee].
      * cbn [Loan.inc_penalty Loan.penaltyAmount].
        unfold sumTotalOf, emisOf, EMI_find. rewrite Ee.
        rewrite (sweep_total_delta today (Loan._id l) (emis db)).
        -- fold late. unfold late, EMI_find. lia.
        -- intros x Hx. apply (emi_total _ _ (inv_emi _ _ I x Hx)).
Qed.

(** ** Applications and approvals keep the ledger well formed *)

Lemma loan_ok_ext (db db' : DB) (l : Loan.t) :
  emisOf (Loan._id l) db' = emisOf (Loan._id l) db ->
  loan_ok db l -> loan_ok db' l.
Proof.
  intros E [R A D Idle C S]. constructor; auto.
  - rewrite E. exact C.
  - unfold sumTotalOf in *. rewrite E. exact S.
Qed.

Lemma fresh_not_found (clock : Z) (db : DB) (id : nat) :
  ledger_inv clock db -> (nextId db <= id)%nat -> Loan_findById id db = None.
Proof.
  intros I H. destruct (Loan_findById id db) as [l|] eqn:F; [|reflexivity].
  destruct (Loan_findById_id _ _ _ F) as [Hid Hl].
  pose proof (inv_loan_fresh _ _ I l Hl). lia.
Qed.

Lemma apply_cases (clock : Z) (user : nat) (amount : JS.Int) (db : DB) :
  ledger_inv clock db ->
  fst (apply user amount db) = db
  \/ exists a, amountInRange a = true
       /\ fst (apply user amount db)
          = mkDB (emis db)
                 (loans db ++ [Loan.recompute (newLoan (nextId db) user a 100)])
                 (S (nextId db)).
Proof.
  intros I. unfold apply. destruct amount as [|a]; [left; reflexivity|].
  destruct (amountInRange a) eqn:R; [|left; reflexivity]. cbn [negb].
  destruct (existsb _ (loans db)); [left; reflexivity|].
  right. exists a. split; [exact R|].
  unfold Loan_save. cbn [newLoan Loan._id].
  rewrite (fresh_not_found clock db (nextId db) I (Nat.le_refl _)). reflexivity.
Qed.

Lemma apply_inv (t now : Z) (user : nat) (amount : JS.Int) (db : DB) :
  ledger_inv t db -> t <= now -> ledger_inv now (fst (apply user amount db)).
Proof.
  intros I Hle.
  assert (Keep : ledger_inv now db).
  { destruct I as [I1 I2 I3 I4 I5 I6 I7]. constructor; auto.
    intros e He. apply (emi_ok_mono t); auto. }
  destruct (apply_cases t user amount db I) as [-> | [a [R ->]]]; [exact Keep|].
  destruct Keep as [I1 I2 I3 I4 I5 I6 I7].
  set (new := Loan.recompute (newLoan (nextId db) user a 100)).
  constructor; cbn [emis loans nextId].
  - exact I1.
  - rewrite map_app. apply NoDup_app; [exact I2 | repeat constructor; intros [] |].
    intros x Hx [<- | []]. apply in_map_iff in Hx. destruct Hx as [l [E Hl]].
    pose proof (I4 l Hl). cbn in E. lia.
  - intros e He. pose proof (I3 e He). lia.
  - intros l Hl. apply in_app_or in Hl. destruct Hl as [Hl | [<- | []]].
    + pose proof (I4 l Hl). lia.
    + cbn. lia.
  - exact I5.
  - intros e He. destruct (I6 e He) as [l [Hl P]].
    exists l. split; [apply in_or_app; left; exact Hl | exact P].
  - intros l Hl. apply in_app_or in Hl. destruct Hl as [Hl | [<- | []]].
    + apply (loan_ok_ext db); [reflexivity | apply I7, Hl].
    + apply amountInRange_spec in R.
      constructor; cbn; try lia; try discriminate; try reflexivity.
Qed.

Lemma approve_cases (id : nat) (amount totalDays : option JS.Int) (now : Z)
  (db : DB) :
  fst (approve id amount totalDays now db) = db
  \/ snd (approve id amount totalDays now db) = 200%nat.
Proof.
  unfold approve.
  destruct (Loan_findById id db) as [loan|]; [|left; reflexivity].
  destruct (isPending loan); [|left; reflexivity]. cbn [negb].
  destruct amount as [[|a]|]; [left; reflexivity | |];
    destruct totalDays as [[|d]|];
    repeat match goal with
           | |- context [if negb ?c then _ else _] => destruct c; cbn [negb]
           end;
    auto.
Qed.

Lemma approve_effect (id : nat) (amount totalDays : option JS.Int) (now : Z)
  (db db' : DB) :
  approve id amount totalDays now db = (db', 200%nat) ->
  exists loan loan1 loan',
    Loan_findById id db = Some loan /\ isPending loan = true
    /\ Loan._id loan1 = id /\ Loan.userId loan1 = Loan.userId loan
    /\ (Loan.amount loan1 = Loan.amount loan
        \/ amountInRange (Loan.amount loan1) = true)
    /\ (Loan.totalDays loan1 = Loan.totalDays loan
        \/ daysInRange (Loan.totalDays loan1) = true)
    /\ emis db' = emis db ++ buildSchedule loan1 (scheduleStart now) (nextId db)
    /\ nextId db'
       = (nextId db
          + List.length (buildSchedule loan1 (scheduleStart now) (nextId db)))%nat
    /\ loans db' = map (replace_loan loan') (loans db)
    /\ Loan._id loan' = id /\ Loan.amount loan' = Loan.amount loan1
    /\ Loan.totalDays loan' = Loan.totalDays loan1
    /\ Loan.status loan' = Loan.approved /\ Loan.interestRate loan' = 20
    /\ Loan.penaltyAmount loan' = Loan.penaltyAmount loan
    /\ ((Loan.amount loan1 = Loan.amount loan
         /\ Loan.totalDays loan1 = Loan.totalDays loan
         /\ Loan.remainingBalance loan' = Loan.remainingBalance loan)
        \/ Loan.remainingBalance loan'
           = (inject_Z (Loan.amount loan') + Loan.totalInterest loan')%Q).
Proof.
  intros H. apply approve_ok in H.
  destruct H as (loan & amt & days & F & P & Ha & Hd & ->).
  destruct (Loan_findById_id _ _ _ F) as [Hid _].
  set (loan1 := Loan.set_status Loan.approved (Loan.set_terms amt days 20 loan)).
  assert (F1 : Loan_findById (Loan._id loan1) db = Some loan)
    by (unfold loan1; cbn [Loan.set_status Loan.set_terms Loan._id];
        rewrite Hid; exact F).
  destruct (generateEMISchedule_spec now loan1 loan db F1) as (_ & He & Hn & Hl).
  set (dated := Loan.set_dates now (scheduleStart now)
                  (JS.addDays (scheduleStart now) (Loan.totalDays loan1 - 1))
                  loan1) in *.
  exists loan, loan1.
  exists (if isModified_terms loan dated then Loan.recompute dated else dated).
  split; [exact F|]. split; [exact P|]. split; [exact Hid|].
  split; [reflexivity|].
  split; [destruct Ha as [[_ ->] | [_ R]]; [left; reflexivity | right; exact R]|].
  split; [destruct Hd as [[_ ->] | [_ R]]; [left; reflexivity | right; exact R]|].
  split; [exact He|]. split; [exact Hn|]. split; [exact Hl|].
  destruct (isModified_terms loan dated) eqn:M.
  - cbn. repeat (split; [first [exact Hid | reflexivity]|]). right. reflexivity.
  - cbn. repeat (split; [first [exact Hid | reflexivity]|]). left.
    unfold isModified_terms in M. apply orb_false_iff in M.
    destruct M as [M1 M2]. apply negb_false_iff in M1, M2.
    apply Z.eqb_eq in M1, M2. cbn in M1, M2. auto.
Qed.

Lemma emisOf_app (id : nat) (db db' : DB) (es : list EMI.t) :
  emis db' = emis db ++ es ->
  emisOf id db' = emisOf id db ++ filter (ofLoan id) es.
Proof.
  intros E. unfold emisOf, EMI_find. rewrite E. apply filter_app.
Qed.

Lemma filter_all (q : EMI.t -> bool) (l : list EMI.t) :
  (forall x, In x l -> q x = true) -> filter q l = l.
Proof.
  induction l as [|x l IH]; intros H; [reflexivity|].
  cbn [filter]. rewrite (H x (or_introl eq_refl)), IH; [reflexivity|].
  intros y Hy. apply H. right. exact Hy.
Qed.

Lemma filter_none (q : EMI.t -> bool) (l : list EMI.t) :
  (forall x, In x l -> q x = false) -> filter q l = [].
Proof.
  induction l as [|x l IH]; intros H; [reflexivity|].
  cbn [filter]. rewrite (H x (or_introl eq_refl)), IH; [reflexivity|].
  intros y Hy. apply H. right. exact Hy.
Qed.

Lemma approve_inv (t now : Z) (id : nat) (amount totalDays : option JS.Int)
  (db : DB) :
  ledger_inv t db -> t <= now ->
  ledger_inv now (fst (approve id amount totalDays now db)).
Proof.
  intros I Hle.
  assert (Keep : ledger_inv now db).
  { destruct I as [I1 I2 I3 I4 I5 I6 I7]. constructor; auto.
    intros e He. apply (emi_ok_mono t); auto. }
  destruct (approve_cases id amount totalDays now db) as [-> | C]; [exact Keep|].
  destruct (approve id amount totalDays now db) as [db' code] eqn:A.
  cbn [fst snd] in *. subst code. apply approve_effect in A.
  destruct A as (loan & loan1 & loan' & F & P & L1 & _ & Ra & Rd & Ee & En & El
                 & X1 & X2 & X3 & X4 & X5 & X6 & _).
  destruct (Loan_findById_id _ _ _ F) as [Hid Hl].
  set (es := buildSchedule loan1 (scheduleStart now) (nextId db)) in *.
  assert (Inact : isActive loan = false)
    by (unfold isActive; unfold isPending in P; destruct (Loan.status loan);
        first [reflexivity | discriminate P]).
  pose proof (inv_loan _ _ I loan Hl) as [OR OA OD OI _ _].
  assert (RA : 1000 <= Loan.amount loan1 <= 100000)
    by (destruct Ra as [-> | R]; [exact OA | apply amountInRange_spec, R]).
  assert (RD : 1 <= Loan.totalDays loan1 <= 365)
    by (destruct Rd as [-> | R]; [exact OD | apply daysInRange_spec, R]).
  assert (Hes : forall e, In e es -> EMI.loanId e = id)
    by (intros e He; destruct (buildSchedule_each _ _ _ e He) as (-> & _);
        exact L1).
  assert (Rid : forall x, Loan._id (replace_loan loan' x) = Loan._id x)
    by (intros; apply replace_loan_id).
  assert (Repl : forall l, In l (loans db) ->
                   (l = loan /\ replace_loan loan' l = loan')
                   \/ (Loan._id l <> id /\ replace_loan loan' l = l)).
  { intros l Hl0. unfold replace_loan.
    destruct (Nat.eqb (Loan._id l) (Loan._id loan')) eqn:E.
    - left. apply Nat.eqb_eq in E. split; [|reflexivity].
      apply (loan_same_id (loans db)); auto; [apply (inv_loan_ids _ _ I) | congruence].
    - right. apply Nat.eqb_neq in E. split; [congruence | reflexivity]. }
  assert (Ids : map EMI._id es = seq (nextId db) (List.length es))
    by (unfold es; rewrite buildSchedule_ids, buildSchedule_length; reflexivity).
  destruct Keep as [I1 I2 I3 I4 I5 I6 I7].
  constructor.
  - rewrite Ee, map_app. apply NoDup_app; [exact I1 | rewrite Ids; apply seq_NoDup|].
    intros x Hx Hy. rewrite Ids in Hy. apply in_seq in Hy.
    apply in_map_iff in Hx. destruct Hx as [e [<- He]].
    pose proof (I3 e He). lia.
  - rewrite El, map_ids_loans; auto.
  - intros e He. rewrite Ee in He. rewrite En. apply in_app_or in He.
    destruct He as [He | He].
    + pose proof (I3 e He). lia.
    + assert (Hi : In (EMI._id e) (map EMI._id es)) by (apply in_map; exact He).
      rewrite Ids in Hi. apply in_seq in Hi. lia.
  - intros l Hl0. rewrite El in Hl0. apply in_map_iff in Hl0.
    destruct Hl0 as [x [<- Hx]]. rewrite Rid, En. pose proof (I4 x Hx). lia.
  - intros e He. rewrite Ee in He. apply in_app_or in He.
    destruct He as [He | He]; [apply I5, He|].
    destruct (buildSchedule_each _ _ _ e He)
      as (_ & _ & Hp & Hi & Hpen & Ht & _ & _).
    constructor.
    + rewrite Ht, Hpen. lia.
    + rewrite Hi. apply dailyInterestOf_pos; lia.
    + intros _. exact Hpen.
    + exists 0. rewrite Hpen. split; lia.
  - intros e He. rewrite Ee in He. apply in_app_or in He.
    destruct He as [He | He].
    + destruct (I6 e He) as [l [Hl0 [Hi [Act Own]]]].
      exists l. split; [|split; [exact Hi | split; assumption]].
      rewrite El. apply in_map_iff. exists l. split; [|exact Hl0].
      destruct (Repl l Hl0) as [[-> _] | [_ R]]; [congruence | exact R].
    + exists loan'. split; [|split].
      * rewrite El. apply in_map_iff. exists loan. split; [|exact Hl].
        destruct (Repl loan Hl) as [[_ R] | [N _]]; [exact R | congruence].
      * rewrite X1. symmetry. apply Hes, He.
      * destruct (buildSchedule_each _ _ _ e He) as (_ & _ & Hp & Hi & _).
        unfold owned, isActive. rewrite X4, X2, X3. auto.
  - intros l' Hl'. rewrite El in Hl'. apply in_map_iff in Hl'.
    destruct Hl' as [l [<- Hl0]].
    destruct (Repl l Hl0) as [[-> ->] | [N ->]].
    + pose proof (emisOf_app id db db' es Ee) as EO.
      rewrite <- Hid in EO at 2.
      rewrite (inactive_no_emis t db loan I Hl Inact) in EO.
      rewrite (filter_all (ofLoan id) es) in EO
        by (intros x Hx; unfold ofLoan; rewrite (Hes x Hx); apply Nat.eqb_refl).
      cbn [app] in EO.
      constructor.
      * exact X5.
      * rewrite X2. exact RA.
      * rewrite X3. exact RD.
      * unfold isActive. rewrite X4. discriminate.
      * intros _. rewrite X1, EO, X3. apply buildSchedule_length.
      * intros _. unfold sumTotalOf. rewrite X1, EO, X6, (OI Inact).
        unfold scheduledTotal. rewrite X2, X3.
        destruct (schedule_sums loan1 (scheduleStart now) (nextId db))
          as (_ & _ & S & _); [lia|]. fold es in S. rewrite S. lia.
    + apply (loan_ok_ext db); [|apply I7, Hl0].
      rewrite (emisOf_app _ db db' es Ee).
      rewrite (filter_none (ofLoan (Loan._id l)) es); [apply app_nil_r|].
      intros x Hx. unfold ofLoan. rewrite (Hes x Hx).
      apply Nat.eqb_neq. congruence.
Qed.

(** ** Deleting a loan keeps the ledger well formed *)

Lemma keep_inv (t now : Z) (db : DB) :
  ledger_inv t db -> t <= now -> ledger_inv now db.
Proof.
  intros [I1 I2 I3 I4 I5 I6 I7] Hle. constructor; auto.
  intros e He. apply (emi_ok_mono t); auto.
Qed.

Lemma NoDup_map_filter_loans (q : Loan.t -> bool) (l : list Loan.t) :
  NoDup (map Loan._id l) -> NoDup (map Loan._id (filter q l)).
Proof.
  induction l as [|x l IH]; intros ND; [constructor|].
  simpl in ND. inversion ND as [|? ? Hn ND']; subst. cbn [filter].
  destruct (q x); [|apply IH, ND'].
  cbn [map]. constructor; [|apply IH, ND'].
  intros Hin. apply Hn. apply in_map_iff in Hin.
  destruct Hin as [y [Ey Hy]]. apply filter_In in Hy.
  rewrite <- Ey. apply in_map. tauto.
Qed.

Lemma filter_filter_emis (p q : EMI.t -> bool) (l : list EMI.t) :
  (forall x, In x l -> p x = true -> q x = true) ->
  filter p (filter q l) = filter p l.
Proof.
  induction l as [|x l IH]; intros H; [reflexivity|].
  cbn [filter]. assert (H' : forall y, In y l -> p y = true -> q y = true)
    by (intros y Hy; apply H; right; exact Hy).
  destruct (q x) eqn:Q.
  - cbn [filter]. rewrite (IH H'). reflexivity.
  - destruct (p x) eqn:P; [|apply IH, H'].
    rewrite (H x (or_introl eq_refl) P) in Q. discriminate.
Qed.

Lemma deleteLoan_cases (id : nat) (db : DB) :
  fst (deleteLoan id db) = db
  \/ exists loan, In loan (loans db)
       /\ emis (fst (deleteLoan id db))
          = filter (fun e => negb (ofLoan (Loan._id loan) e)) (emis db)
       /\ loans (fst (deleteLoan id db))
          = filter (fun l => negb (Nat.eqb (Loan._id l) (Loan._id loan))) (loans db)
       /\ nextId (fst (deleteLoan id db)) = nextId db.
Proof.
  unfold deleteLoan. destruct (Loan_findById id db) as [loan|] eqn:F;
    [|left; reflexivity].
  right. exists loan. destruct (Loan_findById_id _ _ _ F) as [_ Hl].
  repeat split; assumption.
Qed.

Lemma deleted_emisOf (k : nat) (loan : Loan.t) (db db' : DB) :
  k <> Loan._id loan ->
  emis db' = filter (fun e => negb (ofLoan (Loan._id loan) e)) (emis db) ->
  emisOf k db' = emisOf k db.
Proof.
  intros N E. unfold emisOf, EMI_find. rewrite E.
  apply filter_filter_emis. intros x _ O. unfold ofLoan in *.
  apply Nat.eqb_eq in O. apply negb_true_iff, Nat.eqb_neq. congruence.
Qed.

Lemma deleteLoan_inv (t now : Z) (id : nat) (db : DB) :
  ledger_inv t db -> t <= now -> ledger_inv now (fst (deleteLoan id db)).
Proof.
  intros I Hle.
  destruct (deleteLoan_cases id db) as [-> | (loan & Hl & Ee & El & En)];
    [apply (keep_inv t); assumption|].
  apply (keep_inv t now) in I; [|exact Hle].
  destruct I as [I1 I2 I3 I4 I5 I6 I7].
  constructor.
  - rewrite Ee. apply NoDup_map_filter, I1.
  - rewrite El. apply NoDup_map_filter_loans, I2.
  - intros e He. rewrite Ee in He. apply filter_In in He. rewrite En.
    apply I3. tauto.
  - intros l H. rewrite El in H. apply filter_In in H. rewrite En.
    apply I4. tauto.
  - intros e He. rewrite Ee in He. apply filter_In in He. apply I5. tauto.
  - intros e He. rewrite Ee in He. apply filter_In in He. destruct He as [He O].
    destruct (I6 e He) as [l [H [Hid Own]]].
    exists l. split; [|auto]. rewrite El. apply filter_In. split; [exact H|].
    unfold ofLoan in O. rewrite Hid. exact O.
  - intros l H. rewrite El in H. apply filter_In in H. destruct H as [H N].
    apply negb_true_iff, Nat.eqb_neq in N.
    apply (loan_ok_ext db); [|apply I7, H].
    apply (deleted_emisOf _ loan db); assumption.
Qed.

(** ** Every request keeps the ledger well formed *)

Lemma single_unpaid (emi : EMI.t) :
  isPaid emi = false -> forall b, In b [emi] -> isPaid b = false.
Proof. intros H b [<- | []]. exact H. Qed.

Lemma simulate_cases (t now : Z) (user : nat) (emiId : option nat) (db : DB) :
  ledger_inv t db ->
  settlesOrKeeps now (ReqSimulate user emiId) db (fst (simulate user emiId now db)).
Proof.
  intros I. unfold simulate.
  destruct emiId as [id|]; [|left; reflexivity].
  destruct (EMI_findById id db) as [emi|] eqn:F; [|left; reflexivity].
  destruct (negb (Nat.eqb (EMI.userId emi) user)); [left; reflexivity|].
  destruct (isPaid emi) eqn:P; [left; reflexivity|].
  right. exists [emi]. split; [apply (single_settle t now db id); assumption|].
  intros _. apply single_unpaid, P.
Qed.

Lemma verify_cases (env : Env) (t now : Z) (o p s : option string)
  (emiId : option nat) (db : DB) :
  ledger_inv t db ->
  settlesOrKeeps now (ReqVerify o p s emiId) db (fst (verify env o p s emiId now db)).
Proof.
  intros I. unfold verify.
  destruct (missing o || missing p || missing s
            || match emiId with None => true | Some _ => false end);
    [left; reflexivity|].
  destruct (negb (String.eqb _ _)); [left; reflexivity|].
  destruct emiId as [id|]; [|left; reflexivity].
  destruct (EMI_findById id db) as [emi|] eqn:F; [|left; reflexivity].
  right. exists [emi]. split; [apply (single_settle t now db id); assumption|].
  intros G. apply single_unpaid. apply (G emi F).
Qed.

Lemma markPaid_cases (t now : Z) (admin id : nat) (db : DB) :
  ledger_inv t db ->
  settlesOrKeeps now (ReqMarkPaid admin id) db (fst (markPaid admin id now db)).
Proof.
  intros I. unfold markPaid.
  destruct (EMI_findById id db) as [emi|] eqn:F; [|left; reflexivity].
  destruct (isPaid emi) eqn:P; [left; reflexivity|].
  right. exists [emi]. split; [apply (single_settle t now db id); assumption|].
  intros _. apply single_unpaid, P.
Qed.

Lemma no_unpaid_nil (b : EMI.t) : In b [] -> isPaid b = false.
Proof. intros []. Qed.

Lemma reject_cases (t now : Z) (id : nat) (db : DB) :
  ledger_inv t db ->
  settlesOrKeeps now (ReqReject id) db (fst (reject id db)).
Proof.
  intros I. unfold reject.
  destruct (Loan_findById id db) as [loan|] eqn:F; [|left; reflexivity].
  destruct (isPending loan) eqn:P; [|left; reflexivity].
  right. exists []. split; [|intros _; apply no_unpaid_nil].
  destruct (Loan_findById_id _ _ _ F) as [Hid Hl]. cbn [negb fst].
  rewrite (Loan_save_same_terms (Loan.set_status Loan.rejected loan) loan db);
    [|cbn; rewrite Hid; exact F | reflexivity..].
  apply (loan_only_settles now db loan); [exact Hl|].
  unfold loan_touched. cbn. repeat (split; [reflexivity|]).
  split; [apply Qminus_0|]. right. right.
  unfold isActive, isPending in *. cbn. destruct (Loan.status loan);
    first [discriminate P | auto].
Qed.

Lemma cancelled_cases (t now : Z) (payload : WebhookPayload) (req : Request)
  (db : DB) :
  ledger_inv t db ->
  settlesOrKeeps now req db (handleSubscriptionCancelled payload db).
Proof.
  intros I. unfold handleSubscriptionCancelled.
  destruct (subscriptionEntity payload) as [[loanId|]|]; try (left; reflexivity).
  destruct (Loan_findById loanId db) as [loan|] eqn:F.
  - right. exists []. split; [|intros _; apply no_unpaid_nil].
    destruct (Loan_findById_id _ _ _ F) as [Hid Hl].
    set (loanX := Loan.set_autopay false Loan.cancelled loan).
    assert (E : map (fun x => if Nat.eqb (Loan._id x) loanId
                              then Loan.set_autopay false Loan.cancelled x else x)
                    (loans db)
                = map (replace_loan loanX) (loans db)).
    { apply map_ext_in. intros x Hx. unfold replace_loan, loanX.
      cbn [Loan.set_autopay Loan._id]. rewrite Hid.
      destruct (Nat.eqb (Loan._id x) loanId) eqn:E; [|reflexivity].
      apply Nat.eqb_eq in E.
      rewrite (loan_same_id (loans db) x loan (inv_loan_ids _ _ I) Hx Hl);
        [reflexivity | congruence]. }
    rewrite E. apply (loan_only_settles now db loan); [exact Hl|].
    unfold loan_touched, loanX. cbn. repeat (split; [reflexivity|]).
    split; [apply Qminus_0 | left; reflexivity].
  - left.
    assert (E : map (fun x => if Nat.eqb (Loan._id x) loanId
                              then Loan.set_autopay false Loan.cancelled x else x)
                    (loans db)
                = loans db).
    { rewrite <- (map_id (loans db)) at 2. apply map_ext_in. intros x Hx.
      unfold Loan_findById in F. rewrite (find_none _ _ F x Hx). reflexivity. }
    rewrite E. apply with_loans_same.
Qed.

Lemma webhook_cases (env : Env) (t now : Z) (rawBody : string)
  (s : option string) (db : DB) :
  ledger_inv t db ->
  settlesOrKeeps now (ReqWebhook rawBody s) db (fst (webhook env rawBody s now db)).
Proof.
  intros I. unfold webhook.
  destruct (RAZORPAY_WEBHOOK_SECRET env) as [secret|]; [|left; reflexivity].
  destruct (String.eqb secret EmptyString); [left; reflexivity|].
  destruct (missing s); [left; reflexivity|].
  destruct (negb (String.eqb _ _)); [left; reflexivity|].
  destruct (JSON_parse env rawBody) as [payload|]; [|left; reflexivity].
  cbn [fst]. unfold handleWebhookEvent.
  destruct (event payload); try (left; reflexivity).
  - destruct (charged_settles t now db payload I) as [-> | [batch [S U]]];
      [left; reflexivity | right; exists batch; auto].
  - apply (cancelled_cases t); exact I.
Qed.

Lemma verifyAutopay_cases (env : Env) (t now : Z) (sub p s : option string)
  (loanId : option nat) (db : DB) :
  ledger_inv t db ->
  settlesOrKeeps now (ReqVerifyAutopay sub p s loanId) db
                 (fst (verifyAutopay env sub p s loanId now db)).
Proof.
  intros I. unfold verifyAutopay.
  destruct (missing sub || missing p || missing s
            || match loanId with None => true | Some _ => false end);
    [left; reflexivity|].
  destruct (negb (String.eqb _ _)); [left; reflexivity|].
  destruct loanId as [id|]; [|left; reflexivity].
  destruct (Loan_findById id db) as [loan|] eqn:F; [|left; reflexivity].
  right.
  destruct (verifyAutopay_settles t now db id loan (field p) I F) as [S U].
  cbv zeta in S, U.
  exists (oldestUnpaid (Loan._id (Loan.set_autopay true Loan.active loan))
                       (Loan_save (Loan.set_autopay true Loan.active loan) db)).
  split; [|intros _; exact U].
  destruct (fold_left _ _ _) as [db1 loan1]. exact S.
Qed.

Lemma settlesOrKeeps_inv (t now : Z) (req : Request) (db db' : DB) :
  ledger_inv t db -> t <= now -> settlesOrKeeps now req db db' ->
  ledger_inv now db'.
Proof.
  intros I Hle [-> | [batch [S _]]].
  - apply (keep_inv t); assumption.
  - apply (settles_inv t now batch db); assumption.
Qed.

Lemma handle_inv (env : Env) (t now : Z) (req : Request) (db : DB) :
  ledger_inv t db -> t <= now ->
  ledger_inv now (fst (handle env now req db)).
Proof.
  intros I Hle. destruct req; cbn [handle].
  - apply (apply_inv t); assumption.
  - apply (approve_inv t); assumption.
  - apply (settlesOrKeeps_inv t now (ReqReject loanId) db); auto.
    apply (reject_cases t); assumption.
  - apply (deleteLoan_inv t); assumption.
  - apply (settlesOrKeeps_inv t now (ReqSimulate user emiId) db); auto.
    apply (simulate_cases t); assumption.
  - apply (settlesOrKeeps_inv t now (ReqVerify order_id payment_id signature emiId) db); auto.
    apply (verify_cases env t); assumption.
  - apply (settlesOrKeeps_inv t now (ReqMarkPaid admin emiId) db); auto.
    apply (markPaid_cases t); assumption.
  - apply (settlesOrKeeps_inv t now (ReqWebhook rawBody signature) db); auto.
    apply (webhook_cases env t); assumption.
  - apply (settlesOrKeeps_inv t now
             (ReqVerifyAutopay subscription_id payment_id signature loanId) db); auto.
    apply (verifyAutopay_cases env t); assumption.
  - apply (sweep_inv t); assumption.
Qed.

Lemma empty_inv (t0 : Z) : ledger_inv t0 emptyDB.
Proof.
  constructor; cbn; first [apply NoDup_nil | intros ? []].
Qed.

Lemma reachable_by_inv (G : DB -> Request -> Prop) (env : Env) (clock : Z)
  (db : DB) :
  reachable_by G env clock db -> ledger_inv clock db.
Proof.
  induction 1 as [t0 | t now db req R IH Hle _].
  - apply empty_inv.
  - apply (handle_inv env t); assumption.
Qed.

(** ** The balance equation, when no paid installment is settled again *)

Lemma paidBaseOf_sum (id : nat) (db : DB) :
  paidBaseOf id db
  = sumZ (map (fun x => if ofLoan id x && isPaid x then baseOf x else 0) (emis db)).
Proof. unfold paidBaseOf, paidOf, EMI_find. apply sum_filter. Qed.

Lemma paidBaseOf_ext (id : nat) (db db' : DB) :
  emis db' = emis db -> paidBaseOf id db' = paidBaseOf id db.
Proof. unfold paidBaseOf, paidOf, EMI_find. intros ->. reflexivity. Qed.

Lemma paidBaseOf_none (id : nat) (db : DB) :
  (forall x, In x (emisOf id db) -> isPaid x = false) -> paidBaseOf id db = 0.
Proof.
  intros H. rewrite paidBaseOf_sum. apply sumZ_zero. intros x Hx.
  destruct (ofLoan id x) eqn:O; [|reflexivity].
  rewrite (H x); [reflexivity|]. apply filter_In. auto.
Qed.

Lemma totalInterest_same (l l' : Loan.t) :
  Loan.amount l' = Loan.amount l -> Loan.interestRate l' = Loan.interestRate l ->
  Loan.totalInterest l' = Loan.totalInterest l.
Proof. unfold Loan.totalInterest. intros -> ->. reflexivity. Qed.

Lemma settleIn_paidBase (ref : string) (now : Z) (batch : list EMI.t) (id : nat)
  (db db' : DB) :
  NoDup (map EMI._id (emis db)) -> NoDup (map EMI._id batch) ->
  incl batch (emis db) ->
  (forall b, In b batch -> isPaid b = false) ->
  emis db' = map (settleIn ref now batch) (emis db) ->
  paidBaseOf id db'
  = paidBaseOf id db
    + sumZ (map (fun b => if ofLoan id b then baseOf b else 0) batch).
Proof.
  intros ND NB Hincl U E.
  rewrite !paidBaseOf_sum, E, map_map.
  rewrite <- (sum_over_batch (fun b => if ofLoan id b then baseOf b else 0)
                (emis db) batch ND NB Hincl).
  rewrite <- sumZ_plus. apply sumZ_ext_in. intros x Hx.
  unfold settleIn. destruct (existsb (sameId x) batch) eqn:B.
  - apply (existsb_sameId_In (emis db)) in B; auto.
    rewrite (U x B), andb_false_r. unfold ofLoan, isPaid, baseOf. cbn.
    rewrite andb_true_r. lia.
  - lia.
Qed.

Lemma settles_balance (t now : Z) (batch : list EMI.t) (db db' : DB) :
  ledger_inv t db -> balance_inv db -> settles now batch db db' ->
  (forall b, In b batch -> isPaid b = false) ->
  balance_inv db'.
Proof.
  intros I B (ref & loan & loanX & Hincl & NB & Hb & Ee & En & Hloan & El & T) U.
  destruct T as (T1 & T2 & T3 & T4 & T5 & T6 & T7).
  pose proof (inv_emi_ids _ _ I) as NDe. pose proof (inv_loan_ids _ _ I) as NDl.
  intros l' Hl'. rewrite El in Hl'. apply in_map_iff in Hl'.
  destruct Hl' as [l [<- Hl]].
  pose proof (settleIn_paidBase ref now batch (Loan._id l) db db' NDe NB Hincl U Ee)
    as P.
  unfold replace_loan. destruct (Nat.eqb (Loan._id l) (Loan._id loanX)) eqn:E.
  - apply Nat.eqb_eq in E.
    assert (l = loan) by (apply (loan_same_id (loans db)); auto; congruence).
    subst l. unfold balance_ok.
    rewrite T1, T2, (totalInterest_same loan loanX T2 T4), T6, P.
    rewrite (sumZ_ext_in
               (fun b => if ofLoan (Loan._id loan) b then baseOf b else 0)
               baseOf batch)
      by (intros b Hin; unfold ofLoan; rewrite (Hb b Hin), Nat.eqb_refl; reflexivity).
    pose proof (B loan Hl) as Bl. unfold balance_ok in Bl.
    rewrite Bl, inject_Z_plus. ring.
  - apply Nat.eqb_neq in E. unfold balance_ok. rewrite P.
    rewrite sumZ_zero, Z.add_0_r; [apply (B l Hl)|].
    intros b Hin. unfold ofLoan. rewrite (Hb b Hin).
    assert (N : Nat.eqb (Loan._id loan) (Loan._id l) = false)
      by (apply Nat.eqb_neq; congruence).
    rewrite N. reflexivity.
Qed.

Lemma sweep_balance (t now : Z) (db : DB) :
  ledger_inv t db -> balance_inv db ->
  balance_inv (fst (processOverdueEMIs now db)).
Proof.
  intros I B l' Hl'.
  unfold processOverdueEMIs in Hl'. rewrite sweep_fold_loans in Hl'.
  apply in_map_iff in Hl'. destruct Hl' as [l [<- Hl]].
  unfold balance_ok. cbn [Loan.inc_penalty Loan._id Loan.amount Loan.remainingBalance].
  assert (P : paidBaseOf (Loan._id l) (fst (processOverdueEMIs now db))
              = paidBaseOf (Loan._id l) db).
  { rewrite !paidBaseOf_sum, sweep_emis by (apply (inv_emi_ids _ _ I)).
    rewrite map_map. apply sumZ_ext_in. intros x _.
    destruct (sweepOne_frame (JS.setHours0 now) x) as (_ & F2 & F3 & F4 & F5).
    unfold ofLoan, baseOf. rewrite F2, F3, F4, F5. reflexivity. }
  fold (processOverdueEMIs now db). rewrite P. apply (B l Hl).
Qed.

Lemma apply_balance (t : Z) (user : nat) (amount : JS.Int) (db : DB) :
  ledger_inv t db -> balance_inv db -> balance_inv (fst (apply user amount db)).
Proof.
  intros I B.
  destruct (apply_cases t user amount db I) as [-> | [a [R ->]]]; [exact B|].
  intros l Hl. cbn [loans] in Hl. apply in_app_or in Hl.
  destruct Hl as [Hl | [<- | []]].
  - unfold balance_ok. rewrite (paidBaseOf_ext _ db) by reflexivity. apply (B l Hl).
  - unfold balance_ok. rewrite (paidBaseOf_ext _ db) by reflexivity.
    rewrite paidBaseOf_none.
    + cbn. apply Qminus_0.
    + intros x Hx. cbn [Loan.recompute newLoan Loan._id] in Hx.
      rewrite (fresh_no_emis t db (nextId db) I (Nat.le_refl _)) in Hx.
      contradiction.
Qed.

Lemma approve_balance (t now : Z) (id : nat) (amount totalDays : option JS.Int)
  (db : DB) :
  ledger_inv t db -> balance_inv db ->
  balance_inv (fst (approve id amount totalDays now db)).
Proof.
  intros I B.
  destruct (approve_cases id amount totalDays now db) as [-> | C]; [exact B|].
  destruct (approve id amount totalDays now db) as [db' code] eqn:A.
  cbn [fst snd] in *. subst code. apply approve_effect in A.
  destruct A as (loan & loan1 & loan' & F & P & L1 & _ & Ra & Rd & Ee & En & El
                 & X1 & X2 & X3 & X4 & X5 & X6 & X7).
  destruct (Loan_findById_id _ _ _ F) as [Hid Hl].
  set (es := buildSchedule loan1 (scheduleStart now) (nextId db)) in *.
  assert (Inact : isActive loan = false)
    by (unfold isActive; unfold isPending in P; destruct (Loan.status loan);
        first [reflexivity | discriminate P]).
  assert (Pend : forall x, In x es -> isPaid x = false).
  { intros x Hx. destruct (buildSchedule_each _ _ _ x Hx)
      as (_ & _ & _ & _ & _ & _ & _ & S & _).
    unfold isPaid. rewrite S. reflexivity. }
  assert (PB : forall k, paidBaseOf k db' = paidBaseOf k db).
  { intros k. rewrite !paidBaseOf_sum, Ee, map_app, sumZ_app.
    rewrite (sumZ_zero _ es); [lia|].
    intros x Hx. rewrite (Pend x Hx), andb_false_r. reflexivity. }
  assert (Z0 : paidBaseOf id db = 0).
  { apply paidBaseOf_none. intros x Hx. rewrite <- Hid in Hx.
    rewrite (inactive_no_emis t db loan I Hl Inact) in Hx. contradiction. }
  intros l' Hl'. rewrite El in Hl'. apply in_map_iff in Hl'.
  destruct Hl' as [l [<- Hl0]]. unfold replace_loan.
  destruct (Nat.eqb (Loan._id l) (Loan._id loan')) eqn:E.
  - unfold balance_ok. rewrite PB, X1, Z0.
    destruct X7 as [(A1 & A2 & Rb) | Rb].
    + rewrite Rb. pose proof (B loan Hl) as Bl. unfold balance_ok in Bl.
      rewrite Hid, Z0 in Bl. rewrite Bl.
      rewrite (totalInterest_same loan loan')
        by (rewrite ?X2, ?X5; auto;
            symmetry; apply (loan_rate _ _ (inv_loan _ _ I loan Hl))).
      rewrite X2, A1. reflexivity.
    + rewrite Rb. apply Qminus_0.
  - unfold balance_ok. rewrite PB. apply (B l Hl0).
Qed.

Lemma deleteLoan_balance (t : Z) (id : nat) (db : DB) :
  ledger_inv t db -> balance_inv db -> balance_inv (fst (deleteLoan id db)).
Proof.
  intros I B.
  destruct (deleteLoan_cases id db) as [-> | (loan & Hl & Ee & El & En)];
    [exact B|].
  intros l H. rewrite El in H. apply filter_In in H. destruct H as [H N].
  apply negb_true_iff, Nat.eqb_neq in N.
  unfold balance_ok.
  assert (P : paidBaseOf (Loan._id l) (fst (deleteLoan id db))
              = paidBaseOf (Loan._id l) db).
  { unfold paidBaseOf, paidOf, EMI_find. rewrite Ee. f_equal. f_equal.
    apply filter_filter_emis. intros x _ O.
    apply andb_true_iff in O. destruct O as [O _]. unfold ofLoan in *.
    apply Nat.eqb_eq in O. apply negb_true_iff, Nat.eqb_neq. congruence. }
  rewrite P. apply (B l H).
Qed.

Lemma settlesOrKeeps_balance (t now : Z) (req : Request) (db db' : DB) :
  ledger_inv t db -> balance_inv db -> noRedelivery db req ->
  settlesOrKeeps now req db db' -> balance_inv db'.
Proof.
  intros I B G [-> | [batch [S U]]]; [exact B|].
  apply (settles_balance t now batch db); auto.
Qed.

Lemma handle_balance (env : Env) (t now : Z) (req : Request) (db : DB) :
  ledger_inv t db -> balance_inv db -> noRedelivery db req ->
  balance_inv (fst (handle env now req db)).
Proof.
  intros I B G. destruct req; cbn [handle].
  - apply (apply_balance t); assumption.
  - apply (approve_balance t); assumption.
  - apply (settlesOrKeeps_balance t now (ReqReject loanId) db); auto.
    apply (reject_cases t); assumption.
  - apply (deleteLoan_balance t); assumption.
  - apply (settlesOrKeeps_balance t now (ReqSimulate user emiId) db); auto.
    apply (simulate_cases t); assumption.
  - apply (settlesOrKeeps_balance t now
             (ReqVerify order_id payment_id signature emiId) db); auto.
    apply (verify_cases env t); assumption.
  - apply (settlesOrKeeps_balance t now (ReqMarkPaid admin emiId) db); auto.
    apply (markPaid_cases t); assumption.
  - apply (settlesOrKeeps_balance t now (ReqWebhook rawBody signature) db); auto.
    apply (webhook_cases env t); assumption.
  - apply (settlesOrKeeps_balance t now
             (ReqVerifyAutopay subscription_id payment_id signature loanId) db); auto.
    apply (verifyAutopay_cases env t); assumption.
  - apply (sweep_balance t); assumption.
Qed.

Lemma reachable_balance (env : Env) (clock : Z) (db : DB) :
  reachable_by noRedelivery env clock db -> balance_inv db.
Proof.
  induction 1 as [t0 | t now db req R IH Hle G].
  - intros l [].
  - apply (handle_balance env t); auto.
    apply (reachable_by_inv noRedelivery env t db R).
Qed.

(** ** Conservation, with the shares rounded up *)

Lemma scheduled_active (l : Loan.t) : scheduled l -> isActive l = true.
Proof. unfold scheduled, isActive. intros [-> | ->]; reflexivity. Qed.

Lemma dailyInterestOf_total (l : Loan.t) :
  Loan.interestRate l = 20 ->
  dailyInterestOf (Loan.amount l) (Loan.totalDays l)
  = JS.Math_ceil (Loan.totalInterest l / inject_Z (Loan.totalDays l))%Q.
Proof. intros R. unfold Loan.totalInterest. rewrite R. reflexivity. Qed.


(** C2, amended. In every reachable ledger, the totalAmounts of the
    installments of an approved or completed loan add up to
    totalDays * (ceil(amount/totalDays) + ceil(totalInterest/totalDays))
    + loan.penaltyAmount, which is at least
    amount + totalInterest + loan.penaltyAmount. *)
Theorem installment_totals_conserved (env : Env) (clock : Z) (db : DB)
  (l : Loan.t) :
  reachable env clock db -> In l (loans db) -> scheduled l ->
  sumTotalOf (Loan._id l) db
  = Loan.totalDays l
    * (JS.Math_ceil (inject_Z (Loan.amount l) / inject_Z (Loan.totalDays l))%Q
       + JS.Math_ceil (Loan.totalInterest l / inject_Z (Loan.totalDays l))%Q)
    + Loan.penaltyAmount l
  /\ (inject_Z (Loan.amount l) + Loan.totalInterest l
      + inject_Z (Loan.penaltyAmount l)
      <= inject_Z (sumTotalOf (Loan._id l) db))%Q.
Proof.
  intros R Hl S. apply scheduled_active in S.
  pose proof (reachable_by_inv _ _ _ _ R) as I.
  destruct (inv_loan _ _ I l Hl) as [Rate _ Days _ _ C].
  specialize (C S). unfold scheduledTotal in C.
  rewrite (dailyInterestOf_total l Rate) in C. unfold dailyPrincipalOf in C.
  split; [exact C|]. rewrite C.
  assert (N : 0 < Loan.totalDays l) by lia.
  pose proof (ceil_share_lower (inject_Z (Loan.amount l)) _ N) as P1.
  pose proof (ceil_share_lower (Loan.totalInterest l) _ N) as P2.
  rewrite inject_Z_plus, Z.mul_add_distr_l, inject_Z_plus. lra.
Qed.

Lemma run_two (env : Env) (t1 t2 : Z) (r1 r2 : Request) :
  t1 <= t2 ->
  reachable env t2 (run env [(t1, r1); (t2, r2)] emptyDB).
Proof.
  intros H. cbn [run].
  apply (reach_step anyRequest env t1 t2 _ r2); [|exact H | exact Logic.I].
  apply (reach_step anyRequest env t1 t1 _ r1); [|lia | exact Logic.I].
  apply reach_empty.
Qed.

Lemma installment_totals_conserved_witness :
  sumTotalOf 0 (approvedLoanDB 1000 3) = 3 * (334 + 67) + 0.
Proof.
  assert (F : exists l, Loan_findById 0 (approvedLoanDB 1000 3) = Some l
                        /\ Loan.status l = Loan.approved
                        /\ Loan.totalDays l = 3 /\ Loan.amount l = 1000
                        /\ Loan.interestRate l = 20 /\ Loan.penaltyAmount l = 0)
    by (eexists; split; [vm_compute; reflexivity | repeat split]).
  destruct F as (l & F & St & D & A & Rt & P).
  destruct (Loan_findById_id _ _ _ F) as [Hid Hl].
  destruct (installment_totals_conserved demoEnv (day 11) (approvedLoanDB 1000 3) l)
    as [E _].
  - apply run_two. vm_compute. discriminate.
  - exact Hl.
  - left. exact St.
  - rewrite Hid in E. rewrite E. unfold Loan.totalInterest.
    rewrite D, A, Rt, P. vm_compute. reflexivity.
Defined.

(** ** What one sweep does to an overdue installment *)

Lemma find_map_emi (f : EMI.t -> EMI.t) (l : list EMI.t) (e : EMI.t) :
  (forall x, EMI._id (f x) = EMI._id x) ->
  NoDup (map EMI._id l) -> In e l ->
  find (fun x => Nat.eqb (EMI._id x) (EMI._id e)) (map f l) = Some (f e).
Proof.
  intros Hf. induction l as [|a l IH]; intros ND He; [contradiction|].
  simpl in ND. inversion ND as [|? ? Hn ND']; subst.
  cbn [map find]. rewrite Hf.
  destruct (Nat.eqb (EMI._id a) (EMI._id e)) eqn:E.
  - apply Nat.eqb_eq in E. destruct He as [-> | He]; [reflexivity|].
    exfalso. apply Hn. rewrite E. apply in_map. exact He.
  - destruct He as [-> | He]; [rewrite Nat.eqb_refl in E; discriminate|].
    apply IH; assumption.
Qed.

Lemma find_map_loan (g : Loan.t -> Loan.t) (ls : list Loan.t) (id : nat) :
  (forall x, Loan._id (g x) = Loan._id x) ->
  find (fun x => Nat.eqb (Loan._id x) id) (map g ls)
  = option_map g (find (fun x => Nat.eqb (Loan._id x) id) ls).
Proof.
  intros Hg. induction ls as [|a ls IH]; [reflexivity|].
  cbn [map find]. rewrite Hg.
  destruct (Nat.eqb (Loan._id a) id); [reflexivity | exact IH].
Qed.

Lemma sweep_penalty_delta (today : Z) (id : nat) (l : list EMI.t) :
  sumZ (map EMI.penaltyAmount (filter (ofLoan id) (map (sweepOne today) l)))
  = sumZ (map EMI.penaltyAmount (filter (ofLoan id) l))
    + sweepIncrease today (filter (lateQuery today) l) id.
Proof.
  unfold sweepIncrease.
  rewrite filter_map_comm
    by (intros x _; unfold ofLoan;
        destruct (sweepOne_frame today x) as (_ & -> & _); reflexivity).
  rewrite map_map, !sum_filter, <- sumZ_plus.
  apply sumZ_ext_in. intros x Hx.
  unfold sweepOne, sweepDelta, ofLoan.
  destruct (Nat.eqb (EMI.loanId x) id);
    destruct (lateQuery today x); destruct (applies today x); cbn; lia.
Qed.

Lemma lateQuery_intro (today : Z) (e : EMI.t) :
  EMI.status e = EMI.pending \/ EMI.status e = EMI.overdue ->
  EMI.dueDate e < today -> lateQuery today e = true.
Proof.
  intros S D. unfold lateQuery. apply andb_true_iff. split.
  - destruct S as [-> | ->]; reflexivity.
  - apply Z.ltb_lt. exact D.
Qed.

Lemma penalise_same (e : EMI.t) (n : Z) :
  EMI.penaltyAmount e = n ->
  EMI.totalAmount e = EMI.principalAmount e + EMI.interestAmount e + n ->
  EMI.status e = EMI.overdue ->
  e = EMI.penalise n e.
Proof.
  destruct e. unfold EMI.penalise. cbn. intros -> -> ->. reflexivity.
Qed.

(** In a reachable ledger the stored penalty never exceeds what the sweep
    would set, and equals it only on an installment already overdue. *)
Lemma sweepOne_sets (clock now : Z) (e : EMI.t) :
  emi_ok clock e -> clock <= now ->
  lateQuery (JS.setHours0 now) e = true ->
  1 <= daysOverdueAt (JS.setHours0 now) e ->
  sweepOne (JS.setHours0 now) e
  = EMI.penalise (newPenaltyAt (JS.setHours0 now) e) e.
Proof.
  intros [T Ipos Pc [d [Hd Hp]]] Hle L D.
  set (today := JS.setHours0 now) in *.
  unfold sweepOne. rewrite L. cbn [andb].
  destruct (applies today e) eqn:A; [reflexivity|].
  assert (Dm : daysOverdueAt (JS.setHours0 clock) e <= daysOverdueAt today e)
    by (apply daysOverdueAt_mono, setHours0_mono, Hle).
  assert (Le : EMI.penaltyAmount e <= newPenaltyAt today e)
    by (unfold newPenaltyAt; rewrite Hp; apply Z.mul_le_mono_nonneg_l; lia).
  assert (Eq : EMI.penaltyAmount e = newPenaltyAt today e).
  { destruct (Z.lt_ge_cases (EMI.penaltyAmount e) (newPenaltyAt today e)) as [Lt | Ge];
      [|lia].
    assert (applies today e = true) by (apply applies_spec; auto).
    congruence. }
  assert (Pos : 0 < newPenaltyAt today e)
    by (unfold newPenaltyAt; apply Z.mul_pos_pos; lia).
  apply lateQuery_status in L. destruct L as [[S | S] _].
  - rewrite (Pc S) in Eq. lia.
  - apply penalise_same; [exact Eq | rewrite T, Eq; reflexivity | exact S].
Qed.

(** C4. In a reachable ledger, for an installment that is pending or overdue
    and due before the start of the current day, with daysOverdue >= 1, one
    run of the sweep leaves it with penaltyAmount = interestAmount *
    daysOverdue, totalAmount = principal + interest + penalty and status
    overdue; the loop body adds to the owning loan exactly newPenalty -
    currentPenalty, and only when newPenalty > currentPenalty; over the run
    the loan's penaltyAmount grows by the sum of those deltas over its
    installments. *)
Theorem overdue_sweep_effect (env : Env) (clock now : Z) (db : DB) (e : EMI.t) :
  reachable env clock db -> clock <= now -> In e (emis db) ->
  EMI.status e = EMI.pending \/ EMI.status e = EMI.overdue ->
  EMI.dueDate e < JS.setHours0 now ->
  1 <= daysOverdueAt (JS.setHours0 now) e ->
  let today := JS.setHours0 now in
  let daysOverdue := daysOverdueAt today e in
  let newPenalty := EMI.interestAmount e * daysOverdue in
  let db' := fst (processOverdueEMIs now db) in
  (exists e', EMI_findById (EMI._id e) db' = Some e'
     /\ e' = EMI.penalise newPenalty e
     /\ EMI.penaltyAmount e' = newPenalty
     /\ EMI.totalAmount e'
        = EMI.principalAmount e + EMI.interestAmount e + newPenalty
     /\ EMI.status e' = EMI.overdue)
  /\ (forall c,
        overdueStep today (db, c) e
        = if newPenalty >? EMI.penaltyAmount e
          then (Loan_incPenalty (EMI.loanId e) (newPenalty - EMI.penaltyAmount e)
                  (EMI_save (EMI.penalise newPenalty e) db), c + 1)
          else (db, c))
  /\ (exists l l', Loan_findById (EMI.loanId e) db = Some l
        /\ Loan_findById (EMI.loanId e) db' = Some l'
        /\ Loan.penaltyAmount l' - Loan.penaltyAmount l
           = sumPenaltyOf (EMI.loanId e) db' - sumPenaltyOf (EMI.loanId e) db).
Proof.
  intros R Hle He S D Days today daysOverdue newPenalty db'.
  pose proof (reachable_by_inv _ _ _ _ R) as I.
  pose proof (inv_emi_ids _ _ I) as NDe.
  pose proof (lateQuery_intro today e S D) as L.
  assert (Ee : emis db' = map (sweepOne today) (emis db))
    by (apply sweep_emis; exact NDe).
  split; [|split].
  - exists (EMI.penalise newPenalty e). repeat split.
    unfold EMI_findById. rewrite Ee.
    rewrite (find_map_emi (sweepOne today) (emis db) e); auto;
      [|intros; apply sweepOne_frame].
    f_equal. apply (sweepOne_sets clock); auto. apply (inv_emi _ _ I e He).
  - intros c. rewrite overdueStep_eq. unfold applies.
    assert (Z0 : (daysOverdueAt today e <=? 0) = false) by (apply Z.leb_gt; unfold today; lia).
    rewrite Z0. reflexivity.
  - destruct (inv_owner _ _ I e He) as [l [Hl [Hid _]]].
    pose proof (In_find_loan db l (inv_loan_ids _ _ I) Hl) as F.
    rewrite Hid in F.
    exists l, (Loan.inc_penalty
                 (sweepIncrease today (EMI_find (lateQuery today) db) (Loan._id l)) l).
    split; [exact F|]. split.
    + unfold Loan_findById, db', processOverdueEMIs. rewrite sweep_fold_loans.
      rewrite find_map_loan by reflexivity.
      unfold Loan_findById in F. rewrite F. reflexivity.
    + cbn [Loan.inc_penalty Loan.penaltyAmount].
      unfold sumPenaltyOf, emisOf, EMI_find. rewrite Ee.
      rewrite sweep_penalty_delta, Hid. unfold EMI_find. lia.
Qed.

Lemma overdue_sweep_effect_witness :
  exists e', EMI_findById 1 (fst (processOverdueEMIs (day 15) (approvedLoanDB 1000 3)))
             = Some e'
    /\ EMI.penaltyAmount e' = 67 * 3
    /\ EMI.totalAmount e' = 334 + 67 + 67 * 3
    /\ EMI.status e' = EMI.overdue.
Proof.
  destruct (overdue_sweep_effect demoEnv (day 11) (day 15) (approvedLoanDB 1000 3)
              firstInstallment)
    as [[e' (F & _ & P & T & S)] _].
  - apply run_two. vm_compute. discriminate.
  - vm_compute. discriminate.
  - vm_compute. left. reflexivity.
  - left. reflexivity.
  - vm_compute. reflexivity.
  - vm_compute. discriminate.
  - exists e'. split; [exact F|]. split; [|split]; [rewrite P | rewrite T | exact S];
      vm_compute; reflexivity.
Defined.

(** ** The balance a fully settled loan ends with *)






Lemma settledOddLoan_reachable :
  reachable_by noRedelivery demoEnv (day 13) settledOddLoanDB.
Proof.
  unfold settledOddLoanDB, approvedLoanDB. cbn [run].
  apply (reach_step noRedelivery demoEnv (day 12) (day 13) _
           (ReqSimulate 7%nat (Some 2%nat))); [|vm_compute; discriminate | exact I].
  apply (reach_step noRedelivery demoEnv (day 11) (day 12) _
           (ReqSimulate 7%nat (Some 1%nat))); [|vm_compute; discriminate | exact I].
  apply (reach_step noRedelivery demoEnv (day 10) (day 11) _
           (ReqApprove 0%nat None (Some (JS.Num 2))));
    [|vm_compute; discriminate | exact I].
  apply (reach_step noRedelivery demoEnv (day 10) (day 10) _
           (ReqApply 7%nat (JS.Num 1001))); [|lia | exact I].
  apply reach_empty.
Qed.


(** ** The guarded settlement paths at a paid installment *)

(** /simulate and the admin override answer 400 and change nothing when the
    installment is already paid; the batch paths never select one. *)
Lemma guarded_paths_skip_paid (user admin id : nat) (now : Z) (db : DB)
  (emi : EMI.t) :
  EMI_findById id db = Some emi -> isPaid emi = true ->
  (simulate user (Some id) now db = (db, 400%nat)
   \/ simulate user (Some id) now db = (db, 403%nat))
  /\ markPaid admin id now db = (db, 400%nat)
  /\ forall loanId, ~ In emi (oldestUnpaid loanId db).
Proof.
  intros F P. split; [|split].
  - unfold simulate. rewrite F, P.
    destruct (negb (Nat.eqb (EMI.userId emi) user)); auto.
  - unfold markPaid. rewrite F, P. reflexivity.
  - intros loanId Hin. apply oldestUnpaid_incl in Hin. destruct Hin as [_ U].
    apply unpaidOf_spec in U. destruct U as [_ U]. congruence.
Qed.

(** ** The earlier flat-fee variant of the sweep *)

Lemma flat_fold_emis (today : Z) (todo : list EMI.t) (db : DB) :
  emis (fold_left (flatStep today) todo db)
  = fold_left (saveIf always (fun e => EMI.penalise (flatPenalty today e) e))
              todo (emis db).
Proof.
  revert db. induction todo as [|e todo IH]; intros db; [reflexivity|].
  cbn [fold_left]. rewrite IH. reflexivity.
Qed.

Lemma flat_leaves_nothing_pending (today : Z) (todo l : list EMI.t) :
  (forall x, In x l ->
     flatQuery today x = false
     \/ exists e, In e todo /\ EMI._id e = EMI._id x) ->
  forall x,
    In x (fold_left (saveIf always
                       (fun e => EMI.penalise (flatPenalty today e) e)) todo l) ->
    flatQuery today x = false.
Proof.
  revert l. induction todo as [|e todo IH]; intros l H x Hx; simpl in Hx.
  - destruct (H x Hx) as [S | [e [[] _]]]. exact S.
  - apply (IH _) in Hx; [exact Hx|]. clear x Hx.
    intros x Hx. unfold saveIf, always in Hx.
    apply in_map_iff in Hx. destruct Hx as [y [Ey Hy]].
    unfold replace_emi in Ey.
    destruct (Nat.eqb (EMI._id y) (EMI._id (EMI.penalise _ e))) eqn:I.
    + subst x. left. reflexivity.
    + subst x. destruct (H y Hy) as [S | [e' [[E | Hin] Hid]]].
      * left; exact S.
      * subst e'. simpl in I. rewrite Hid, Nat.eqb_refl in I. discriminate.
      * right. exists e'. auto.
Qed.

(** The flat-fee variant, too, finds nothing to do on a second run. *)
Lemma processOverdueEMIs_flat_idempotent (now : Z) (db : DB) :
  processOverdueEMIs_flat now (fst (processOverdueEMIs_flat now db))
  = (fst (processOverdueEMIs_flat now db), 0).
Proof.
  set (today := JS.setHours0 now + (JS.msPerDay - 1)).
  assert (N : EMI_find (flatQuery today) (fst (processOverdueEMIs_flat now db)) = []).
  { unfold EMI_find. apply filter_none. intros x Hx.
    unfold processOverdueEMIs_flat in Hx. cbn [fst] in Hx.
    rewrite flat_fold_emis in Hx.
    apply flat_leaves_nothing_pending in Hx; [exact Hx|].
    intros y Hy. fold today. destruct (flatQuery today y) eqn:Q; [|left; reflexivity].
    right. exists y. split; [|reflexivity]. apply filter_In. auto. }
  unfold processOverdueEMIs_flat at 1. fold today. rewrite N. reflexivity.
Qed.

(** It charges 120 per day, whatever the interest: three days late on the
    1000-over-3-days loan give 360, not 67 * 3. *)
Example flat_variant_penalty :
  option_map EMI.penaltyAmount
    (EMI_findById 1 (fst (processOverdueEMIs_flat (day 15) (approvedLoanDB 1000 3))))
  = Some 360.
Proof. vm_compute. reflexivity. Qed.

(** ** Reports *)

Lemma reduceTotal_sum (l : list EMI.t) :
  reduceTotal l = sumZ (map EMI.totalAmount l).
Proof.
  unfold reduceTotal.
  assert (G : forall acc, fold_left (fun sum e => sum + EMI.totalAmount e) l acc
                          = acc + sumZ (map EMI.totalAmount l)).
  { induction l as [|x l IH]; intros acc; cbn [fold_left map].
    - unfold sumZ; simpl; lia.
    - rewrite IH, sumZ_cons. lia. }
  rewrite G. lia.
Qed.

(** What [getLoanStats] accumulates, field by field. *)
Lemma stats_fold (l : list EMI.t) (s : Stats.t) :
  let r := fold_left statsStep l s in
  Stats.totalEMIs r = Stats.totalEMIs s
  /\ Stats.paidEMIs r = Stats.paidEMIs s + count (hasStatus EMI.paid) l
  /\ Stats.pendingEMIs r = Stats.pendingEMIs s + count (hasStatus EMI.pending) l
  /\ Stats.overdueEMIs r = Stats.overdueEMIs s + count (hasStatus EMI.overdue) l
  /\ Stats.totalPaid r
     = Stats.totalPaid s + sumZ (map EMI.totalAmount (filter (hasStatus EMI.paid) l))
  /\ Stats.totalPending r
     = Stats.totalPending s + sumZ (map EMI.totalAmount (filter notPaid l))
  /\ Stats.totalPenalty r
     = Stats.totalPenalty s
       + sumZ (map EMI.penaltyAmount (filter (hasStatus EMI.overdue) l)).
Proof.
  revert s. induction l as [|x l IH]; intros s.
  - cbn. unfold count. cbn. repeat split; lia.
  - cbn [fold_left]. cbv zeta in *.
    destruct (IH (statsStep s x)) as (H1 & H2 & H3 & H4 & H5 & H6 & H7).
    rewrite H1, H2, H3, H4, H5, H6, H7. clear IH H1 H2 H3 H4 H5 H6 H7.
    unfold statsStep, count, hasStatus, notPaid. cbn [filter].
    destruct (EMI.status x); cbn [EMI.Status_eqb negb Stats.totalEMIs Stats.paidEMIs
      Stats.pendingEMIs Stats.overdueEMIs Stats.totalPaid Stats.totalPending
      Stats.totalPenalty List.length map];
      rewrite ?sumZ_cons, ?Nat2Z.inj_succ; repeat split; lia.
Qed.

Lemma count_partition (l : list EMI.t) :
  count (hasStatus EMI.paid) l + count (hasStatus EMI.pending) l
  + count (hasStatus EMI.overdue) l = Z.of_nat (List.length l).
Proof.
  unfold count, hasStatus. induction l as [|x l IH]; [reflexivity|].
  cbn [filter List.length]. destruct (EMI.status x);
    cbn [EMI.Status_eqb List.length]; rewrite ?Nat2Z.inj_succ; lia.
Qed.

Lemma sum_paid_unpaid (f : EMI.t -> Z) (l : list EMI.t) :
  sumZ (map f (filter (hasStatus EMI.paid) l)) + sumZ (map f (filter notPaid l))
  = sumZ (map f l).
Proof.
  rewrite !sum_filter, <- sumZ_plus. apply sumZ_ext_in. intros x _.
  unfold hasStatus, notPaid. destruct (EMI.Status_eqb (EMI.status x) EMI.paid);
    cbn [negb]; lia.
Qed.

Lemma count_perm (q : EMI.t -> bool) (l l' : list EMI.t) :
  Permutation l l' -> count q l = count q l'.
Proof.
  intros P. unfold count. f_equal. apply Permutation_length.
  induction P; cbn [filter].
  - constructor.
  - destruct (q x); [apply perm_skip|]; assumption.
  - destruct (q x), (q y); try apply perm_swap; apply Permutation_refl.
  - eapply Permutation_trans; eassumption.
Qed.

Lemma sum_filter_perm (q : EMI.t -> bool) (f : EMI.t -> Z) (l l' : list EMI.t) :
  Permutation l l' ->
  sumZ (map f (filter q l)) = sumZ (map f (filter q l')).
Proof.
  intros P. rewrite !sum_filter.
  induction P; cbn [map]; rewrite ?sumZ_cons; lia.
Qed.

(** X1. The report of [getLoanStats] is consistent: the paid, pending and
    overdue counts add up to the number of installments of the loan,
    totalPaid and totalPending add up to the sum of their totalAmounts, and
    the summary the route GET /api/emi/loan/:loanId computes with filters
    over the sorted list carries the same six figures. *)
Theorem getLoanStats_consistent (user : nat) (isAdmin : bool) (loanId : nat)
  (db : DB) (found : list EMI.t) (summary : Summary.t) :
  loanEMIs user isAdmin loanId db = (200%nat, Some (found, summary)) ->
  let stats := getLoanStats loanId db in
  Stats.paidEMIs stats + Stats.pendingEMIs stats + Stats.overdueEMIs stats
  = Stats.totalEMIs stats
  /\ Stats.totalEMIs stats = Z.of_nat (List.length (emisOf loanId db))
  /\ Stats.totalPaid stats + Stats.totalPending stats = sumTotalOf loanId db
  /\ Stats.totalPaid stats = paidTotalOf loanId db
  /\ Summary.total summary = Stats.totalEMIs stats
  /\ Summary.paid summary = Stats.paidEMIs stats
  /\ Summary.pending summary = Stats.pendingEMIs stats
  /\ Summary.overdue summary = Stats.overdueEMIs stats
  /\ Summary.totalPaid summary = Stats.totalPaid stats
  /\ Summary.totalPending summary = Stats.totalPending stats.
Proof.
  intros H stats.
  pose proof (stats_fold (EMI_find (ofLoan loanId) db)
                (Stats.mk (Z.of_nat (List.length (EMI_find (ofLoan loanId) db)))
                          0 0 0 0 0 0)) as S.
  cbv zeta in S. fold (getLoanStats loanId db) in S. fold stats in S.
  cbn [Stats.totalEMIs Stats.paidEMIs Stats.pendingEMIs Stats.overdueEMIs
       Stats.totalPaid Stats.totalPending Stats.totalPenalty] in S.
  destruct S as (S1 & S2 & S3 & S4 & S5 & S6 & _).
  pose proof (count_partition (EMI_find (ofLoan loanId) db)) as CP.
  pose proof (sum_paid_unpaid EMI.totalAmount (EMI_find (ofLoan loanId) db)) as SP.
  pose proof (sortByDayNumber_perm (EMI_find (ofLoan loanId) db)) as P.
  unfold loanEMIs in H.
  destruct (Loan_findById loanId db) as [loan|]; [|discriminate H].
  destruct (negb (Nat.eqb (Loan.userId loan) user) && negb isAdmin);
    [discriminate H|].
  inversion H; subst found summary; clear H.
  cbn [Summary.total Summary.paid Summary.pending Summary.overdue
       Summary.totalPaid Summary.totalPending].
  rewrite !reduceTotal_sum.
  rewrite (Permutation_length P).
  rewrite !(count_perm _ _ _ P).
  rewrite !(sum_filter_perm _ _ _ _ P).
  unfold sumTotalOf, paidTotalOf, paidOf, emisOf.
  assert (PT : sumZ (map EMI.totalAmount (EMI_find (fun e => ofLoan loanId e && isPaid e) db))
               = sumZ (map EMI.totalAmount
                         (filter (hasStatus EMI.paid) (EMI_find (ofLoan loanId) db)))).
  { unfold EMI_find. rewrite !sum_filter.
    apply sumZ_ext_in. intros x _. unfold hasStatus, isPaid.
    destruct (ofLoan loanId x); reflexivity. }
  rewrite PT. repeat split; lia.
Qed.

Lemma getLoanStats_consistent_witness :
  let stats := getLoanStats 0 (approvedLoanDB 1000 3) in
  Stats.paidEMIs stats + Stats.pendingEMIs stats + Stats.overdueEMIs stats
  = Stats.totalEMIs stats
  /\ Stats.totalEMIs stats = 3.
Proof.
  destruct (getLoanStats_consistent 7%nat false 0%nat (approvedLoanDB 1000 3)
              (sortByDayNumber (EMI_find (ofLoan 0) (approvedLoanDB 1000 3)))
              (Summary.mk 3 0 3 0 0 1203))
    as (H1 & H2 & _).
  - vm_compute. reflexivity.
  - split; [exact H1 | rewrite H2; vm_compute; reflexivity].
Defined.

(** ** The installments of a loan in a reachable ledger *)

Lemma owner_of (clock : Z) (db : DB) (l : Loan.t) (x : EMI.t) :
  ledger_inv clock db -> In l (loans db) -> In x (emisOf (Loan._id l) db) ->
  In x (emis db) /\ owned l x.
Proof.
  intros I Hl Hx. unfold emisOf, EMI_find in Hx. apply filter_In in Hx.
  destruct Hx as [Hx O]. unfold ofLoan in O. apply Nat.eqb_eq in O.
  split; [exact Hx|].
  destruct (inv_owner _ _ I x Hx) as [l0 [Hl0 [Hid Own]]].
  assert (l0 = l)
    by (apply (loan_same_id (loans db)); auto;
        [apply (inv_loan_ids _ _ I) | congruence]).
  subst l0. exact Own.
Qed.

(** The penalties of the installments of a loan add up to the loan's. *)
Lemma penalty_sum (clock : Z) (db : DB) (l : Loan.t) :
  ledger_inv clock db -> In l (loans db) -> isActive l = true ->
  sumPenaltyOf (Loan._id l) db = Loan.penaltyAmount l.
Proof.
  intros I Hl Act.
  destruct (inv_loan _ _ I l Hl) as [_ _ Days _ C S].
  specialize (C Act). specialize (S Act).
  unfold sumTotalOf in S. unfold sumPenaltyOf.
  set (c := dailyPrincipalOf (Loan.amount l) (Loan.totalDays l)
            + dailyInterestOf (Loan.amount l) (Loan.totalDays l)) in *.
  rewrite (sumZ_ext_in EMI.totalAmount
             (fun x => c + EMI.penaltyAmount x)) in S.
  - rewrite (sumZ_plus (fun _ => c) EMI.penaltyAmount) in S.
    rewrite (sumZ_const (fun _ => c) c) in S by reflexivity.
    rewrite C, Z2Nat.id in S by lia.
    unfold scheduledTotal in S. fold c in S. lia.
  - intros x Hx. destruct (owner_of clock db l x I Hl Hx) as [Hin (_ & P & Q)].
    rewrite (emi_total _ _ (inv_emi _ _ I x Hin)), P, Q. unfold c. lia.
Qed.

(** X2. In every reachable ledger each stored installment has totalAmount =
    principal + interest + penalty and interest of at least 1; a pending
    installment carries no penalty; the penalty is the interest times a whole
    number of days, at most the days the installment is overdue at the time
    of the last request; and its loan exists, is approved or completed, and
    the installment's principal and interest are the loan's shares
    ceil(amount / totalDays) and ceil(totalInterest / totalDays). *)
Theorem installments_well_formed (env : Env) (clock : Z) (db : DB) (e : EMI.t) :
  reachable env clock db -> In e (emis db) ->
  EMI.totalAmount e
  = EMI.principalAmount e + EMI.interestAmount e + EMI.penaltyAmount e
  /\ 1 <= EMI.interestAmount e
  /\ (EMI.status e = EMI.pending -> EMI.penaltyAmount e = 0)
  /\ (exists d, 0 <= d <= Z.max 0 (daysOverdueAt (JS.setHours0 clock) e)
                /\ EMI.penaltyAmount e = EMI.interestAmount e * d)
  /\ exists l, Loan_findById (EMI.loanId e) db = Some l
       /\ scheduled l
       /\ EMI.principalAmount e
          = JS.Math_ceil (inject_Z (Loan.amount l) / inject_Z (Loan.totalDays l))%Q
       /\ EMI.interestAmount e
          = JS.Math_ceil (Loan.totalInterest l / inject_Z (Loan.totalDays l))%Q.
Proof.
  intros R He. pose proof (reachable_by_inv _ _ _ _ R) as I.
  destruct (inv_emi _ _ I e He) as [T Ip Pc Acc].
  split; [exact T|]. split; [lia|]. split; [exact Pc|]. split; [exact Acc|].
  destruct (inv_owner _ _ I e He) as [l [Hl [Hid (Act & P & Q)]]].
  exists l. split; [rewrite <- Hid; apply In_find_loan; [apply (inv_loan_ids _ _ I) | exact Hl]|].
  split.
  { unfold scheduled, isActive in *. destruct (Loan.status l); auto; discriminate. }
  split; [exact P|].
  rewrite Q. apply dailyInterestOf_total. apply (loan_rate _ _ (inv_loan _ _ I l Hl)).
Qed.

Lemma installments_well_formed_witness :
  EMI.totalAmount firstInstallment = 334 + 67 + 0
  /\ 1 <= EMI.interestAmount firstInstallment.
Proof.
  destruct (installments_well_formed demoEnv (day 11) (approvedLoanDB 1000 3)
              firstInstallment)
    as (H1 & H2 & _).
  - apply run_two. vm_compute. discriminate.
  - vm_compute. left. reflexivity.
  - split; [exact H1 | exact H2].
Defined.

Lemma penalty_nonneg (clock : Z) (e : EMI.t) : emi_ok clock e -> 0 <= EMI.penaltyAmount e.
Proof.
  intros [_ Ip _ [d [Hd Hp]]]. rewrite Hp. apply Z.mul_nonneg_nonneg; lia.
Qed.

Lemma sumZ_nonneg (f : EMI.t -> Z) (l : list EMI.t) :
  (forall x, In x l -> 0 <= f x) -> 0 <= sumZ (map f l).
Proof.
  induction l as [|x l IH]; intros H; [cbn; lia|].
  cbn [map]. rewrite sumZ_cons.
  pose proof (H x (or_introl eq_refl)).
  assert (0 <= sumZ (map f l)) by (apply IH; intros y Hy; apply H; right; exact Hy).
  lia.
Qed.

Lemma sum_by_status (f : EMI.t -> Z) (l : list EMI.t) :
  sumZ (map f l)
  = sumZ (map f (filter (hasStatus EMI.paid) l))
    + sumZ (map f (filter (hasStatus EMI.pending) l))
    + sumZ (map f (filter (hasStatus EMI.overdue) l)).
Proof.
  rewrite !sum_filter, <- !sumZ_plus. apply sumZ_ext_in. intros x _.
  unfold hasStatus. destruct (EMI.status x); cbn; lia.
Qed.

(** X3. In every reachable ledger the report of [getLoanStats] for an
    approved or completed loan counts exactly totalDays installments;
    totalPaid + totalPending is totalDays * (ceil(amount / totalDays) +
    ceil(totalInterest / totalDays)) + loan.penaltyAmount; the penalties of
    all its installments add up to loan.penaltyAmount; and totalPenalty, which
    counts overdue installments only, is loan.penaltyAmount less the
    penalties of the paid installments, between 0 and loan.penaltyAmount. *)
Theorem getLoanStats_matches_loan (env : Env) (clock : Z) (db : DB) (l : Loan.t) :
  reachable env clock db -> In l (loans db) -> scheduled l ->
  let stats := getLoanStats (Loan._id l) db in
  Stats.totalEMIs stats = Loan.totalDays l
  /\ Stats.totalPaid stats + Stats.totalPending stats
     = Loan.totalDays l
       * (JS.Math_ceil (inject_Z (Loan.amount l) / inject_Z (Loan.totalDays l))%Q
          + JS.Math_ceil (Loan.totalInterest l / inject_Z (Loan.totalDays l))%Q)
       + Loan.penaltyAmount l
  /\ sumPenaltyOf (Loan._id l) db = Loan.penaltyAmount l
  /\ Stats.totalPenalty stats
     = Loan.penaltyAmount l
       - sumZ (map EMI.penaltyAmount (paidOf (Loan._id l) db))
  /\ 0 <= Stats.totalPenalty stats <= Loan.penaltyAmount l.
Proof.
  intros R Hl S stats. apply scheduled_active in S.
  pose proof (reachable_by_inv _ _ _ _ R) as I.
  pose proof (stats_fold (EMI_find (ofLoan (Loan._id l)) db)
                (Stats.mk (Z.of_nat (List.length (EMI_find (ofLoan (Loan._id l)) db)))
                          0 0 0 0 0 0)) as F.
  cbv zeta in F. fold (getLoanStats (Loan._id l) db) in F. fold stats in F.
  cbn [Stats.totalEMIs Stats.paidEMIs Stats.pendingEMIs Stats.overdueEMIs
       Stats.totalPaid Stats.totalPending Stats.totalPenalty] in F.
  destruct F as (F1 & _ & _ & _ & F5 & F6 & F7).
  fold (emisOf (Loan._id l) db) in *.
  destruct (inv_loan _ _ I l Hl) as [Rate _ Days _ C T].
  specialize (C S). specialize (T S).
  pose proof (penalty_sum clock db l I Hl S) as PS.
  pose proof (sum_paid_unpaid EMI.totalAmount (emisOf (Loan._id l) db)) as SP.
  pose proof (sum_by_status EMI.penaltyAmount (emisOf (Loan._id l) db)) as BS.
  fold (sumPenaltyOf (Loan._id l) db) in BS. rewrite PS in BS.
  assert (Pend : sumZ (map EMI.penaltyAmount
                         (filter (hasStatus EMI.pending) (emisOf (Loan._id l) db))) = 0).
  { apply sumZ_zero. intros x Hx. apply filter_In in Hx. destruct Hx as [Hx St].
    destruct (owner_of clock db l x I Hl Hx) as [Hin _].
    apply (emi_pending_clean _ _ (inv_emi _ _ I x Hin)).
    unfold hasStatus in St. destruct (EMI.status x); first [reflexivity | discriminate St]. }
  assert (Paid : sumZ (map EMI.penaltyAmount (paidOf (Loan._id l) db))
                 = sumZ (map EMI.penaltyAmount
                           (filter (hasStatus EMI.paid) (emisOf (Loan._id l) db)))).
  { unfold paidOf, emisOf, EMI_find. rewrite !sum_filter.
    apply sumZ_ext_in. intros x _. unfold hasStatus, isPaid.
    destruct (ofLoan (Loan._id l) x); reflexivity. }
  assert (NnP : 0 <= sumZ (map EMI.penaltyAmount
                            (filter (hasStatus EMI.paid) (emisOf (Loan._id l) db)))).
  { apply sumZ_nonneg. intros x Hx. apply filter_In in Hx. destruct Hx as [Hx _].
    destruct (owner_of clock db l x I Hl Hx) as [Hin _].
    apply (penalty_nonneg clock), (inv_emi _ _ I x Hin). }
  assert (NnO : 0 <= sumZ (map EMI.penaltyAmount
                            (filter (hasStatus EMI.overdue) (emisOf (Loan._id l) db)))).
  { apply sumZ_nonneg. intros x Hx. apply filter_In in Hx. destruct Hx as [Hx _].
    destruct (owner_of clock db l x I Hl Hx) as [Hin _].
    apply (penalty_nonneg clock), (inv_emi _ _ I x Hin). }
  split; [rewrite F1, C; apply Z2Nat.id; lia|].
  split.
  { rewrite F5, F6. cbn [Z.add]. rewrite SP.
    fold (sumTotalOf (Loan._id l) db). rewrite T. unfold scheduledTotal.
    rewrite (dailyInterestOf_total l Rate). reflexivity. }
  split; [exact PS|].
  rewrite F7, Paid. cbn [Z.add]. split; lia.
Qed.

Lemma getLoanStats_matches_loan_witness :
  Stats.totalEMIs (getLoanStats 0 (approvedLoanDB 1000 3)) = 3
  /\ sumPenaltyOf 0 (approvedLoanDB 1000 3) = 0.
Proof.
  assert (F : exists l, Loan_findById 0 (approvedLoanDB 1000 3) = Some l
                        /\ Loan.status l = Loan.approved
                        /\ Loan.totalDays l = 3 /\ Loan.penaltyAmount l = 0)
    by (eexists; split; [vm_compute; reflexivity | repeat split]).
  destruct F as (l & F & St & D & P).
  destruct (Loan_findById_id _ _ _ F) as [Hid Hl].
  destruct (getLoanStats_matches_loan demoEnv (day 11) (approvedLoanDB 1000 3) l)
    as (H1 & _ & H3 & _).
  - apply run_two. vm_compute. discriminate.
  - exact Hl.
  - left. exact St.
  - rewrite Hid in H1, H3. rewrite H1, H3, D, P. split; reflexivity.
Defined.

(** ** The overdue sweep: its report, and runs on later days *)

Lemma sweep_fold_count (today : Z) (todo : list EMI.t) (db : DB) (c : Z) :
  snd (fold_left (overdueStep today) todo (db, c))
  = c + count (applies today) todo.
Proof.
  unfold count. revert db c. induction todo as [|e todo IH]; intros db c.
  - cbn. lia.
  - cbn [fold_left filter]. rewrite overdueStep_eq.
    destruct (applies today e); rewrite IH; cbn [List.length];
      rewrite ?Nat2Z.inj_succ; lia.
Qed.

Lemma filter_filter_and (p q : EMI.t -> bool) (l : list EMI.t) :
  filter p (filter q l) = filter (fun x => q x && p x) l.
Proof.
  induction l as [|x l IH]; [reflexivity|].
  cbn [filter]. destruct (q x); cbn [filter andb]; [destruct (p x)|];
    rewrite IH; reflexivity.
Qed.

Lemma filter_length_le (q : EMI.t -> bool) (l : list EMI.t) :
  (List.length (filter q l) <= List.length l)%nat.
Proof.
  induction l as [|x l IH]; [apply Nat.le_refl|].
  cbn [filter]. destruct (q x); cbn [List.length]; lia.
Qed.

(** X4. One run of the overdue sweep reports the number of installments it
    changed: those that are pending or overdue, due before the start of the
    day, at least one day late, and whose stored penalty is below
    interestAmount * daysOverdue.  Each of these ends overdue with a strictly
    larger penalty; every other installment, in particular a paid one or one
    due today or later, is stored exactly as before. *)
Theorem sweep_reports_changes (now : Z) (db : DB) :
  NoDup (map EMI._id (emis db)) ->
  let today := JS.setHours0 now in
  let changed := fun e => lateQuery today e && applies today e in
  let db' := fst (processOverdueEMIs now db) in
  snd (processOverdueEMIs now db) = count changed (emis db)
  /\ 0 <= snd (processOverdueEMIs now db)
     <= Z.of_nat (EMI_countDocuments (lateQuery today) db)
  /\ (forall e, In e (emis db) -> changed e = true ->
        exists e', EMI_findById (EMI._id e) db' = Some e'
          /\ EMI.penaltyAmount e < EMI.penaltyAmount e'
          /\ EMI.penaltyAmount e' = EMI.interestAmount e * daysOverdueAt today e
          /\ EMI.status e' = EMI.overdue)
  /\ (forall e, In e (emis db) -> changed e = false ->
        EMI_findById (EMI._id e) db' = Some e)
  /\ (forall e, isPaid e = true \/ today <= EMI.dueDate e -> changed e = false).
Proof.
  intros ND today changed db'.
  assert (Ee : emis db' = map (sweepOne today) (emis db))
    by (apply sweep_emis; exact ND).
  assert (Cn : snd (processOverdueEMIs now db) = count changed (emis db)).
  { unfold processOverdueEMIs. rewrite sweep_fold_count. fold today.
    unfold count, EMI_find. rewrite filter_filter_and. reflexivity. }
  split; [exact Cn|]. split.
  { unfold processOverdueEMIs. rewrite sweep_fold_count. fold today.
    unfold count, EMI_countDocuments.
    pose proof (filter_length_le (applies today) (EMI_find (lateQuery today) db)).
    lia. }
  split.
  { intros e He C. exists (sweepOne today e). split.
    - unfold EMI_findById. rewrite Ee. apply find_map_emi; auto.
      intros; apply sweepOne_frame.
    - unfold sweepOne. fold (changed e). rewrite C.
      unfold changed in C. apply andb_true_iff in C. destruct C as [_ A].
      apply applies_spec in A. cbn. unfold newPenaltyAt in *. split; [lia|].
      split; reflexivity. }
  split.
  { intros e He C. unfold EMI_findById. rewrite Ee.
    rewrite (find_map_emi (sweepOne today) (emis db) e); auto;
      [|intros; apply sweepOne_frame].
    unfold sweepOne. fold (changed e). rewrite C. reflexivity. }
  intros e [P | D]; unfold changed, lateQuery.
  - unfold isPaid in P. destruct (EMI.status e); try discriminate P. reflexivity.
  - assert (L : (EMI.dueDate e <? today) = false) by (apply Z.ltb_ge; exact D).
    rewrite L, andb_false_r. reflexivity.
Qed.

Lemma sweep_reports_changes_witness :
  snd (processOverdueEMIs (day 15) (approvedLoanDB 1000 3))
  = count (fun e => lateQuery (JS.setHours0 (day 15)) e
                    && applies (JS.setHours0 (day 15)) e)
          (emis (approvedLoanDB 1000 3)).
Proof.
  destruct (sweep_reports_changes (day 15) (approvedLoanDB 1000 3)) as [H _].
  - apply nodupb_sound. vm_compute. reflexivity.
  - exact H.
Defined.

Lemma DB_ext (a b : DB) :
  emis a = emis b -> loans a = loans b -> nextId a = nextId b -> a = b.
Proof. destruct a, b. cbn. intros -> -> ->. reflexivity. Qed.

Lemma lateQuery_later (t1 t2 : Z) (e : EMI.t) :
  t1 <= t2 -> lateQuery t1 e = true -> lateQuery t2 e = true.
Proof.
  intros H L. apply lateQuery_status in L. destruct L as [S D].
  apply lateQuery_intro; [exact S | lia].
Qed.

Lemma sweep_loans (now : Z) (db : DB) :
  loans (fst (processOverdueEMIs now db))
  = map (fun l => Loan.inc_penalty
                    (sweepIncrease (JS.setHours0 now)
                       (filter (lateQuery (JS.setHours0 now)) (emis db))
                       (Loan._id l)) l)
        (loans db).
Proof. unfold processOverdueEMIs. apply sweep_fold_loans. Qed.

Lemma sweep_nextId (now : Z) (db : DB) :
  nextId (fst (processOverdueEMIs now db)) = nextId db.
Proof. unfold processOverdueEMIs. apply sweep_fold_nextId. Qed.

(** A run on a later day overwrites what an earlier run left. *)
Lemma sweepOne_absorb (t1 t2 : Z) (e : EMI.t) :
  t1 <= t2 -> 0 <= EMI.interestAmount e ->
  sweepOne t2 (sweepOne t1 e) = sweepOne t2 e.
Proof.
  intros H Ip. unfold sweepOne at 2.
  destruct (lateQuery t1 e && applies t1 e) eqn:C; [|reflexivity].
  apply andb_true_iff in C. destruct C as [L A].
  pose proof (lateQuery_later t1 t2 e H L) as L2.
  apply applies_spec in A. destruct A as [D1 P1].
  pose proof (daysOverdueAt_mono t1 t2 e H) as Dm.
  assert (Pm : newPenaltyAt t1 e <= newPenaltyAt t2 e)
    by (unfold newPenaltyAt; apply Z.mul_le_mono_nonneg_l; assumption).
  assert (A2 : applies t2 e = true) by (apply applies_spec; lia).
  unfold sweepOne. rewrite L2, A2. cbn [andb].
  assert (L2' : lateQuery t2 (EMI.penalise (newPenaltyAt t1 e) e) = true).
  { apply lateQuery_intro; [right; reflexivity|].
    apply lateQuery_status in L2. cbn. tauto. }
  rewrite L2'. cbn [andb].
  destruct (applies t2 (EMI.penalise (newPenaltyAt t1 e) e)) eqn:A3.
  - reflexivity.
  - assert (E : newPenaltyAt t2 e = newPenaltyAt t1 e).
    { destruct (Z.lt_ge_cases (newPenaltyAt t1 e) (newPenaltyAt t2 e)) as [Lt | Ge];
        [|lia].
      assert (applies t2 (EMI.penalise (newPenaltyAt t1 e) e) = true).
      { apply applies_spec.
        change (daysOverdueAt t2 (EMI.penalise (newPenaltyAt t1 e) e))
          with (daysOverdueAt t2 e).
        change (newPenaltyAt t2 (EMI.penalise (newPenaltyAt t1 e) e))
          with (newPenaltyAt t2 e).
        change (EMI.penaltyAmount (EMI.penalise (newPenaltyAt t1 e) e))
          with (newPenaltyAt t1 e).
        lia. }
      congruence. }
    rewrite E. reflexivity.
Qed.

(** X5. A sweep absorbs the sweeps before it: in a reachable ledger, running
    the overdue processor at [now1] and again at a later [now2] leaves
    exactly the installments, loans and id counter that a single run at
    [now2] leaves, so a missed or repeated daily run changes nothing in the
    end. *)
Theorem sweep_absorbs_earlier_run (env : Env) (clock now1 now2 : Z) (db : DB) :
  reachable env clock db -> now1 <= now2 ->
  fst (processOverdueEMIs now2 (fst (processOverdueEMIs now1 db)))
  = fst (processOverdueEMIs now2 db).
Proof.
  intros R H. pose proof (reachable_by_inv _ _ _ _ R) as I.
  pose proof (inv_emi_ids _ _ I) as ND.
  set (t1 := JS.setHours0 now1). set (t2 := JS.setHours0 now2).
  assert (Ht : t1 <= t2) by (apply setHours0_mono, H).
  set (db1 := fst (processOverdueEMIs now1 db)).
  assert (E1 : emis db1 = map (sweepOne t1) (emis db)) by (apply sweep_emis, ND).
  assert (ND1 : NoDup (map EMI._id (emis db1)))
    by (rewrite E1, map_ids_emis; [exact ND | intros; apply sweepOne_frame]).
  assert (E12 : emis (fst (processOverdueEMIs now2 db1))
                = map (sweepOne t2) (emis db)).
  { rewrite sweep_emis by exact ND1. fold t2. rewrite E1, map_map.
    apply map_ext_in. intros x Hx. apply sweepOne_absorb; [exact Ht|].
    pose proof (emi_interest_pos _ _ (inv_emi _ _ I x Hx)). lia. }
  assert (E2 : emis (fst (processOverdueEMIs now2 db))
               = map (sweepOne t2) (emis db)) by (apply sweep_emis, ND).
  apply DB_ext.
  - rewrite E12, E2. reflexivity.
  - rewrite (sweep_loans now2 db1), (sweep_loans now2 db). fold t2.
    unfold db1 at 2. rewrite (sweep_loans now1 db). fold t1.
    rewrite map_map. apply map_ext. intros l. rewrite inc_penalty_id, inc_penalty_twice.
    f_equal.
    pose proof (sweep_penalty_delta t1 (Loan._id l) (emis db)) as D1.
    pose proof (sweep_penalty_delta t2 (Loan._id l) (emis db)) as D2.
    pose proof (sweep_penalty_delta t2 (Loan._id l) (emis db1)) as D12.
    rewrite <- E1 in D1.
    assert (Eq : map (sweepOne t2) (emis db1) = map (sweepOne t2) (emis db)).
    { rewrite <- E12. symmetry. apply sweep_emis, ND1. }
    rewrite Eq in D12. lia.
  - rewrite !sweep_nextId. unfold db1. apply sweep_nextId.
Qed.

Lemma sweep_absorbs_earlier_run_witness :
  fst (processOverdueEMIs (day 15)
         (fst (processOverdueEMIs (day 13) (approvedLoanDB 1000 3))))
  = fst (processOverdueEMIs (day 15) (approvedLoanDB 1000 3)).
Proof.
  apply (sweep_absorbs_earlier_run demoEnv (day 11)).
  - apply run_two. vm_compute. discriminate.
  - vm_compute. discriminate.
Defined.

(** ** Every request, by its effect *)

Lemma creditAll_keeps (ref : string) (now : Z) (batch : list EMI.t)
  (loan : Loan.t) :
  let l' := creditAll ref now batch loan in
  Loan.userId l' = Loan.userId loan
  /\ Loan.dailyEMI l' = Loan.dailyEMI loan
  /\ Loan.dailyInterest l' = Loan.dailyInterest loan
  /\ Loan.approvedAt l' = Loan.approvedAt loan
  /\ Loan.startDate l' = Loan.startDate loan
  /\ Loan.endDate l' = Loan.endDate loan
  /\ Loan.autopayEnabled l' = Loan.autopayEnabled loan
  /\ Loan.autopayStatus l' = Loan.autopayStatus loan.
Proof.
  revert loan. induction batch as [|e r IH]; intros loan.
  - repeat split; reflexivity.
  - unfold creditAll in *. cbn [fold_left].
    destruct (IH (Loan.credit (EMI.settle ref now e) loan))
      as (H1 & H2 & H3 & H4 & H5 & H6 & H7 & H8).
    cbn [Loan.credit Loan.userId Loan.dailyEMI Loan.dailyInterest
         Loan.approvedAt Loan.startDate Loan.endDate Loan.autopayEnabled
         Loan.autopayStatus] in *.
    repeat split; assumption.
Qed.

Lemma credited_settled (c : bool) (db' : DB) (ref : string) (now : Z)
  (batch : list EMI.t) (loan : Loan.t) :
  (c = true -> batch <> [] ->
   EMI_countDocuments (unpaidOf (Loan._id loan)) db' <> 0%nat) ->
  loan_settled c db' batch loan (creditAll ref now batch loan).
Proof.
  intros H.
  destruct (creditAll_frame ref now batch loan)
    as (F1 & F2 & F3 & F4 & F5 & F6 & F7 & F8).
  destruct (creditAll_keeps ref now batch loan)
    as (K1 & K2 & K3 & K4 & K5 & K6 & _).
  unfold loan_settled. repeat (split; [assumption|]). left. split; assumption.
Qed.

Lemma completed_settled (c : bool) (db' : DB) (ref : string) (now : Z)
  (batch : list EMI.t) (loan : Loan.t) :
  batch <> [] -> EMI_countDocuments (unpaidOf (Loan._id loan)) db' = 0%nat ->
  loan_settled c db' batch loan
    (Loan.set_status Loan.completed (creditAll ref now batch loan)).
Proof.
  intros Ne H.
  destruct (creditAll_frame ref now batch loan)
    as (F1 & F2 & F3 & F4 & F5 & F6 & F7 & F8).
  destruct (creditAll_keeps ref now batch loan)
    as (K1 & K2 & K3 & K4 & K5 & K6 & _).
  unfold loan_settled.
  cbn [Loan.set_status Loan._id Loan.userId Loan.amount Loan.totalDays
       Loan.dailyEMI Loan.dailyInterest Loan.interestRate Loan.penaltyAmount
       Loan.approvedAt Loan.startDate Loan.endDate Loan.totalPaid
       Loan.remainingBalance Loan.status].
  repeat (split; [assumption|]). right. left. auto.
Qed.

Lemma count_ext (q : EMI.t -> bool) (db db' : DB) :
  emis db' = emis db -> EMI_countDocuments q db' = EMI_countDocuments q db.
Proof. unfold EMI_countDocuments, EMI_find. intros ->. reflexivity. Qed.

(** The block shared by /simulate, /verify and mark-paid. *)
Lemma single_effect (t now : Z) (req : Request) (db : DB) (id : nat)
  (emi : EMI.t) (ref : string) :
  ledger_inv t db -> EMI_findById id db = Some emi ->
  (noRedelivery db req -> isPaid emi = false) ->
  effect now req db
         (updateLoanTotals (EMI.settle ref now emi)
                           (EMI_save (EMI.settle ref now emi) db)).
Proof.
  intros I F G. destruct (EMI_findById_In _ _ _ F) as [Hin _].
  pose proof (inv_emi_ids _ _ I) as NDe. pose proof (inv_loan_ids _ _ I) as NDl.
  destruct (inv_owner _ _ I emi Hin) as [loan [Hl [Hid _]]].
  set (emi' := EMI.settle ref now emi).
  set (db1 := EMI_save emi' db).
  assert (FL : Loan_findById (EMI.loanId emi') db1 = Some loan).
  { unfold emi'. cbn [EMI.settle EMI.loanId]. rewrite <- Hid.
    apply (In_find_loan db); assumption. }
  set (loan1 := Loan.credit emi' loan).
  set (loan2 := if Nat.eqb (EMI_countDocuments (unpaidOf (Loan._id loan1)) db1) 0
                then Loan.set_status Loan.completed loan1 else loan1).
  assert (U : updateLoanTotals emi' db1
              = with_loans (map (replace_loan loan2) (loans db1)) db1).
  { unfold updateLoanTotals. rewrite FL. fold loan1. fold loan2.
    apply (Loan_save_same_terms loan2 loan db1).
    - unfold loan2. destruct (Nat.eqb _ 0); cbn; rewrite Hid; exact FL.
    - unfold loan2. destruct (Nat.eqb _ 0); reflexivity.
    - unfold loan2. destruct (Nat.eqb _ 0); reflexivity. }
  rewrite U.
  apply (eff_settle now req db _ ref [emi] loan loan2).
  - intros x [<- | []]; exact Hin.
  - repeat constructor; intros [].
  - intros b [<- | []]; symmetry; exact Hid.
  - intros N b [<- | []]. apply G, N.
  - exact Hl.
  - cbn. apply map_ext_in. intros x Hx. unfold replace_emi, settleIn.
    cbn [existsb]. rewrite orb_false_r, sameId_eqb.
    unfold emi'. cbn [EMI.settle EMI._id].
    destruct (Nat.eqb (EMI._id x) (EMI._id emi)) eqn:E; [|reflexivity].
    apply Nat.eqb_eq in E. rewrite (in_same_id (emis db) x emi NDe Hx Hin E).
    reflexivity.
  - reflexivity.
  - reflexivity.
  - assert (X : forall d,
               EMI_countDocuments (unpaidOf (Loan._id loan)) d
               = EMI_countDocuments (unpaidOf (Loan._id loan1)) db1 ->
               loan_settled (completes req) d [emi] loan loan2).
    { intros d Ec. unfold loan2.
      destruct (Nat.eqb (EMI_countDocuments (unpaidOf (Loan._id loan1)) db1) 0) eqn:C.
      - apply Nat.eqb_eq in C.
        apply (completed_settled _ _ ref now [emi] loan); [discriminate|].
        rewrite Ec. exact C.
      - apply Nat.eqb_neq in C.
        apply (credited_settled _ _ ref now [emi] loan).
        intros _ _. rewrite Ec. exact C. }
    apply X. apply count_ext. reflexivity.
Qed.

Lemma charged_effect (t now : Z) (req : Request) (db : DB)
  (payload : WebhookPayload) :
  ledger_inv t db -> completes req = true ->
  effect now req db (handleSubscriptionCharged payload now db).
Proof.
  intros I Cq. unfold handleSubscriptionCharged.
  destruct (subscriptionEntity payload) as [[loanId|]|];
    destruct (paymentEntity payload) as [paymentId|];
    try (apply eff_none; reflexivity).
  set (batch := oldestUnpaid loanId db).
  destruct (Nat.eqb (List.length batch) 0) eqn:E0;
    [apply eff_none; reflexivity|].
  destruct (Loan_findById loanId db) as [loan|] eqn:F;
    [|apply eff_none; reflexivity].
  destruct (Loan_findById_id _ _ _ F) as [Hid Hl].
  pose proof (inv_emi_ids _ _ I) as NDe.
  rewrite batch_fold.
  destruct (creditAll_frame paymentId now batch loan)
    as (F1 & F2 & F3 & F4 & F5 & F6 & F7 & F8).
  set (db1 := with_emis _ db).
  set (loan2 := if Nat.eqb (EMI_countDocuments (unpaidOf loanId) db1) 0
                then Loan.set_status Loan.completed (creditAll paymentId now batch loan)
                else creditAll paymentId now batch loan).
  assert (Ne : batch <> [])
    by (intros N; rewrite N in E0; discriminate).
  assert (G : Loan._id loan2 = loanId /\ Loan.amount loan2 = Loan.amount loan
              /\ Loan.totalDays loan2 = Loan.totalDays loan).
  { unfold loan2.
    destruct (Nat.eqb (EMI_countDocuments (unpaidOf loanId) db1) 0);
      cbn [Loan.set_status Loan._id Loan.amount Loan.totalDays];
      repeat split; congruence. }
  destruct G as (G1 & G2 & G3).
  rewrite (Loan_save_same_terms loan2 loan db1)
    by (try rewrite G1; assumption).
  apply (eff_settle now req db _ paymentId batch loan loan2).
  - intros e He. apply (oldestUnpaid_incl loanId db e He).
  - apply oldestUnpaid_NoDup, NDe.
  - intros b Hb. destruct (oldestUnpaid_incl loanId db b Hb) as [_ U].
    apply unpaidOf_spec in U. destruct U as [U _]. congruence.
  - intros _ b Hb. destruct (oldestUnpaid_incl loanId db b Hb) as [_ U].
    apply unpaidOf_spec in U. tauto.
  - exact Hl.
  - cbn. apply batch_emis; [exact NDe|].
    intros e He. apply (oldestUnpaid_incl loanId db e He).
  - reflexivity.
  - reflexivity.
  - assert (X : forall d,
               EMI_countDocuments (unpaidOf (Loan._id loan)) d
               = EMI_countDocuments (unpaidOf loanId) db1 ->
               loan_settled (completes req) d batch loan loan2).
    { intros d Ec. unfold loan2.
      destruct (Nat.eqb (EMI_countDocuments (unpaidOf loanId) db1) 0) eqn:C.
      - apply Nat.eqb_eq in C.
        apply (completed_settled _ _ paymentId now batch loan); [exact Ne|].
        rewrite Ec. exact C.
      - apply Nat.eqb_neq in C.
        apply (credited_settled _ _ paymentId now batch loan).
        intros _ _. rewrite Ec. exact C. }
    apply X. rewrite Hid. apply count_ext. reflexivity.
Qed.

Lemma verifyAutopay_effect (t now : Z) (req : Request) (db : DB) (id : nat)
  (loan : Loan.t) (ref : string) :
  ledger_inv t db -> Loan_findById id db = Some loan -> completes req = false ->
  let loan0 := Loan.set_autopay true Loan.active loan in
  let db0 := Loan_save loan0 db in
  let firstBatch := oldestUnpaid (Loan._id loan0) db0 in
  effect now req db
    (let (db1, loan1) := fold_left (batchStep ref now) firstBatch (db0, loan0)
     in Loan_save loan1 db1).
Proof.
  intros I F Cq loan0 db0 firstBatch.
  destruct (Loan_findById_id _ _ _ F) as [Hid Hl].
  pose proof (inv_emi_ids _ _ I) as NDe.
  assert (E0 : db0 = with_loans (map (replace_loan loan0) (loans db)) db).
  { unfold db0. apply (Loan_save_same_terms loan0 loan db); [|reflexivity..].
    unfold loan0. cbn. rewrite Hid. exact F. }
  assert (B : firstBatch = oldestUnpaid id db).
  { unfold firstBatch. rewrite E0. unfold loan0. cbn [Loan.set_autopay Loan._id].
    rewrite Hid. apply oldestUnpaid_ext. reflexivity. }
  rewrite batch_fold.
  destruct (creditAll_frame ref now firstBatch loan0)
    as (F1 & F2 & F3 & F4 & F5 & F6 & F7 & F8).
  destruct (creditAll_keeps ref now firstBatch loan0)
    as (K1 & K2 & K3 & K4 & K5 & K6 & _).
  set (loan1 := creditAll ref now firstBatch loan0) in *.
  set (db1 := with_emis _ db0).
  assert (F0 : Loan_findById (Loan._id loan1) db1 = Some loan0).
  { unfold Loan_findById, db1. cbn [with_emis loans]. rewrite E0, F1.
    cbn [with_loans loans]. apply find_replace_loan. exists loan.
    unfold loan0. cbn. rewrite Hid. exact F. }
  rewrite (Loan_save_same_terms loan1 loan0 db1 F0 F2 F3).
  apply (eff_settle now req db _ ref firstBatch loan loan1).
  - rewrite B. intros e He. apply (oldestUnpaid_incl id db e He).
  - rewrite B. apply oldestUnpaid_NoDup, NDe.
  - intros b Hb. rewrite B in Hb.
    destruct (oldestUnpaid_incl id db b Hb) as [_ U].
    apply unpaidOf_spec in U. destruct U as [U _]. congruence.
  - intros _ b Hb. rewrite B in Hb.
    destruct (oldestUnpaid_incl id db b Hb) as [_ U].
    apply unpaidOf_spec in U. tauto.
  - exact Hl.
  - unfold db1. cbn [with_loans with_emis emis]. rewrite E0. cbn [with_loans emis].
    apply batch_emis; [exact NDe|]. rewrite B.
    intros e He. apply (oldestUnpaid_incl id db e He).
  - unfold db1. cbn [with_loans with_emis loans]. rewrite E0. cbn [with_loans loans].
    rewrite map_map. apply map_ext. intros x.
    apply replace_loan_twice. exact F1.
  - unfold db1; rewrite E0; reflexivity.
  - unfold loan_settled. rewrite Cq.
    repeat (split; [assumption|]). left. split; [exact F4 | discriminate].
Qed.

Lemma loan_only_effect (now : Z) (req : Request) (db : DB) (loan loanX : Loan.t) :
  In loan (loans db) ->
  loan_settled (completes req)
    (with_loans (map (replace_loan loanX) (loans db)) db) [] loan loanX ->
  effect now req db (with_loans (map (replace_loan loanX) (loans db)) db).
Proof.
  intros Hl T.
  apply (eff_settle now req db _ EmptyString [] loan loanX); auto.
  - intros x [].
  - constructor.
  - intros b [].
  - intros _ b [].
  - apply settleIn_nil.
Qed.

Lemma reject_effect (t now : Z) (id : nat) (db : DB) :
  ledger_inv t db -> effect now (ReqReject id) db (fst (reject id db)).
Proof.
  intros I. unfold reject.
  destruct (Loan_findById id db) as [loan|] eqn:F; [|apply eff_none; reflexivity].
  destruct (isPending loan) eqn:P; [|apply eff_none; reflexivity].
  destruct (Loan_findById_id _ _ _ F) as [Hid Hl]. cbn [negb fst].
  rewrite (Loan_save_same_terms (Loan.set_status Loan.rejected loan) loan db);
    [|cbn; rewrite Hid; exact F | reflexivity..].
  apply (loan_only_effect now _ db loan); [exact Hl|].
  unfold loan_settled. cbn. repeat (split; [first [reflexivity | lia]|]).
  split; [apply Qminus_0|]. right. right.
  unfold isPending in P. destruct (Loan.status loan);
    first [discriminate P | auto].
Qed.

Lemma cancelled_effect (t now : Z) (payload : WebhookPayload) (req : Request)
  (db : DB) :
  ledger_inv t db ->
  effect now req db (handleSubscriptionCancelled payload db).
Proof.
  intros I. unfold handleSubscriptionCancelled.
  destruct (subscriptionEntity payload) as [[loanId|]|];
    try (apply eff_none; reflexivity).
  destruct (Loan_findById loanId db) as [loan|] eqn:F.
  - destruct (Loan_findById_id _ _ _ F) as [Hid Hl].
    set (loanX := Loan.set_autopay false Loan.cancelled loan).
    assert (E : map (fun x => if Nat.eqb (Loan._id x) loanId
                              then Loan.set_autopay false Loan.cancelled x else x)
                    (loans db)
                = map (replace_loan loanX) (loans db)).
    { apply map_ext_in. intros x Hx. unfold replace_loan, loanX.
      cbn [Loan.set_autopay Loan._id]. rewrite Hid.
      destruct (Nat.eqb (Loan._id x) loanId) eqn:E; [|reflexivity].
      apply Nat.eqb_eq in E.
      rewrite (loan_same_id (loans db) x loan (inv_loan_ids _ _ I) Hx Hl);
        [reflexivity | congruence]. }
    rewrite E. apply (loan_only_effect now req db loan); [exact Hl|].
    unfold loan_settled, loanX. cbn. repeat (split; [first [reflexivity | lia]|]).
    split; [apply Qminus_0|]. left. split; [reflexivity|].
    intros _ N. contradiction.
  - apply eff_none.
    assert (E : map (fun x => if Nat.eqb (Loan._id x) loanId
                              then Loan.set_autopay false Loan.cancelled x else x)
                    (loans db)
                = loans db).
    { rewrite <- (map_id (loans db)) at 2. apply map_ext_in. intros x Hx.
      unfold Loan_findById in F. rewrite (find_none _ _ F x Hx). reflexivity. }
    rewrite E. apply with_loans_same.
Qed.

Lemma apply_effect (t now : Z) (user : nat) (amount : JS.Int) (db : DB) :
  ledger_inv t db ->
  effect now (ReqApply user amount) db (fst (apply user amount db)).
Proof.
  intros I. unfold apply. destruct amount as [|a]; [apply eff_none; reflexivity|].
  destruct (amountInRange a) eqn:R; [|apply eff_none; reflexivity]. cbn [negb].
  destruct (existsb _ (loans db)) eqn:Ex; [apply eff_none; reflexivity|].
  apply (eff_apply now _ db _ user a); [exact R | |].
  - intros l Hl U. unfold isPending.
    pose proof (existsb_exists
                  (fun l => Nat.eqb (Loan.userId l) user
                            && match Loan.status l with
                               | Loan.pending => true
                               | _ => false
                               end) (loans db)) as X.
    destruct (Loan.status l) eqn:S; try reflexivity.
    exfalso. assert (T : existsb
                           (fun l => Nat.eqb (Loan.userId l) user
                                     && match Loan.status l with
                                        | Loan.pending => true
                                        | _ => false
                                        end) (loans db) = true).
    { apply X. exists l. split; [exact Hl|]. rewrite U, S, Nat.eqb_refl. reflexivity. }
    rewrite Ex in T. discriminate.
  - unfold Loan_save. cbn [newLoan Loan._id].
    rewrite (fresh_not_found t db (nextId db) I (Nat.le_refl _)). reflexivity.
Qed.

Lemma approve_as_effect (t now : Z) (id : nat) (amount totalDays : option JS.Int)
  (db : DB) :
  ledger_inv t db ->
  effect now (ReqApprove id amount totalDays) db
         (fst (approve id amount totalDays now db)).
Proof.
  intros I.
  destruct (approve_cases id amount totalDays now db) as [E | C];
    [apply eff_none; exact E|].
  destruct (approve id amount totalDays now db) as [db' code] eqn:A.
  cbn [fst snd] in *. subst code. apply approve_ok in A.
  destruct A as (loan & amt & days & F & P & Ha & Hd & ->).
  destruct (Loan_findById_id _ _ _ F) as [Hid Hl].
  set (loan1 := Loan.set_status Loan.approved (Loan.set_terms amt days 20 loan)).
  assert (F1 : Loan_findById (Loan._id loan1) db = Some loan)
    by (unfold loan1; cbn [Loan.set_status Loan.set_terms Loan._id];
        rewrite Hid; exact F).
  destruct (generateEMISchedule_spec now loan1 loan db F1) as (_ & He & Hn & Hl').
  apply (eff_approve now _ db _ loan amt days).
  - exact Hl.
  - exact P.
  - destruct Ha as [[_ ->] | [_ R]]; auto.
  - destruct Hd as [[_ ->] | [_ R]]; auto.
  - exact He.
  - exact Hl'.
  - rewrite Hn, buildSchedule_length. reflexivity.
Qed.

Lemma delete_effect (now : Z) (id : nat) (db : DB) :
  effect now (ReqDeleteLoan id) db (fst (deleteLoan id db)).
Proof.
  destruct (deleteLoan_cases id db) as [E | (loan & Hl & Ee & El & En)];
    [apply eff_none; exact E|].
  apply (eff_delete now _ db _ loan); assumption.
Qed.

Lemma sweep_as_effect (t now : Z) (db : DB) :
  ledger_inv t db ->
  effect now ReqProcessOverdues db (fst (processOverdueEMIs now db)).
Proof.
  intros I. apply eff_sweep.
  - apply sweep_emis, (inv_emi_ids _ _ I).
  - apply sweep_loans.
  - apply sweep_nextId.
Qed.

(** Every request is one of the six effects. *)
Lemma handle_effect (env : Env) (t now : Z) (req : Request) (db : DB) :
  ledger_inv t db -> effect now req db (fst (handle env now req db)).
Proof.
  intros I. destruct req; cbn [handle].
  - apply (apply_effect t); exact I.
  - apply (approve_as_effect t); exact I.
  - apply (reject_effect t); exact I.
  - apply delete_effect.
  - unfold simulate.
    destruct emiId as [id|]; [|apply eff_none; reflexivity].
    destruct (EMI_findById id db) as [emi|] eqn:F; [|apply eff_none; reflexivity].
    destruct (negb (Nat.eqb (EMI.userId emi) user)); [apply eff_none; reflexivity|].
    destruct (isPaid emi) eqn:P; [apply eff_none; reflexivity|].
    apply (single_effect t now _ db id); auto.
  - unfold verify.
    destruct (missing order_id || missing payment_id || missing signature
              || match emiId with None => true | Some _ => false end);
      [apply eff_none; reflexivity|].
    destruct (negb (String.eqb _ _)); [apply eff_none; reflexivity|].
    destruct emiId as [id|]; [|apply eff_none; reflexivity].
    destruct (EMI_findById id db) as [emi|] eqn:F; [|apply eff_none; reflexivity].
    apply (single_effect t now _ db id); [exact I | exact F |].
    intros G. apply (G emi F).
  - unfold markPaid.
    destruct (EMI_findById emiId db) as [emi|] eqn:F; [|apply eff_none; reflexivity].
    destruct (isPaid emi) eqn:P; [apply eff_none; reflexivity|].
    apply (single_effect t now _ db emiId); auto.
  - unfold webhook.
    destruct (RAZORPAY_WEBHOOK_SECRET env) as [secret|]; [|apply eff_none; reflexivity].
    destruct (String.eqb secret EmptyString); [apply eff_none; reflexivity|].
    destruct (missing signature); [apply eff_none; reflexivity|].
    destruct (negb (String.eqb _ _)); [apply eff_none; reflexivity|].
    destruct (JSON_parse env rawBody) as [payload|]; [|apply eff_none; reflexivity].
    cbn [fst]. unfold handleWebhookEvent.
    destruct (event payload); try (apply eff_none; reflexivity).
    + apply (charged_effect t); [exact I | reflexivity].
    + apply (cancelled_effect t); exact I.
  - unfold verifyAutopay.
    destruct (missing subscription_id || missing payment_id || missing signature
              || match loanId with None => true | Some _ => false end);
      [apply eff_none; reflexivity|].
    destruct (negb (String.eqb _ _)); [apply eff_none; reflexivity|].
    destruct loanId as [id|]; [|apply eff_none; reflexivity].
    destruct (Loan_findById id db) as [loan|] eqn:F; [|apply eff_none; reflexivity].
    pose proof (verifyAutopay_effect t now
                  (ReqVerifyAutopay subscription_id payment_id signature (Some id))
                  db id loan (field payment_id) I F eq_refl) as S.
    cbv zeta in S.
    destruct (fold_left _ _ _) as [db1 loan1]. exact S.
  - apply (sweep_as_effect t); exact I.
Qed.

(** ** Schedules, dates and statuses under each effect *)

Lemma ceiling_unique (y : Q) (a : Z) :
  (inject_Z (a - 1) < y)%Q -> (y <= inject_Z a)%Q -> Qceiling y = a.
Proof.
  intros L U. pose proof (Qle_ceiling y) as C1. pose proof (Qceiling_lt y) as C2.
  assert (A : (inject_Z (a - 1) < inject_Z (Qceiling y))%Q)
    by (eapply Qlt_le_trans; eassumption).
  assert (B : (inject_Z (Qceiling y - 1) < inject_Z a)%Q)
    by (eapply Qlt_le_trans; eassumption).
  rewrite <- Zlt_Qlt in A, B. lia.
Qed.

(** [Math.ceil] of a fraction plus a whole number. *)
Lemma ceil_plus_whole (x : Q) (z : Z) :
  JS.Math_ceil (x + inject_Z z)%Q = JS.Math_ceil x + z.
Proof.
  unfold JS.Math_ceil. apply ceiling_unique.
  - pose proof (Qceiling_lt x) as C.
    replace (Qceiling x + z - 1) with ((Qceiling x - 1) + z) by lia.
    rewrite inject_Z_plus. lra.
  - pose proof (Qle_ceiling x) as C. rewrite inject_Z_plus. lra.
Qed.

Lemma recompute_terms (l : Loan.t) :
  Loan.interestRate l = 20 -> terms_ok (Loan.recompute l).
Proof.
  intros R. unfold terms_ok.
  cbn [Loan.recompute Loan.dailyInterest Loan.dailyEMI Loan.amount Loan.totalDays].
  rewrite ceil_plus_whole, <- (dailyInterestOf_total l R).
  split; reflexivity.
Qed.

Lemma approvedLoan_fields (now amt days : Z) (loan : Loan.t) :
  let l' := approvedLoan now amt days loan in
  Loan._id l' = Loan._id loan /\ Loan.userId l' = Loan.userId loan
  /\ Loan.amount l' = amt /\ Loan.totalDays l' = days
  /\ Loan.status l' = Loan.approved /\ Loan.interestRate l' = 20
  /\ Loan.totalPaid l' = Loan.totalPaid loan
  /\ Loan.penaltyAmount l' = Loan.penaltyAmount loan
  /\ Loan.approvedAt l' = Some now
  /\ Loan.startDate l' = Some (scheduleStart now)
  /\ Loan.endDate l' = Some (JS.addDays (scheduleStart now) (days - 1)).
Proof.
  unfold approvedLoan. destruct (isModified_terms _ _); cbn; repeat split.
Qed.

Lemma approvedLoan_terms (now amt days : Z) (loan : Loan.t) :
  terms_ok loan -> terms_ok (approvedLoan now amt days loan).
Proof.
  intros [T1 T2]. unfold approvedLoan.
  destruct (isModified_terms _ _) eqn:M.
  - apply recompute_terms. reflexivity.
  - unfold isModified_terms in M. apply orb_false_iff in M.
    destruct M as [M1 M2]. apply negb_false_iff in M1, M2.
    apply Z.eqb_eq in M1, M2. cbn in M1, M2.
    unfold terms_ok. cbn. rewrite <- M1, <- M2. split; assumption.
Qed.

Lemma replace_loan_cases (ls : list Loan.t) (loan loanX l : Loan.t) :
  NoDup (map Loan._id ls) -> In loan ls -> Loan._id loanX = Loan._id loan ->
  In l ls ->
  (l = loan /\ replace_loan loanX l = loanX)
  \/ (Loan._id l <> Loan._id loan /\ replace_loan loanX l = l).
Proof.
  intros ND Hloan Hid Hl. unfold replace_loan.
  destruct (Nat.eqb (Loan._id l) (Loan._id loanX)) eqn:E.
  - left. apply Nat.eqb_eq in E. split; [|reflexivity].
    apply (loan_same_id ls); auto. congruence.
  - right. apply Nat.eqb_neq in E. split; [congruence | reflexivity].
Qed.

Lemma settleIn_keeps (ref : string) (now : Z) (batch : list EMI.t) :
  emi_kept (settleIn ref now batch).
Proof.
  intros x. unfold settleIn. destruct (existsb _ _); repeat split; auto.
Qed.

Lemma sweepOne_keeps (today : Z) : emi_kept (sweepOne today).
Proof.
  intros x. destruct (sweepOne_frame today x) as (F1 & F2 & _ & _ & F5).
  repeat split; try assumption;
    try (unfold sweepOne; destruct (_ && _); reflexivity).
  intros P. rewrite F5. exact P.
Qed.

Lemma settled_kept (t : Z) (c : bool) (db db' : DB) (batch : list EMI.t)
  (loan loanX : Loan.t) :
  ledger_inv t db -> In loan (loans db) -> incl batch (emis db) ->
  (forall b, In b batch -> EMI.loanId b = Loan._id loan) ->
  loan_settled c db' batch loan loanX ->
  loan_kept db (replace_loan loanX).
Proof.
  intros I Hloan Hincl Hb
    (S1 & S2 & S3 & S4 & S5 & S6 & S7 & S8 & S9 & S10 & S11 & S12 & S13 & S14).
  intros l Hl.
  destruct (replace_loan_cases (loans db) loan loanX l (inv_loan_ids _ _ I)
              Hloan S1 Hl) as [[-> ->] | [_ ->]];
    [|repeat split; auto].
  repeat (split; [assumption|]). split.
  - intros A. destruct S14 as [[S _] | [(Ne & S & _) | (_ & _ & S)]].
    + unfold isActive in *. rewrite <- S. exact A.
    + destruct batch as [|b r]; [contradiction|].
      assert (Hin : In b (emis db)) by (apply Hincl; left; reflexivity).
      destruct (inv_owner _ _ I b Hin) as [l0 [Hl0 [Hid0 [A0 _]]]].
      assert (l0 = loan).
      { apply (loan_same_id (loans db)); auto; [apply (inv_loan_ids _ _ I)|].
        rewrite Hid0. apply Hb. left. reflexivity. }
      subst l0. exact A0.
    + unfold isActive in A. rewrite S in A. discriminate.
  - intros P. destruct S14 as [[S _] | [(_ & S & _) | (_ & _ & S)]];
      unfold isPending in *; rewrite S in P; [exact P | discriminate..].
Qed.

Lemma swept_kept (db : DB) (d : nat -> Z) :
  loan_kept db (fun l => Loan.inc_penalty (d (Loan._id l)) l).
Proof. intros l _. repeat split; auto. Qed.

Lemma emisOf_in (id : nat) (db : DB) (e : EMI.t) :
  In e (emisOf id db) <-> In e (emis db) /\ EMI.loanId e = id.
Proof.
  unfold emisOf, EMI_find, ofLoan. rewrite filter_In, Nat.eqb_eq. reflexivity.
Qed.

(** The parts of [schedule_inv] that any pair of maps keeping the
    installments' and the loans' fixed fields preserves. *)
Lemma kept_schedule (db db' : DB) (f : EMI.t -> EMI.t) (g : Loan.t -> Loan.t) :
  emis db' = map f (emis db) -> loans db' = map g (loans db) ->
  emi_kept f -> loan_kept db g ->
  schedule_inv db ->
  (forall l, In l (loans db') -> isActive l = true ->
     map EMI.dayNumber (emisOf (Loan._id l) db')
     = map Z.of_nat (seq 1 (Z.to_nat (Loan.totalDays l))))
  /\ (forall e l, In e (emis db') -> In l (loans db') ->
        Loan._id l = EMI.loanId e -> EMI.userId e = Loan.userId l)
  /\ (forall l, In l (loans db') -> isActive l = true -> dated db' l)
  /\ (forall l, In l (loans db') -> terms_ok l)
  /\ (forall l1 l2, In l1 (loans db') -> In l2 (loans db') ->
        isPending l1 = true -> isPending l2 = true ->
        Loan.userId l1 = Loan.userId l2 -> l1 = l2).
Proof.
  intros Ee El Kf Kg [D U Dt T _ OP _].
  assert (M : forall id, emisOf id db' = map f (emisOf id db))
    by (intros id; apply emisOf_map; [intros; apply Kf | exact Ee]).
  split; [|split; [|split; [|split]]].
  - intros l' Hl' A. rewrite El in Hl'. apply in_map_iff in Hl'.
    destruct Hl' as [l [<- Hl]].
    destruct (Kg l Hl) as (G1 & _ & _ & G4 & _ & _ & _ & _ & _ & GA & _).
    rewrite G1, G4, M, map_map, <- (D l Hl (GA A)).
    apply map_ext. intros x. apply Kf.
  - intros e' l' He' Hl' Hid. rewrite Ee in He'. rewrite El in Hl'.
    apply in_map_iff in He', Hl'.
    destruct He' as [e [<- He]]. destruct Hl' as [l [<- Hl]].
    destruct (Kf e) as (_ & F2 & F3 & _).
    destruct (Kg l Hl) as (G1 & G2 & _).
    rewrite F3, G2. apply U; auto. congruence.
  - intros l' Hl' A. rewrite El in Hl'. apply in_map_iff in Hl'.
    destruct Hl' as [l [<- Hl]].
    destruct (Kg l Hl) as (G1 & _ & _ & G4 & _ & _ & G7 & G8 & G9 & GA & _).
    destruct (Dt l Hl (GA A)) as (ap & D1 & D2 & D3 & D4).
    exists ap. rewrite G7, G8, G9, G4, G1.
    repeat (split; [assumption|]).
    intros e' He'. rewrite M in He'. apply in_map_iff in He'.
    destruct He' as [e [<- He]].
    destruct (Kf e) as (_ & _ & _ & F4 & F5 & _). rewrite F4, F5. apply D4, He.
  - intros l' Hl'. rewrite El in Hl'. apply in_map_iff in Hl'.
    destruct Hl' as [l [<- Hl]].
    destruct (Kg l Hl) as (_ & _ & G3 & G4 & G5 & G6 & _).
    destruct (T l Hl) as [T1 T2]. unfold terms_ok. rewrite G3, G4, G5, G6.
    split; assumption.
  - intros l1' l2' H1 H2 P1 P2 Us. rewrite El in H1, H2.
    apply in_map_iff in H1, H2.
    destruct H1 as [l1 [<- H1]]. destruct H2 as [l2 [<- H2]].
    destruct (Kg l1 H1) as (_ & U1 & _ & _ & _ & _ & _ & _ & _ & _ & Q1).
    destruct (Kg l2 H2) as (_ & U2 & _ & _ & _ & _ & _ & _ & _ & _ & Q2).
    rewrite (OP l1 l2 H1 H2 (Q1 P1) (Q2 P2)); [reflexivity|]. congruence.
Qed.

Lemma none_unpaid (id : nat) (db : DB) (e : EMI.t) :
  EMI_countDocuments (unpaidOf id) db = 0%nat ->
  In e (emisOf id db) -> isPaid e = true.
Proof.
  unfold EMI_countDocuments, EMI_find. intros C He.
  apply length_zero_iff_nil in C. apply emisOf_in in He. destruct He as [He Hid].
  destruct (isPaid e) eqn:P; [reflexivity|]. exfalso.
  assert (In e (filter (unpaidOf id) (emis db))).
  { apply filter_In. split; [exact He|]. apply unpaidOf_spec. auto. }
  rewrite C in H. contradiction.
Qed.

Lemma settle_schedule (t now : Z) (c : bool) (db db' : DB) (ref : string)
  (batch : list EMI.t) (loan loanX : Loan.t) :
  ledger_inv t db -> schedule_inv db ->
  incl batch (emis db) ->
  (forall b, In b batch -> EMI.loanId b = Loan._id loan) ->
  In loan (loans db) ->
  emis db' = map (settleIn ref now batch) (emis db) ->
  loans db' = map (replace_loan loanX) (loans db) ->
  loan_settled c db' batch loan loanX ->
  schedule_inv db'.
Proof.
  intros I S Hincl Hb Hloan Ee El Ls.
  pose proof (settled_kept t c db db' batch loan loanX I Hloan Hincl Hb Ls) as Kg.
  pose proof (settleIn_keeps ref now batch) as Kf.
  destruct (kept_schedule db db' _ _ Ee El Kf Kg S) as (K1 & K2 & K3 & K4 & K5).
  assert (M : forall id, emisOf id db' = map (settleIn ref now batch) (emisOf id db))
    by (intros id; apply emisOf_map; [intros; apply Kf | exact Ee]).
  constructor; auto.
  - intros l' Hl' St e' He'. rewrite El in Hl'. apply in_map_iff in Hl'.
    destruct Hl' as [l [E Hl]].
    destruct Ls as (S1 & _ & _ & _ & _ & _ & _ & _ & _ & _ & _ & _ & _ & S14).
    destruct (replace_loan_cases (loans db) loan loanX l (inv_loan_ids _ _ I)
                Hloan S1 Hl) as [[-> R] | [_ R]]; rewrite R in E; subst l'.
    + destruct S14 as [[Ss _] | [(_ & _ & C) | (_ & _ & Sr)]].
      * rewrite S1, M in He'. apply in_map_iff in He'.
        destruct He' as [e [<- He]]. apply Kf.
        apply (sch_completed _ S loan Hloan); [congruence | exact He].
      * rewrite S1 in He'. apply (none_unpaid _ _ _ C He').
      * rewrite Sr in St. discriminate.
    + rewrite M in He'. apply in_map_iff in He'.
      destruct He' as [e [<- He]]. apply Kf.
      apply (sch_completed _ S l Hl St e He).
  - intros e' He'. rewrite Ee in He'. apply in_map_iff in He'.
    destruct He' as [e [<- He]]. unfold settleIn.
    destruct (existsb _ _); [|apply (sch_stamped _ S e He)].
    split; [intros _; split; discriminate | intros P; discriminate P].
Qed.

Lemma sweepOne_paid (today : Z) (e : EMI.t) :
  isPaid e = true -> sweepOne today e = e.
Proof.
  intros P. unfold sweepOne, lateQuery. unfold isPaid in P.
  destruct (EMI.status e); try discriminate P. reflexivity.
Qed.

Lemma sweep_schedule (db db' : DB) (today : Z) (d : nat -> Z) :
  schedule_inv db ->
  emis db' = map (sweepOne today) (emis db) ->
  loans db' = map (fun l => Loan.inc_penalty (d (Loan._id l)) l) (loans db) ->
  schedule_inv db'.
Proof.
  intros S Ee El.
  pose proof (swept_kept db d) as Kg.
  pose proof (sweepOne_keeps today) as Kf.
  destruct (kept_schedule db db' _ _ Ee El Kf Kg S) as (K1 & K2 & K3 & K4 & K5).
  assert (M : forall id, emisOf id db' = map (sweepOne today) (emisOf id db))
    by (intros id; apply emisOf_map; [intros; apply Kf | exact Ee]).
  constructor; auto.
  - intros l' Hl' St e' He'. rewrite El in Hl'. apply in_map_iff in Hl'.
    destruct Hl' as [l [<- Hl]]. cbn [Loan.inc_penalty Loan._id Loan.status] in *.
    rewrite M in He'. apply in_map_iff in He'. destruct He' as [e [<- He]].
    apply Kf. apply (sch_completed _ S l Hl St e He).
  - intros e' He'. rewrite Ee in He'. apply in_map_iff in He'.
    destruct He' as [e [<- He]]. pose proof (sch_stamped _ S e He) as [P1 P2].
    unfold sweepOne. destruct (lateQuery today e && applies today e) eqn:C;
      [|split; assumption].
    apply andb_true_iff in C. destruct C as [L _].
    apply lateQuery_status in L. destruct L as [L _].
    assert (N : isPaid e = false)
      by (unfold isPaid; destruct L as [-> | ->]; reflexivity).
    split; [intros P; discriminate P | intros _; apply (P2 N)].
Qed.

Lemma apply_schedule (t : Z) (db : DB) (user : nat) (a : Z) :
  ledger_inv t db -> schedule_inv db ->
  (forall l, In l (loans db) -> Loan.userId l = user -> isPending l = false) ->
  schedule_inv (mkDB (emis db)
                     (loans db ++ [Loan.recompute (newLoan (nextId db) user a 100)])
                     (S (nextId db))).
Proof.
  intros I [D U Dt T Cp OP St] NoP.
  set (new := Loan.recompute (newLoan (nextId db) user a 100)).
  set (db' := mkDB (emis db) (loans db ++ [new]) (S (nextId db))).
  assert (EO : forall id, emisOf id db' = emisOf id db) by reflexivity.
  constructor; cbn [emis loans].
  - intros l Hl A. apply in_app_or in Hl. destruct Hl as [Hl | [<- | []]].
    + rewrite EO. apply D; assumption.
    + discriminate A.
  - intros e l He Hl Hid. apply in_app_or in Hl. destruct Hl as [Hl | [<- | []]].
    + apply U; assumption.
    + exfalso. destruct (inv_owner _ _ I e He) as [l0 [Hl0 [Hid0 _]]].
      pose proof (inv_loan_fresh _ _ I l0 Hl0). cbn in Hid. lia.
  - intros l Hl A. apply in_app_or in Hl. destruct Hl as [Hl | [<- | []]].
    + destruct (Dt l Hl A) as (ap & D1 & D2 & D3 & D4).
      exists ap. repeat (split; [assumption|]). intros e He. apply D4.
      rewrite <- EO. exact He.
    + discriminate A.
  - intros l Hl. apply in_app_or in Hl. destruct Hl as [Hl | [<- | []]].
    + apply T, Hl.
    + apply recompute_terms. reflexivity.
  - intros l Hl S0 e He. apply in_app_or in Hl. destruct Hl as [Hl | [<- | []]].
    + apply (Cp l Hl S0). rewrite <- EO. exact He.
    + discriminate S0.
  - intros l1 l2 H1 H2 P1 P2 Us. apply in_app_or in H1, H2.
    destruct H1 as [H1 | [<- | []]], H2 as [H2 | [<- | []]].
    + apply OP; assumption.
    + exfalso. rewrite (NoP l1 H1) in P1; [discriminate|]. exact Us.
    + exfalso. rewrite (NoP l2 H2) in P2; [discriminate|]. symmetry. exact Us.
    + reflexivity.
  - exact St.
Qed.

Lemma approve_schedule (t now : Z) (db db' : DB) (loan : Loan.t) (amt days : Z) :
  ledger_inv t db -> schedule_inv db ->
  In loan (loans db) -> isPending loan = true ->
  emis db'
  = emis db
    ++ buildSchedule (Loan.set_status Loan.approved
                        (Loan.set_terms amt days 20 loan))
                     (scheduleStart now) (nextId db) ->
  loans db' = map (replace_loan (approvedLoan now amt days loan)) (loans db) ->
  schedule_inv db'.
Proof.
  intros I [D U Dt T Cp OP St] Hloan P Ee El.
  set (loan1 := Loan.set_status Loan.approved (Loan.set_terms amt days 20 loan)) in *.
  set (es := buildSchedule loan1 (scheduleStart now) (nextId db)) in *.
  set (loan' := approvedLoan now amt days loan) in *.
  destruct (approvedLoan_fields now amt days loan)
    as (A1 & A2 & A3 & A4 & A5 & A6 & A7 & A8 & A9 & A10 & A11).
  fold loan' in A1, A2, A3, A4, A5, A6, A7, A8, A9, A10, A11.
  assert (Inact : isActive loan = false)
    by (unfold isActive; unfold isPending in P; destruct (Loan.status loan);
        first [reflexivity | discriminate P]).
  assert (Hes : forall e, In e es -> EMI.loanId e = Loan._id loan)
    by (intros e He; destruct (buildSchedule_each _ _ _ e He) as (-> & _);
        reflexivity).
  assert (Mine : emisOf (Loan._id loan) db' = es).
  { rewrite (emisOf_app _ db db' es Ee).
    rewrite (inactive_no_emis t db loan I Hloan Inact).
    apply filter_all. intros x Hx. unfold ofLoan. rewrite (Hes x Hx).
    apply Nat.eqb_refl. }
  assert (Other : forall l, Loan._id l <> Loan._id loan ->
                    emisOf (Loan._id l) db' = emisOf (Loan._id l) db).
  { intros l N. rewrite (emisOf_app _ db db' es Ee).
    rewrite (filter_none (ofLoan (Loan._id l)) es); [apply app_nil_r|].
    intros x Hx. unfold ofLoan. rewrite (Hes x Hx).
    apply Nat.eqb_neq. congruence. }
  assert (Repl : forall l, In l (loans db) ->
                   (l = loan /\ replace_loan loan' l = loan')
                   \/ (Loan._id l <> Loan._id loan /\ replace_loan loan' l = l))
    by (intros l Hl; apply (replace_loan_cases (loans db)); auto;
        apply (inv_loan_ids _ _ I)).
  constructor.
  - intros l' Hl' A. rewrite El in Hl'. apply in_map_iff in Hl'.
    destruct Hl' as [l [<- Hl]].
    destruct (Repl l Hl) as [[-> R] | [N R]]; rewrite R in *.
    + rewrite A1, Mine, A4. unfold es. rewrite buildSchedule_days. reflexivity.
    + rewrite (Other l N). apply D; assumption.
  - intros e l' He Hl' Hid. rewrite El in Hl'. apply in_map_iff in Hl'.
    destruct Hl' as [l [<- Hl]]. rewrite Ee in He. apply in_app_or in He.
    destruct (Repl l Hl) as [[-> R] | [N R]]; rewrite R in *.
    + rewrite A2. destruct He as [He | He].
      * apply U; auto. congruence.
      * destruct (buildSchedule_each _ _ _ e He) as (_ & -> & _). reflexivity.
    + destruct He as [He | He]; [apply U; assumption|].
      exfalso. apply N. rewrite Hid. apply Hes, He.
  - intros l' Hl' A. rewrite El in Hl'. apply in_map_iff in Hl'.
    destruct Hl' as [l [<- Hl]].
    destruct (Repl l Hl) as [[-> R] | [N R]]; rewrite R in *.
    + exists now. rewrite A4. repeat (split; [assumption|]).
      intros e He. rewrite A1, Mine in He.
      apply (buildSchedule_each _ _ _ e He).
    + destruct (Dt l Hl A) as (ap & D1 & D2 & D3 & D4).
      exists ap. repeat (split; [assumption|]). intros e He. apply D4.
      rewrite <- (Other l N). exact He.
  - intros l' Hl'. rewrite El in Hl'. apply in_map_iff in Hl'.
    destruct Hl' as [l [<- Hl]].
    destruct (Repl l Hl) as [[-> R] | [N R]]; rewrite R in *.
    + apply approvedLoan_terms, T, Hloan.
    + apply T, Hl.
  - intros l' Hl' S0 e He. rewrite El in Hl'. apply in_map_iff in Hl'.
    destruct Hl' as [l [<- Hl]].
    destruct (Repl l Hl) as [[-> R] | [N R]]; rewrite R in *.
    + rewrite A5 in S0. discriminate.
    + apply (Cp l Hl S0). rewrite <- (Other l N). exact He.
  - intros l1' l2' H1 H2 P1 P2 Us. rewrite El in H1, H2.
    apply in_map_iff in H1, H2.
    destruct H1 as [l1 [<- H1]]. destruct H2 as [l2 [<- H2]].
    destruct (Repl l1 H1) as [[-> R1] | [N1 R1]]; rewrite R1 in *;
      [unfold isPending in P1; rewrite A5 in P1; discriminate|].
    destruct (Repl l2 H2) as [[-> R2] | [N2 R2]]; rewrite R2 in *;
      [unfold isPending in P2; rewrite A5 in P2; discriminate|].
    apply OP; assumption.
  - intros e He. rewrite Ee in He. apply in_app_or in He.
    destruct He as [He | He]; [apply St, He|].
    destruct (buildSchedule_each _ _ _ e He)
      as (_ & _ & _ & _ & _ & _ & _ & S0 & S1 & S2).
    unfold stamped, isPaid. rewrite S0. cbn.
    split; [intros X; discriminate X | intros _; split; assumption].
Qed.

Lemma delete_schedule (db db' : DB) (loan : Loan.t) :
  schedule_inv db ->
  emis db' = filter (fun e => negb (ofLoan (Loan._id loan) e)) (emis db) ->
  loans db'
  = filter (fun l => negb (Nat.eqb (Loan._id l) (Loan._id loan))) (loans db) ->
  schedule_inv db'.
Proof.
  intros [D U Dt T Cp OP St] Ee El.
  assert (Old : forall l, In l (loans db') ->
                  In l (loans db) /\ emisOf (Loan._id l) db' = emisOf (Loan._id l) db).
  { intros l Hl. rewrite El in Hl. apply filter_In in Hl. destruct Hl as [Hl N].
    apply negb_true_iff, Nat.eqb_neq in N. split; [exact Hl|].
    apply (deleted_emisOf _ loan db); assumption. }
  constructor.
  - intros l Hl A. destruct (Old l Hl) as [H ->]. apply D; assumption.
  - intros e l He Hl Hid. destruct (Old l Hl) as [H _].
    rewrite Ee in He. apply filter_In in He. apply U; tauto.
  - intros l Hl A. destruct (Old l Hl) as [H E].
    destruct (Dt l H A) as (ap & D1 & D2 & D3 & D4).
    exists ap. repeat (split; [assumption|]). rewrite E. exact D4.
  - intros l Hl. apply T, (Old l Hl).
  - intros l Hl S0 e He. destruct (Old l Hl) as [H E]. rewrite E in He.
    apply (Cp l H S0 e He).
  - intros l1 l2 H1 H2. apply OP; [apply (Old l1 H1) | apply (Old l2 H2)].
  - intros e He. rewrite Ee in He. apply filter_In in He. apply St. tauto.
Qed.

Lemma effect_schedule (t now : Z) (req : Request) (db db' : DB) :
  ledger_inv t db -> schedule_inv db -> effect now req db db' ->
  schedule_inv db'.
Proof.
  intros I S [-> | ref batch loan loanX Hincl NB Hb _ Hloan Ee El _ Ls
              | Ee El _ | user a R NoP -> | loan amt days Hloan P _ _ Ee El _
              | loan Hloan Ee El _].
  - exact S.
  - apply (settle_schedule t now (completes req) db db' ref batch loan loanX);
      assumption.
  - apply (sweep_schedule db db' (JS.setHours0 now)
             (sweepIncrease (JS.setHours0 now)
                (filter (lateQuery (JS.setHours0 now)) (emis db)))); assumption.
  - apply (apply_schedule t); assumption.
  - apply (approve_schedule t now db db' loan amt days); assumption.
  - apply (delete_schedule db db' loan); assumption.
Qed.

Lemma empty_schedule : schedule_inv emptyDB.
Proof. constructor; cbn; intros; contradiction. Qed.

Lemma reachable_schedule (G : DB -> Request -> Prop) (env : Env) (clock : Z)
  (db : DB) :
  reachable_by G env clock db -> schedule_inv db.
Proof.
  induction 1 as [t0 | t now db req R IH Hle _].
  - apply empty_schedule.
  - apply (effect_schedule t now req db); [|exact IH|].
    + apply (reachable_by_inv G env t db R).
    + apply (handle_effect env t). apply (reachable_by_inv G env t db R).
Qed.

(** ** The schedule of a loan in a reachable ledger *)

Lemma reachable_weaken (G : DB -> Request -> Prop) (env : Env) (clock : Z)
  (db : DB) :
  reachable_by G env clock db -> reachable env clock db.
Proof.
  induction 1 as [t0 | t now db req R IH Hle _].
  - apply reach_empty.
  - apply (reach_step anyRequest env t now db req); [exact IH | exact Hle | exact I].
Qed.

Lemma demo_reachable : reachable demoEnv (day 11) (approvedLoanDB 1000 3).
Proof. apply run_two. vm_compute. discriminate. Qed.

Lemma demo_loan :
  exists l, In l (loans (approvedLoanDB 1000 3)) /\ Loan._id l = 0%nat
    /\ Loan.status l = Loan.approved /\ Loan.totalDays l = 3
    /\ Loan.amount l = 1000 /\ Loan.interestRate l = 20
    /\ Loan.penaltyAmount l = 0 /\ Loan.userId l = 7%nat
    /\ Loan.dailyEMI l = 401 /\ Loan.dailyInterest l = 67
    /\ Loan.startDate l = Some (day 12) /\ Loan.endDate l = Some (day 14).
Proof.
  eexists. split; [vm_compute; left; reflexivity|]. repeat split.
Qed.

Lemma applied_reachable : reachable demoEnv (day 10) appliedDB.
Proof.
  unfold appliedDB. cbn [run].
  apply (reach_step anyRequest demoEnv (day 10) (day 10) _
           (ReqApply 7%nat (JS.Num 1000))); [apply reach_empty | lia | exact I].
Qed.

Lemma applied_loan :
  exists l, In l (loans appliedDB) /\ Loan._id l = 0%nat
    /\ Loan.status l = Loan.pending /\ Loan.userId l = 7%nat.
Proof.
  eexists. split; [vm_compute; left; reflexivity|]. repeat split.
Qed.

Lemma NoDup_map_inj (f : EMI.t -> Z) (l : list EMI.t) (x y : EMI.t) :
  NoDup (map f l) -> In x l -> In y l -> f x = f y -> x = y.
Proof.
  induction l as [|a l IH]; intros ND Hx Hy E; [contradiction|].
  simpl in ND. inversion ND as [|? ? Hn ND']; subst.
  destruct Hx as [Hx | Hx], Hy as [Hy | Hy]; subst.
  - reflexivity.
  - exfalso. apply Hn. rewrite E. apply in_map. exact Hy.
  - exfalso. apply Hn. rewrite <- E. apply in_map. exact Hx.
  - apply IH; assumption.
Qed.

Lemma days_NoDup (n : nat) : NoDup (map Z.of_nat (seq 1 n)).
Proof.
  apply Finite.Injective_map_NoDup; [|apply seq_NoDup].
  intros a b. apply Nat2Z.inj.
Qed.

Lemma scheduled_or_not (l : Loan.t) :
  (scheduled l /\ isActive l = true) \/ (~ scheduled l /\ isActive l = false).
Proof.
  unfold scheduled, isActive. destruct (Loan.status l);
    [right | left | right | left]; split; auto;
    intros [H | H]; discriminate H.
Qed.

(** X6. In every reachable ledger the installments of an approved or
    completed loan carry the day numbers 1, 2, ..., totalDays in storage
    order, so there is exactly one installment per day, no two share a day
    number, and each belongs to the loan's borrower; a pending or rejected
    loan has no installment. *)
Theorem schedule_days_exact (env : Env) (clock : Z) (db : DB) (l : Loan.t) :
  reachable env clock db -> In l (loans db) ->
  (scheduled l ->
   map EMI.dayNumber (emisOf (Loan._id l) db)
   = map Z.of_nat (seq 1 (Z.to_nat (Loan.totalDays l)))
   /\ List.length (emisOf (Loan._id l) db) = Z.to_nat (Loan.totalDays l)
   /\ (forall e, In e (emisOf (Loan._id l) db) ->
         1 <= EMI.dayNumber e <= Loan.totalDays l
         /\ EMI.userId e = Loan.userId l)
   /\ (forall e1 e2, In e1 (emisOf (Loan._id l) db) ->
         In e2 (emisOf (Loan._id l) db) ->
         EMI.dayNumber e1 = EMI.dayNumber e2 -> e1 = e2))
  /\ (~ scheduled l -> emisOf (Loan._id l) db = []).
Proof.
  intros R Hl. pose proof (reachable_by_inv _ _ _ _ R) as I.
  pose proof (reachable_schedule _ _ _ _ R) as S.
  split.
  - intros Sc. apply scheduled_active in Sc.
    pose proof (sch_days _ S l Hl Sc) as D.
    split; [exact D|]. split; [apply (loan_count _ _ (inv_loan _ _ I l Hl) Sc)|].
    split.
    + intros e He. split.
      * assert (Hd : In (EMI.dayNumber e) (map EMI.dayNumber (emisOf (Loan._id l) db)))
          by (apply in_map; exact He).
        rewrite D in Hd. apply in_map_iff in Hd. destruct Hd as [k [<- Hk]].
        apply in_seq in Hk.
        pose proof (loan_days _ _ (inv_loan _ _ I l Hl)). lia.
      * apply emisOf_in in He. destruct He as [He Hid].
        apply (sch_user _ S); auto.
    + intros e1 e2 H1 H2 E.
      apply (NoDup_map_inj EMI.dayNumber (emisOf (Loan._id l) db)); auto.
      rewrite D. apply days_NoDup.
  - intros N. destruct (scheduled_or_not l) as [[Sc _] | [_ A]]; [contradiction|].
    apply (inactive_no_emis clock db l I Hl A).
Qed.

Lemma schedule_days_exact_witness :
  map EMI.dayNumber (emisOf 0 (approvedLoanDB 1000 3)) = [1; 2; 3].
Proof.
  destruct demo_loan as (l & Hl & Hid & St & D & _).
  destruct (schedule_days_exact demoEnv (day 11) (approvedLoanDB 1000 3) l
              demo_reachable Hl) as [H _].
  destruct (H (or_introl St)) as [E _].
  rewrite Hid, D in E. exact E.
Defined.

Lemma setHours0_midnight (d : Z) :
  JS.setHours0 d mod JS.msPerDay = 0
  /\ d - JS.msPerDay < JS.setHours0 d <= d.
Proof.
  unfold JS.setHours0.
  assert (Hd : 0 < JS.msPerDay) by reflexivity.
  pose proof (Z.mod_pos_bound d JS.msPerDay Hd) as B.
  split; [|lia].
  rewrite Zminus_mod_idemp_r, Z.sub_diag. apply Zmod_0_l.
Qed.

(** X7. In every reachable ledger an approved or completed loan carries the
    dates its approval stamped: startDate is the local midnight that follows
    approvedAt (later than approvedAt, at most a day later), endDate is
    startDate + (totalDays - 1) days, and the installment with day number k
    is due k - 1 days after startDate, so every due date lies between
    startDate and endDate. *)
Theorem loan_dates_match_schedule (env : Env) (clock : Z) (db : DB) (l : Loan.t) :
  reachable env clock db -> In l (loans db) -> scheduled l ->
  exists approved start,
    Loan.approvedAt l = Some approved
    /\ Loan.startDate l = Some start
    /\ start = JS.setHours0 (JS.addDays approved 1)
    /\ start mod JS.msPerDay = 0
    /\ approved < start <= approved + JS.msPerDay
    /\ Loan.endDate l = Some (JS.addDays start (Loan.totalDays l - 1))
    /\ forall e, In e (emisOf (Loan._id l) db) ->
         EMI.dueDate e = JS.addDays start (EMI.dayNumber e - 1)
         /\ start <= EMI.dueDate e
            <= JS.addDays start (Loan.totalDays l - 1).
Proof.
  intros R Hl Sc. pose proof (reachable_schedule _ _ _ _ R) as S.
  destruct (schedule_days_exact env clock db l R Hl) as [Sd _].
  destruct (Sd Sc) as (_ & _ & Rg & _).
  apply scheduled_active in Sc.
  destruct (sch_dated _ S l Hl Sc) as (ap & D1 & D2 & D3 & D4).
  exists ap, (scheduleStart ap).
  destruct (setHours0_midnight (JS.addDays ap 1)) as [M B].
  unfold JS.addDays in B. fold (scheduleStart ap) in M.
  split; [exact D1|]. split; [exact D2|]. split; [reflexivity|].
  split; [exact M|]. split; [unfold scheduleStart, JS.addDays; lia|].
  split; [exact D3|].
  intros e He. split; [apply D4, He|]. rewrite (D4 e He).
  destruct (Rg e He) as [Rd _]. unfold JS.addDays.
  assert (Hd : 0 < JS.msPerDay) by reflexivity. nia.
Qed.

Lemma loan_dates_match_schedule_witness :
  exists approved start,
    option_map Loan.approvedAt (Loan_findById 0 (approvedLoanDB 1000 3))
    = Some (Some approved)
    /\ start mod JS.msPerDay = 0 /\ approved < start.
Proof.
  destruct demo_loan as (l & Hl & Hid & St & _).
  destruct (loan_dates_match_schedule demoEnv (day 11) (approvedLoanDB 1000 3) l
              demo_reachable Hl (or_introl St))
    as (ap & start & A & _ & _ & M & B & _).
  exists ap, start. split; [|split; [exact M | apply B]].
  rewrite <- Hid, (In_find_loan _ l); [cbn; rewrite A; reflexivity | | exact Hl].
  apply nodupb_sound. vm_compute. reflexivity.
Defined.

(** X8. In every reachable ledger the derived terms the pre-save hook left
    on a loan agree with its schedule: dailyInterest = ceil(totalInterest /
    totalDays), dailyEMI = ceil(amount / totalDays) + dailyInterest, and each
    installment of the loan has interestAmount = dailyInterest,
    principalAmount + interestAmount = dailyEMI and totalAmount = dailyEMI +
    penaltyAmount. *)
Theorem loan_terms_match_installments (env : Env) (clock : Z) (db : DB)
  (l : Loan.t) :
  reachable env clock db -> In l (loans db) ->
  Loan.dailyInterest l
  = JS.Math_ceil (Loan.totalInterest l / inject_Z (Loan.totalDays l))%Q
  /\ Loan.dailyEMI l
     = JS.Math_ceil (inject_Z (Loan.amount l) / inject_Z (Loan.totalDays l))%Q
       + Loan.dailyInterest l
  /\ forall e, In e (emisOf (Loan._id l) db) ->
       EMI.interestAmount e = Loan.dailyInterest l
       /\ EMI.principalAmount e + EMI.interestAmount e = Loan.dailyEMI l
       /\ EMI.totalAmount e = Loan.dailyEMI l + EMI.penaltyAmount e.
Proof.
  intros R Hl. pose proof (reachable_by_inv _ _ _ _ R) as I.
  pose proof (reachable_schedule _ _ _ _ R) as S.
  destruct (sch_terms _ S l Hl) as [T1 T2].
  pose proof (loan_rate _ _ (inv_loan _ _ I l Hl)) as Rate.
  split; [rewrite T1; apply dailyInterestOf_total, Rate|].
  split; [rewrite T2, T1; reflexivity|].
  intros e He. destruct (owner_of clock db l e I Hl He) as [Hin (_ & P & Q)].
  pose proof (emi_total _ _ (inv_emi _ _ I e Hin)) as Tt.
  rewrite T1, T2, Tt, P, Q. repeat split; lia.
Qed.

Lemma loan_terms_match_installments_witness :
  forall e, In e (emisOf 0 (approvedLoanDB 1000 3)) ->
    EMI.principalAmount e + EMI.interestAmount e = 401.
Proof.
  destruct demo_loan as (l & Hl & Hid & _ & _ & _ & _ & _ & _ & DE & _).
  destruct (loan_terms_match_installments demoEnv (day 11) (approvedLoanDB 1000 3) l
              demo_reachable Hl) as (_ & _ & H).
  intros e He. rewrite <- Hid in He. rewrite <- DE. apply (H e He).
Defined.

(** X9. In every reachable ledger a loan with status completed has no
    unpaid installment: all of its totalDays installments are paid. *)
Theorem completed_loan_is_settled (env : Env) (clock : Z) (db : DB) (l : Loan.t) :
  reachable env clock db -> In l (loans db) -> Loan.status l = Loan.completed ->
  allPaidOf (Loan._id l) db = true
  /\ EMI_countDocuments (unpaidOf (Loan._id l)) db = 0%nat
  /\ List.length (paidOf (Loan._id l) db) = Z.to_nat (Loan.totalDays l).
Proof.
  intros R Hl St. pose proof (reachable_by_inv _ _ _ _ R) as I.
  pose proof (reachable_schedule _ _ _ _ R) as S.
  pose proof (sch_completed _ S l Hl St) as P.
  split; [|split].
  - unfold allPaidOf. apply forallb_forall. exact P.
  - unfold EMI_countDocuments, EMI_find. rewrite filter_none; [reflexivity|].
    intros x Hx. destruct (unpaidOf (Loan._id l) x) eqn:U; [|reflexivity].
    apply unpaidOf_spec in U. destruct U as [U1 U2].
    rewrite (P x) in U2; [discriminate|]. apply emisOf_in. auto.
  - assert (A : isActive l = true) by (unfold isActive; rewrite St; reflexivity).
    rewrite <- (loan_count _ _ (inv_loan _ _ I l Hl) A).
    unfold paidOf, emisOf, EMI_find. f_equal.
    rewrite <- (filter_filter_and isPaid (ofLoan (Loan._id l)) (emis db)).
    apply filter_all. exact P.
Qed.

Lemma completed_loan_is_settled_witness :
  allPaidOf 0 settledOddLoanDB = true.
Proof.
  assert (F : exists l, In l (loans settledOddLoanDB) /\ Loan._id l = 0%nat
                        /\ Loan.status l = Loan.completed)
    by (eexists; split; [vm_compute; left; reflexivity | split; reflexivity]).
  destruct F as (l & Hl & Hid & St).
  destruct (completed_loan_is_settled demoEnv (day 13) settledOddLoanDB l)
    as (H & _).
  - apply (reachable_weaken noRedelivery), settledOddLoan_reachable.
  - exact Hl.
  - exact St.
  - rewrite Hid in H. exact H.
Defined.

(** X10. In every reachable ledger a borrower has at most one pending
    application: two pending loans of the same user are the same loan. *)
Theorem one_pending_application_per_user (env : Env) (clock : Z) (db : DB)
  (l1 l2 : Loan.t) :
  reachable env clock db -> In l1 (loans db) -> In l2 (loans db) ->
  Loan.status l1 = Loan.pending -> Loan.status l2 = Loan.pending ->
  Loan.userId l1 = Loan.userId l2 -> l1 = l2.
Proof.
  intros R H1 H2 P1 P2 U. pose proof (reachable_schedule _ _ _ _ R) as S.
  apply (sch_one_pending _ S); auto; unfold isPending.
  - rewrite P1. reflexivity.
  - rewrite P2. reflexivity.
Qed.

Lemma one_pending_application_per_user_witness :
  forall l1 l2, In l1 (loans appliedDB) -> In l2 (loans appliedDB) ->
    Loan.status l1 = Loan.pending -> Loan.status l2 = Loan.pending ->
    Loan.userId l1 = Loan.userId l2 -> l1 = l2.
Proof.
  intros l1 l2.
  apply (one_pending_application_per_user demoEnv (day 10) appliedDB l1 l2).
  exact applied_reachable.
Defined.

(** X11. In every reachable ledger the payment stamp is on the paid
    installments and only on them: an installment has a paidAt time, and a
    payment reference, exactly when its status is paid. *)
Theorem payment_stamp_iff_paid (env : Env) (clock : Z) (db : DB) (e : EMI.t) :
  reachable env clock db -> In e (emis db) ->
  (EMI.status e = EMI.paid <-> EMI.paidAt e <> None)
  /\ (EMI.status e = EMI.paid <-> EMI.razorpayPaymentId e <> None).
Proof.
  intros R He. pose proof (reachable_schedule _ _ _ _ R) as S.
  destruct (sch_stamped _ S e He) as [P1 P2]. unfold isPaid in *.
  destruct (EMI.status e) eqn:St; cbn in *.
  - destruct (P2 eq_refl) as [A B]. rewrite A, B.
    split; split; intros H; first [discriminate H | contradiction].
  - destruct (P1 eq_refl) as [A B]. split; split; auto.
  - destruct (P2 eq_refl) as [A B]. rewrite A, B.
    split; split; intros H; first [discriminate H | contradiction].
Qed.

Lemma payment_stamp_iff_paid_witness :
  EMI.status firstInstallment = EMI.paid <-> EMI.paidAt firstInstallment <> None.
Proof.
  destruct (payment_stamp_iff_paid demoEnv (day 11) (approvedLoanDB 1000 3)
              firstInstallment demo_reachable) as [H _].
  - vm_compute. left. reflexivity.
  - exact H.
Defined.

(** ** The running total of a loan, when no paid installment is settled
       again *)

Lemma paidTotalOf_sum (id : nat) (db : DB) :
  paidTotalOf id db
  = sumZ (map (fun x => if ofLoan id x && isPaid x then EMI.totalAmount x else 0)
              (emis db)).
Proof. unfold paidTotalOf, paidOf, EMI_find. apply sum_filter. Qed.

Lemma settleIn_paidTotal (ref : string) (now : Z) (batch : list EMI.t) (id : nat)
  (db db' : DB) :
  NoDup (map EMI._id (emis db)) -> NoDup (map EMI._id batch) ->
  incl batch (emis db) ->
  (forall b, In b batch -> isPaid b = false) ->
  emis db' = map (settleIn ref now batch) (emis db) ->
  paidTotalOf id db'
  = paidTotalOf id db
    + sumZ (map (fun b => if ofLoan id b then EMI.totalAmount b else 0) batch).
Proof.
  intros ND NB Hincl U E.
  rewrite !paidTotalOf_sum, E, map_map.
  rewrite <- (sum_over_batch (fun b => if ofLoan id b then EMI.totalAmount b else 0)
                (emis db) batch ND NB Hincl).
  rewrite <- sumZ_plus. apply sumZ_ext_in. intros x Hx.
  unfold settleIn. destruct (existsb (sameId x) batch) eqn:B.
  - apply (existsb_sameId_In (emis db)) in B; auto.
    rewrite (U x B), andb_false_r. unfold ofLoan, isPaid. cbn.
    rewrite andb_true_r. lia.
  - lia.
Qed.

Lemma paidTotalOf_none (id : nat) (db : DB) :
  (forall x, In x (emisOf id db) -> isPaid x = false) -> paidTotalOf id db = 0.
Proof.
  intros H. rewrite paidTotalOf_sum. apply sumZ_zero. intros x Hx.
  destruct (ofLoan id x) eqn:O; [|reflexivity].
  rewrite (H x); [reflexivity|]. apply filter_In. auto.
Qed.

Lemma effect_paid (t now : Z) (req : Request) (db db' : DB) :
  ledger_inv t db -> paid_inv db -> noRedelivery db req ->
  effect now req db db' -> paid_inv db'.
Proof.
  intros I P G [-> | ref batch loan loanX Hincl NB Hb U Hloan Ee El _ Ls
                | Ee El _ | user a R NoP -> | loan amt days Hloan Pe _ _ Ee El _
                | loan Hloan Ee El _].
  - exact P.
  - pose proof (inv_emi_ids _ _ I) as NDe.
    intros l' Hl'. rewrite El in Hl'. apply in_map_iff in Hl'.
    destruct Hl' as [l [<- Hl]].
    pose proof (settleIn_paidTotal ref now batch (Loan._id l) db db' NDe NB Hincl
                  (U G) Ee) as S.
    destruct Ls as (S1 & _ & _ & _ & _ & _ & _ & _ & _ & _ & _ & S12 & _).
    destruct (replace_loan_cases (loans db) loan loanX l (inv_loan_ids _ _ I)
                Hloan S1 Hl) as [[-> R] | [N R]]; rewrite R.
    + rewrite S1, S12, S, (P loan Hloan). f_equal.
      apply sumZ_ext_in. intros b Hin. unfold ofLoan.
      rewrite (Hb b Hin), Nat.eqb_refl. reflexivity.
    + rewrite S, sumZ_zero, Z.add_0_r; [apply (P l Hl)|].
      intros b Hin. unfold ofLoan. rewrite (Hb b Hin).
      assert (F : Nat.eqb (Loan._id loan) (Loan._id l) = false)
        by (apply Nat.eqb_neq; congruence).
      rewrite F. reflexivity.
  - intros l' Hl'. rewrite El in Hl'. apply in_map_iff in Hl'.
    destruct Hl' as [l [<- Hl]].
    cbn [Loan.inc_penalty Loan._id Loan.totalPaid]. rewrite (P l Hl).
    rewrite !paidTotalOf_sum, Ee, map_map. apply sumZ_ext_in. intros x _.
    destruct (sweepOne_frame (JS.setHours0 now) x) as (_ & F2 & _ & _ & F5).
    unfold ofLoan. rewrite F2, F5.
    destruct (isPaid x) eqn:Px; [|rewrite !andb_false_r; reflexivity].
    rewrite (sweepOne_paid _ x Px). reflexivity.
  - intros l Hl. cbn [loans] in Hl. apply in_app_or in Hl.
    destruct Hl as [Hl | [<- | []]].
    + apply (P l Hl).
    + cbn [Loan.recompute newLoan Loan._id Loan.totalPaid].
      symmetry. apply paidTotalOf_none. intros x Hx.
      unfold emisOf, EMI_find in Hx. cbn [emis] in Hx.
      fold (EMI_find (ofLoan (nextId db)) db) in Hx. fold (emisOf (nextId db) db) in Hx.
      rewrite (fresh_no_emis t db (nextId db) I (Nat.le_refl _)) in Hx.
      contradiction.
  - set (es := buildSchedule _ (scheduleStart now) (nextId db)) in *.
    assert (Pend : forall x, In x es -> isPaid x = false).
    { intros x Hx. destruct (buildSchedule_each _ _ _ x Hx)
        as (_ & _ & _ & _ & _ & _ & _ & S & _).
      unfold isPaid. rewrite S. reflexivity. }
    assert (PT : forall k, paidTotalOf k db' = paidTotalOf k db).
    { intros k. rewrite !paidTotalOf_sum, Ee, map_app, sumZ_app.
      rewrite (sumZ_zero _ es); [lia|].
      intros x Hx. rewrite (Pend x Hx), andb_false_r. reflexivity. }
    destruct (approvedLoan_fields now amt days loan)
      as (A1 & _ & _ & _ & _ & _ & A7 & _).
    intros l' Hl'. rewrite El in Hl'. apply in_map_iff in Hl'.
    destruct Hl' as [l [<- Hl]].
    destruct (replace_loan_cases (loans db) loan _ l (inv_loan_ids _ _ I)
                Hloan A1 Hl) as [[-> R] | [N R]]; rewrite R.
    + rewrite A7, A1, PT. apply (P loan Hloan).
    + rewrite PT. apply (P l Hl).
  - intros l H. rewrite El in H. apply filter_In in H. destruct H as [H N].
    apply negb_true_iff, Nat.eqb_neq in N. rewrite (P l H).
    unfold paidTotalOf, paidOf, EMI_find. rewrite Ee. f_equal. f_equal.
    symmetry. apply filter_filter_emis. intros x _ O.
    apply andb_true_iff in O. destruct O as [O _]. unfold ofLoan in *.
    apply Nat.eqb_eq in O. apply negb_true_iff, Nat.eqb_neq. congruence.
Qed.

Lemma reachable_paid (env : Env) (clock : Z) (db : DB) :
  reachable_by noRedelivery env clock db -> paid_inv db.
Proof.
  induction 1 as [t0 | t now db req R IH Hle G].
  - intros l [].
  - pose proof (reachable_by_inv noRedelivery env t db R) as I.
    apply (effect_paid t now req db); auto. apply (handle_effect env t), I.
Qed.

Lemma stats_totalPaid (id : nat) (db : DB) :
  Stats.totalPaid (getLoanStats id db) = paidTotalOf id db.
Proof.
  pose proof (stats_fold (EMI_find (ofLoan id) db)
                (Stats.mk (Z.of_nat (List.length (EMI_find (ofLoan id) db)))
                          0 0 0 0 0 0)) as S.
  cbv zeta in S. fold (getLoanStats id db) in S.
  destruct S as (_ & _ & _ & _ & S5 & _). rewrite S5.
  cbn [Stats.totalPaid Z.add].
  unfold paidTotalOf, paidOf, EMI_find. rewrite !sum_filter.
  apply sumZ_ext_in. intros x _. unfold hasStatus, isPaid.
  destruct (ofLoan id x); reflexivity.
Qed.

(** X12. When no gateway callback is delivered for an installment that is
    already paid, every loan's totalPaid is the sum of the totalAmounts of
    its paid installments, the figure getLoanStats reports as totalPaid, and
    its remainingBalance is amount + totalInterest less that sum without the
    penalties in it. *)
Theorem totalPaid_is_paid_installments (env : Env) (clock : Z) (db : DB)
  (l : Loan.t) :
  reachable_by noRedelivery env clock db -> In l (loans db) ->
  Loan.totalPaid l = paidTotalOf (Loan._id l) db
  /\ Loan.totalPaid l = Stats.totalPaid (getLoanStats (Loan._id l) db)
  /\ (Loan.remainingBalance l
      == inject_Z (Loan.amount l) + Loan.totalInterest l
         - inject_Z (Loan.totalPaid l
                     - sumZ (map EMI.penaltyAmount (paidOf (Loan._id l) db))))%Q.
Proof.
  intros R Hl. pose proof (reachable_by_inv _ _ _ _ R) as I.
  pose proof (reachable_paid _ _ _ R l Hl) as P.
  pose proof (reachable_balance _ _ _ R l Hl) as B. unfold balance_ok in B.
  split; [exact P|]. split; [rewrite stats_totalPaid; exact P|].
  rewrite B, P.
  assert (E : paidBaseOf (Loan._id l) db
              = paidTotalOf (Loan._id l) db
                - sumZ (map EMI.penaltyAmount (paidOf (Loan._id l) db))).
  { unfold paidBaseOf, paidTotalOf.
    assert (X : sumZ (map EMI.totalAmount (paidOf (Loan._id l) db))
                = sumZ (map baseOf (paidOf (Loan._id l) db))
                  + sumZ (map EMI.penaltyAmount (paidOf (Loan._id l) db))).
    { rewrite <- sumZ_plus. apply sumZ_ext_in. intros x Hx.
      unfold paidOf, EMI_find in Hx. apply filter_In in Hx.
      destruct Hx as [Hx _]. unfold baseOf.
      apply (emi_total _ _ (inv_emi _ _ I x Hx)). }
    lia. }
  rewrite E. reflexivity.
Qed.

Lemma totalPaid_is_paid_installments_witness :
  forall l, In l (loans settledOddLoanDB) ->
    Loan.totalPaid l = paidTotalOf (Loan._id l) settledOddLoanDB.
Proof.
  intros l Hl.
  apply (totalPaid_is_paid_installments demoEnv (day 13) settledOddLoanDB l
           settledOddLoan_reachable Hl).
Defined.

(** ** One request, seen from one document *)

Lemma In_find_emi (db : DB) (e : EMI.t) :
  NoDup (map EMI._id (emis db)) -> In e (emis db) ->
  EMI_findById (EMI._id e) db = Some e.
Proof.
  intros ND He. unfold EMI_findById.
  pose proof (find_map_emi (fun x => x) (emis db) e (fun x => eq_refl) ND He) as F.
  rewrite map_id in F. exact F.
Qed.

Lemma found_emi_after_map (f : EMI.t -> EMI.t) (db db' : DB) (e e' : EMI.t) :
  (forall x, EMI._id (f x) = EMI._id x) ->
  NoDup (map EMI._id (emis db)) -> In e (emis db) ->
  emis db' = map f (emis db) ->
  EMI_findById (EMI._id e) db' = Some e' -> e' = f e.
Proof.
  intros Hf ND He Ee F. unfold EMI_findById in F. rewrite Ee in F.
  rewrite (find_map_emi f (emis db) e Hf ND He) in F. congruence.
Qed.

Lemma found_emi_is (db db' : DB) (e e' : EMI.t) :
  NoDup (map EMI._id (emis db)) -> In e (emis db) ->
  (forall x, In x (emis db') -> EMI._id x = EMI._id e -> In x (emis db)) ->
  EMI_findById (EMI._id e) db' = Some e' -> e' = e.
Proof.
  intros ND He Sub F. destruct (EMI_findById_In _ _ _ F) as [Hin Hid].
  apply (in_same_id (emis db)); auto.
Qed.

Lemma found_loan_after_map (g : Loan.t -> Loan.t) (db db' : DB) (l l' : Loan.t) :
  (forall x, Loan._id (g x) = Loan._id x) ->
  NoDup (map Loan._id (loans db)) -> In l (loans db) ->
  loans db' = map g (loans db) ->
  Loan_findById (Loan._id l) db' = Some l' -> l' = g l.
Proof.
  intros Hg ND Hl El F. unfold Loan_findById in F. rewrite El in F.
  rewrite (find_map_loan g (loans db) (Loan._id l) Hg) in F.
  pose proof (In_find_loan db l ND Hl) as F0. unfold Loan_findById in F0.
  rewrite F0 in F. cbn in F. congruence.
Qed.

Lemma found_loan_is (db db' : DB) (l l' : Loan.t) :
  NoDup (map Loan._id (loans db)) -> In l (loans db) ->
  (forall x, In x (loans db') -> Loan._id x = Loan._id l -> In x (loans db)) ->
  Loan_findById (Loan._id l) db' = Some l' -> l' = l.
Proof.
  intros ND Hl Sub F. destruct (Loan_findById_id _ _ _ F) as [Hid Hin].
  apply (loan_same_id (loans db)); auto.
Qed.

Lemma batch_total_nonneg (t : Z) (db : DB) (batch : list EMI.t) :
  ledger_inv t db -> incl batch (emis db) ->
  0 <= sumZ (map EMI.totalAmount batch).
Proof.
  intros I Hincl. apply sumZ_nonneg. intros b Hb.
  pose proof (inv_emi _ _ I b (Hincl b Hb)) as Ok.
  pose proof (penalty_nonneg t b Ok).
  destruct (inv_owner _ _ I b (Hincl b Hb)) as [l [Hl [_ (_ & P & _)]]].
  destruct (inv_loan _ _ I l Hl) as [_ A D _ _ _].
  assert (1 <= EMI.principalAmount b).
  { rewrite P. unfold dailyPrincipalOf. apply ceil_pos.
    apply Qlt_shift_div_l; [apply inject_Z_pos; lia|].
    rewrite Qmult_0_l. apply inject_Z_pos. lia. }
  rewrite (emi_total _ _ Ok). pose proof (emi_interest_pos _ _ Ok). lia.
Qed.

Lemma sweepIncrease_nonneg (today : Z) (late : list EMI.t) (id : nat) :
  0 <= sweepIncrease today late id.
Proof.
  unfold sweepIncrease. apply sumZ_nonneg. intros x _. unfold sweepDelta.
  destruct (applies today x) eqn:A; cbn [andb]; [|lia].
  apply applies_spec in A. destruct (Nat.eqb _ _); lia.
Qed.

Lemma replace_loan_self (loan loanX : Loan.t) :
  Loan._id loanX = Loan._id loan -> replace_loan loanX loan = loanX.
Proof.
  intros E. unfold replace_loan. rewrite E, Nat.eqb_refl. reflexivity.
Qed.

Lemma status_next_refl (s : Loan.Status) : status_next s s = true.
Proof. destruct s; reflexivity. Qed.

(** X13. Across any request on a reachable ledger a loan document changes
    only along pending -> approved, pending -> rejected and approved ->
    completed; its borrower never changes, its totalPaid and penaltyAmount
    never decrease, and once it has left pending its amount, totalDays,
    dailyEMI, dailyInterest and dates are never touched again. *)
Theorem loan_status_transitions (env : Env) (clock now : Z) (req : Request)
  (db : DB) (l l' : Loan.t) :
  reachable env clock db -> In l (loans db) ->
  Loan_findById (Loan._id l) (fst (handle env now req db)) = Some l' ->
  status_next (Loan.status l) (Loan.status l') = true
  /\ Loan.userId l' = Loan.userId l
  /\ Loan.totalPaid l <= Loan.totalPaid l'
  /\ Loan.penaltyAmount l <= Loan.penaltyAmount l'
  /\ (Loan.status l <> Loan.pending ->
      Loan.amount l' = Loan.amount l /\ Loan.totalDays l' = Loan.totalDays l
      /\ Loan.dailyEMI l' = Loan.dailyEMI l
      /\ Loan.dailyInterest l' = Loan.dailyInterest l
      /\ Loan.approvedAt l' = Loan.approvedAt l
      /\ Loan.startDate l' = Loan.startDate l
      /\ Loan.endDate l' = Loan.endDate l).
Proof.
  intros R Hl F. pose proof (reachable_by_inv _ _ _ _ R) as I.
  pose proof (inv_loan_ids _ _ I) as NDl.
  assert (Same : l' = l ->
                 status_next (Loan.status l) (Loan.status l') = true
                 /\ Loan.userId l' = Loan.userId l
                 /\ Loan.totalPaid l <= Loan.totalPaid l'
                 /\ Loan.penaltyAmount l <= Loan.penaltyAmount l'
                 /\ (Loan.status l <> Loan.pending ->
                     Loan.amount l' = Loan.amount l
                     /\ Loan.totalDays l' = Loan.totalDays l
                     /\ Loan.dailyEMI l' = Loan.dailyEMI l
                     /\ Loan.dailyInterest l' = Loan.dailyInterest l
                     /\ Loan.approvedAt l' = Loan.approvedAt l
                     /\ Loan.startDate l' = Loan.startDate l
                     /\ Loan.endDate l' = Loan.endDate l)).
  { intros ->. rewrite status_next_refl. repeat split; lia. }
  destruct (handle_effect env clock now req db I)
    as [E | ref batch loan loanX Hincl NB Hb _ Hloan Ee El _ Ls
        | Ee El _ | user a Ra NoP E | loan amt days Hloan Pe _ _ Ee El _
        | loan Hloan Ee El _].
  - apply Same. rewrite E in F. rewrite (In_find_loan db l NDl Hl) in F. congruence.
  - pose proof Ls as (S1 & S2 & S3 & S4 & S5 & S6 & _ & S8 & S9 & S10 & S11 & S12
                      & _ & S14).
    pose proof (found_loan_after_map (replace_loan loanX) db _ l l'
                  (replace_loan_id loanX) NDl Hl El F) as E.
    destruct (replace_loan_cases (loans db) loan loanX l NDl Hloan S1 Hl)
      as [[-> Rp] | [N Rp]]; rewrite Rp in E; [|apply Same, E].
    subst l'. pose proof (batch_total_nonneg clock db batch I Hincl) as Nn.
    split.
    { destruct S14 as [[S _] | [(Ne & S & _) | (_ & Sp & S)]].
      - rewrite S. apply status_next_refl.
      - rewrite S.
        pose proof (settled_kept clock _ db _ batch loan loanX I Hloan Hincl Hb Ls
                      loan Hloan) as K.
        rewrite (replace_loan_self loan loanX S1) in K.
        destruct K as (_ & _ & _ & _ & _ & _ & _ & _ & _ & KA & _).
        assert (A : isActive loan = true)
          by (apply KA; unfold isActive; rewrite S; reflexivity).
        unfold isActive in A. destruct (Loan.status loan);
          first [reflexivity | discriminate A].
      - rewrite Sp, S. reflexivity. }
    split; [exact S2|]. split; [lia|]. split; [lia|].
    intros _. repeat split; assumption.
  - pose proof (found_loan_after_map
                  (fun x => Loan.inc_penalty
                              (sweepIncrease (JS.setHours0 now)
                                 (filter (lateQuery (JS.setHours0 now)) (emis db))
                                 (Loan._id x)) x)
                  db _ l l' (fun x => eq_refl) NDl Hl El F) as E.
    subst l'. cbn [Loan.inc_penalty Loan.status Loan.userId Loan.totalPaid
                   Loan.penaltyAmount Loan.amount Loan.totalDays Loan.dailyEMI
                   Loan.dailyInterest Loan.approvedAt Loan.startDate Loan.endDate].
    pose proof (sweepIncrease_nonneg (JS.setHours0 now)
                  (filter (lateQuery (JS.setHours0 now)) (emis db)) (Loan._id l)).
    rewrite status_next_refl. repeat split; lia.
  - apply Same. rewrite E in F. unfold Loan_findById in F. cbn [loans] in F.
    pose proof (In_find_loan db l NDl Hl) as F0. unfold Loan_findById in F0.
    rewrite (find_app_l _ _ _ _ F0) in F. congruence.
  - destruct (approvedLoan_fields now amt days loan)
      as (A1 & A2 & _ & _ & A5 & _ & A7 & A8 & _).
    pose proof (found_loan_after_map _ db _ l l'
                  (replace_loan_id _) NDl Hl El F) as E.
    destruct (replace_loan_cases (loans db) loan _ l NDl Hloan A1 Hl)
      as [[-> Rp] | [N Rp]]; rewrite Rp in E; [|apply Same, E].
    subst l'. rewrite A5, A2, A7, A8.
    unfold isPending in Pe. destruct (Loan.status loan) eqn:St;
      try discriminate Pe.
    split; [reflexivity|]. split; [reflexivity|]. split; [lia|]. split; [lia|].
    intros X. exfalso. apply X. reflexivity.
  - apply Same.
    apply (found_loan_is db (fst (handle env now req db)) l l' NDl Hl); [|exact F].
    intros x Hx _. rewrite El in Hx. apply filter_In in Hx. tauto.
Qed.

Lemma loan_status_transitions_witness :
  exists l l',
    In l (loans (approvedLoanDB 1000 3))
    /\ Loan_findById (Loan._id l)
         (fst (handle demoEnv (day 12) payInstallment1 (approvedLoanDB 1000 3)))
       = Some l'
    /\ status_next (Loan.status l) (Loan.status l') = true
    /\ Loan.totalPaid l <= Loan.totalPaid l'.
Proof.
  destruct demo_loan as (l & Hl & Hid & _).
  assert (F : exists l',
             Loan_findById (Loan._id l)
               (fst (handle demoEnv (day 12) payInstallment1 (approvedLoanDB 1000 3)))
             = Some l')
    by (rewrite Hid; eexists; vm_compute; reflexivity).
  destruct F as [l' F].
  destruct (loan_status_transitions demoEnv (day 11) (day 12) payInstallment1
              (approvedLoanDB 1000 3) l l' demo_reachable Hl F)
    as (H1 & _ & H3 & _).
  exists l, l'. auto.
Defined.

Lemma emi_status_next_refl (s : EMI.Status) : emi_status_next s s = true.
Proof. destruct s; reflexivity. Qed.

Lemma emi_status_next_paid (s : EMI.Status) : emi_status_next s EMI.paid = true.
Proof. destruct s; reflexivity. Qed.

(** X14. Across any request on a reachable ledger a stored installment keeps
    its loan, borrower, day number, principal, interest and due date; its
    penalty never decreases; its status never returns to pending and paid is
    final; and once it is paid its penalty and totalAmount are never touched
    again. *)
Theorem installment_history (env : Env) (clock now : Z) (req : Request)
  (db : DB) (e e' : EMI.t) :
  reachable env clock db -> In e (emis db) ->
  EMI_findById (EMI._id e) (fst (handle env now req db)) = Some e' ->
  EMI.loanId e' = EMI.loanId e /\ EMI.userId e' = EMI.userId e
  /\ EMI.dayNumber e' = EMI.dayNumber e
  /\ EMI.principalAmount e' = EMI.principalAmount e
  /\ EMI.interestAmount e' = EMI.interestAmount e
  /\ EMI.dueDate e' = EMI.dueDate e
  /\ EMI.penaltyAmount e <= EMI.penaltyAmount e'
  /\ emi_status_next (EMI.status e) (EMI.status e') = true
  /\ (EMI.status e = EMI.paid ->
      EMI.penaltyAmount e' = EMI.penaltyAmount e
      /\ EMI.totalAmount e' = EMI.totalAmount e).
Proof.
  intros R He F. pose proof (reachable_by_inv _ _ _ _ R) as I.
  pose proof (inv_emi_ids _ _ I) as NDe.
  pose proof (handle_effect env clock now req db I) as Ef.
  remember (fst (handle env now req db)) as db' eqn:Edb. clear Edb.
  assert (Same : e' = e ->
                 EMI.loanId e' = EMI.loanId e /\ EMI.userId e' = EMI.userId e
                 /\ EMI.dayNumber e' = EMI.dayNumber e
                 /\ EMI.principalAmount e' = EMI.principalAmount e
                 /\ EMI.interestAmount e' = EMI.interestAmount e
                 /\ EMI.dueDate e' = EMI.dueDate e
                 /\ EMI.penaltyAmount e <= EMI.penaltyAmount e'
                 /\ emi_status_next (EMI.status e) (EMI.status e') = true
                 /\ (EMI.status e = EMI.paid ->
                     EMI.penaltyAmount e' = EMI.penaltyAmount e
                     /\ EMI.totalAmount e' = EMI.totalAmount e)).
  { intros ->. rewrite emi_status_next_refl. repeat split; lia. }
  destruct Ef
    as [E | ref batch loan loanX Hincl NB Hb _ Hloan Ee El _ Ls
        | Ee El _ | user a Ra NoP E | loan amt days Hloan Pe _ _ Ee El _
        | loan Hloan Ee El _].
  - apply Same. rewrite E in F. rewrite (In_find_emi db e NDe He) in F. congruence.
  - pose proof (found_emi_after_map (settleIn ref now batch) db db' e e'
                  (fun x => proj1 (settleIn_frame ref now batch x)) NDe He Ee F) as E.
    unfold settleIn in E. destruct (existsb (sameId e) batch); [|apply Same, E].
    subst e'. cbn. rewrite emi_status_next_paid. repeat split; lia.
  - pose proof (found_emi_after_map (sweepOne (JS.setHours0 now)) db db' e e'
                  (fun x => proj1 (sweepOne_frame (JS.setHours0 now) x)) NDe He Ee F)
      as E.
    unfold sweepOne in E.
    destruct (lateQuery (JS.setHours0 now) e && applies (JS.setHours0 now) e) eqn:C;
      [|apply Same, E].
    subst e'. apply andb_true_iff in C. destruct C as [L A].
    apply applies_spec in A. apply lateQuery_status in L. destruct L as [L _].
    cbn. split; [reflexivity|]. split; [reflexivity|]. split; [reflexivity|].
    split; [reflexivity|]. split; [reflexivity|]. split; [reflexivity|].
    split; [lia|]. split.
    + destruct L as [-> | ->]; reflexivity.
    + intros P. destruct L as [L | L]; rewrite L in P; discriminate P.
  - apply Same. apply (found_emi_is db db' e e' NDe He); [|exact F].
    intros x Hx _. rewrite E in Hx. exact Hx.
  - apply Same. apply (found_emi_is db db' e e' NDe He); [|exact F].
    intros x Hx Hid. rewrite Ee in Hx. apply in_app_or in Hx.
    destruct Hx as [Hx | Hx]; [exact Hx|]. exfalso.
    assert (Hi : In (EMI._id x) (map EMI._id (buildSchedule
                    (Loan.set_status Loan.approved (Loan.set_terms amt days 20 loan))
                    (scheduleStart now) (nextId db))))
      by (apply in_map; exact Hx).
    rewrite buildSchedule_ids in Hi. apply in_seq in Hi.
    pose proof (inv_emi_fresh _ _ I e He). lia.
  - apply Same. apply (found_emi_is db db' e e' NDe He); [|exact F].
    intros x Hx _. rewrite Ee in Hx. apply filter_In in Hx. tauto.
Qed.

Lemma installment_history_witness :
  exists e',
    EMI_findById (EMI._id firstInstallment)
      (fst (handle demoEnv (day 12) payInstallment1 (approvedLoanDB 1000 3)))
    = Some e'
    /\ EMI.dueDate e' = EMI.dueDate firstInstallment
    /\ EMI.penaltyAmount firstInstallment <= EMI.penaltyAmount e'.
Proof.
  assert (F : exists e',
             EMI_findById (EMI._id firstInstallment)
               (fst (handle demoEnv (day 12) payInstallment1 (approvedLoanDB 1000 3)))
             = Some e')
    by (eexists; vm_compute; reflexivity).
  destruct F as [e' F].
  assert (Hin : In firstInstallment (emis (approvedLoanDB 1000 3)))
    by (vm_compute; left; reflexivity).
  destruct (installment_history demoEnv (day 11) (day 12) payInstallment1
              (approvedLoanDB 1000 3) firstInstallment e' demo_reachable Hin F)
    as (_ & _ & _ & _ & _ & H6 & H7 & _).
  exists e'. auto.
Defined.

Lemma completed_loan_is_settled_count (env : Env) (clock : Z) (db : DB)
  (l : Loan.t) :
  reachable env clock db -> In l (loans db) -> Loan.status l = Loan.completed ->
  EMI_countDocuments (unpaidOf (Loan._id l)) db = 0%nat.
Proof.
  intros R Hl St. pose proof (reachable_schedule _ _ _ _ R) as S.
  pose proof (sch_completed _ S l Hl St) as P.
  unfold EMI_countDocuments, EMI_find. rewrite filter_none; [reflexivity|].
  intros x Hx. destruct (unpaidOf (Loan._id l) x) eqn:U; [|reflexivity].
  apply unpaidOf_spec in U. destruct U as [U1 U2].
  rewrite (P x) in U2; [discriminate|]. apply emisOf_in. auto.
Qed.

(** X15. On the paths that run the completion check (/simulate, /verify,
    mark-paid and the webhook), a request that settles an unpaid installment
    of a loan leaves that loan completed exactly when no unpaid installment
    of it remains. *)
Theorem settlement_completes_loan (env : Env) (clock now : Z) (req : Request)
  (db : DB) (l' : Loan.t) (e e' : EMI.t) :
  reachable env clock db -> clock <= now -> completes req = true ->
  let db' := fst (handle env now req db) in
  In l' (loans db') ->
  In e (emis db) -> EMI.loanId e = Loan._id l' -> isPaid e = false ->
  EMI_findById (EMI._id e) db' = Some e' -> isPaid e' = true ->
  (Loan.status l' = Loan.completed
   <-> EMI_countDocuments (unpaidOf (Loan._id l')) db' = 0%nat).
Proof.
  intros R Hle Cq db'.
  pose proof (reachable_by_inv _ _ _ _ R) as I.
  pose proof (inv_emi_ids _ _ I) as NDe.
  assert (R' : reachable env now db')
    by (apply (reach_step anyRequest env clock now db req); auto; exact Logic.I).
  pose proof (handle_effect env clock now req db I) as Ef.
  fold db' in Ef. clearbody db'. intros Hl' He Hid Pe F Pe'.
  split.
  { intros St. apply (completed_loan_is_settled_count env now db' l' R' Hl' St). }
  intros Cn.
  assert (Diff : e' <> e) by (intros ->; congruence).
  destruct Ef
    as [E | ref batch loan loanX Hincl NB Hb _ Hloan Ee El _ Ls
        | Ee El _ | user a Ra NoP E | loan amt days Hloan Pn _ _ Ee El _
        | loan Hloan Ee El _].
  - exfalso. apply Diff. rewrite E in F.
    rewrite (In_find_emi db e NDe He) in F. congruence.
  - pose proof (found_emi_after_map (settleIn ref now batch) db db' e e'
                  (fun x => proj1 (settleIn_frame ref now batch x)) NDe He Ee F) as E.
    unfold settleIn in E. destruct (existsb (sameId e) batch) eqn:B;
      [|exfalso; apply Diff, E].
    apply (existsb_sameId_In (emis db)) in B; auto.
    assert (Ne : batch <> []) by (intros N; rewrite N in B; contradiction).
    pose proof Ls as (S1 & _ & _ & _ & _ & _ & _ & _ & _ & _ & _ & _ & _ & S14).
    rewrite El in Hl'. apply in_map_iff in Hl'. destruct Hl' as [l [Eq Hl]].
    assert (Il : Loan._id l = Loan._id loan).
    { rewrite <- (replace_loan_id loanX l), Eq, <- Hid. apply Hb, B. }
    destruct (replace_loan_cases (loans db) loan loanX l (inv_loan_ids _ _ I)
                Hloan S1 Hl) as [[-> Rp] | [N _]]; [|contradiction].
    rewrite Rp in Eq. subst l'. rewrite S1 in Cn.
    destruct S14 as [[_ X] | [(_ & S & _) | (X & _)]].
    + exfalso. apply (X Cq Ne). exact Cn.
    + exact S.
    + contradiction.
  - exfalso.
    pose proof (found_emi_after_map (sweepOne (JS.setHours0 now)) db db' e e'
                  (fun x => proj1 (sweepOne_frame (JS.setHours0 now) x)) NDe He Ee F)
      as E.
    subst e'. destruct (sweepOne_frame (JS.setHours0 now) e) as (_ & _ & _ & _ & F5).
    congruence.
  - exfalso. apply Diff. apply (found_emi_is db db' e e' NDe He); [|exact F].
    intros x Hx _. rewrite E in Hx. exact Hx.
  - exfalso. apply Diff. apply (found_emi_is db db' e e' NDe He); [|exact F].
    intros x Hx Hi. rewrite Ee in Hx. apply in_app_or in Hx.
    destruct Hx as [Hx | Hx]; [exact Hx|]. exfalso.
    assert (Hs : In (EMI._id x) (map EMI._id (buildSchedule
                    (Loan.set_status Loan.approved (Loan.set_terms amt days 20 loan))
                    (scheduleStart now) (nextId db))))
      by (apply in_map; exact Hx).
    rewrite buildSchedule_ids in Hs. apply in_seq in Hs.
    pose proof (inv_emi_fresh _ _ I e He). lia.
  - exfalso. apply Diff. apply (found_emi_is db db' e e' NDe He); [|exact F].
    intros x Hx _. rewrite Ee in Hx. apply filter_In in Hx. tauto.
Qed.

Lemma oddLoanHalfPaid_reachable : reachable demoEnv (day 12) oddLoanHalfPaidDB.
Proof.
  unfold oddLoanHalfPaidDB, approvedLoanDB. cbn [run].
  apply (reach_step anyRequest demoEnv (day 11) (day 12) _
           (ReqSimulate 7%nat (Some 1%nat))); [|vm_compute; discriminate | exact I].
  apply (reach_step anyRequest demoEnv (day 10) (day 11) _
           (ReqApprove 0%nat None (Some (JS.Num 2))));
    [|vm_compute; discriminate | exact I].
  apply (reach_step anyRequest demoEnv (day 10) (day 10) _
           (ReqApply 7%nat (JS.Num 1001))); [|lia | exact I].
  apply reach_empty.
Qed.

Lemma settlement_completes_loan_witness :
  exists l',
    In l' (loans (fst (handle demoEnv (day 13) (ReqSimulate 7%nat (Some 2%nat))
                         oddLoanHalfPaidDB)))
    /\ (Loan.status l' = Loan.completed
        <-> EMI_countDocuments (unpaidOf (Loan._id l'))
              (fst (handle demoEnv (day 13) (ReqSimulate 7%nat (Some 2%nat))
                      oddLoanHalfPaidDB)) = 0%nat).
Proof.
  assert (F : exists l',
             In l' (loans (fst (handle demoEnv (day 13)
                                  (ReqSimulate 7%nat (Some 2%nat))
                                  oddLoanHalfPaidDB)))
             /\ EMI.loanId secondOddInstallment = Loan._id l')
    by (eexists; split; [vm_compute; left; reflexivity | reflexivity]).
  destruct F as (l' & Hl & Hid).
  assert (Fe : exists e',
             EMI_findById (EMI._id secondOddInstallment)
               (fst (handle demoEnv (day 13) (ReqSimulate 7%nat (Some 2%nat))
                       oddLoanHalfPaidDB)) = Some e'
             /\ isPaid e' = true)
    by (eexists; split; vm_compute; reflexivity).
  destruct Fe as (e' & Fe & Pe').
  assert (Hin : In secondOddInstallment (emis oddLoanHalfPaidDB))
    by (vm_compute; right; left; reflexivity).
  assert (Hle : day 12 <= day 13) by (vm_compute; discriminate).
  pose proof (settlement_completes_loan demoEnv (day 12) (day 13)
                (ReqSimulate 7%nat (Some 2%nat)) oddLoanHalfPaidDB l'
                secondOddInstallment e' oddLoanHalfPaid_reachable Hle eq_refl) as H.
  cbv zeta in H.
  exists l'. split; [exact Hl|].
  exact (H Hl Hin Hid eq_refl Fe Pe').
Defined.

(** ** Subscription charges, one after the other *)

Lemma count_sum (q : EMI.t -> bool) (l : list EMI.t) :
  Z.of_nat (List.length (filter q l))
  = sumZ (map (fun x => if q x then 1 else 0) l).
Proof.
  rewrite <- (sum_filter q (fun _ => 1) l).
  rewrite (sumZ_const (fun _ => 1) 1) by reflexivity. lia.
Qed.

(** The unpaid installments a batch of settlements leaves. *)
Lemma unpaid_after_batch (ref : string) (now : Z) (id : nat)
  (batch l : list EMI.t) :
  NoDup (map EMI._id l) -> NoDup (map EMI._id batch) ->
  (forall b, In b batch -> In b l /\ unpaidOf id b = true) ->
  List.length (filter (unpaidOf id) (map (settleIn ref now batch) l))
  = (List.length (filter (unpaidOf id) l) - List.length batch)%nat.
Proof.
  intros ND NB Hb.
  assert (Hincl : incl batch l) by (intros b Hin; apply (Hb b Hin)).
  assert (E : Z.of_nat (List.length (filter (unpaidOf id) (map (settleIn ref now batch) l)))
              = Z.of_nat (List.length (filter (unpaidOf id) l))
                - Z.of_nat (List.length batch)).
  { rewrite !count_sum, map_map.
    assert (B : Z.of_nat (List.length batch)
                = sumZ (map (fun x => if existsb (sameId x) batch then 1 else 0) l)).
    { rewrite (sum_over_batch (fun _ => 1) l batch ND NB Hincl).
      rewrite (sumZ_const (fun _ => 1) 1) by reflexivity. lia. }
    rewrite B.
    assert (X : forall a b c : Z, a + c = b -> a = b - c) by (intros; lia).
    apply X. rewrite <- sumZ_plus. apply sumZ_ext_in. intros x Hx.
    unfold settleIn. destruct (existsb (sameId x) batch) eqn:In.
    - apply (existsb_sameId_In l) in In; auto.
      destruct (Hb x In) as [_ U]. rewrite U.
      unfold unpaidOf, notPaid. cbn. rewrite andb_false_r. reflexivity.
    - destruct (unpaidOf id x); reflexivity. }
  lia.
Qed.

(** One subscription.charged event for a loan that exists. *)
Lemma charged_step (loanId : nat) (paymentId : string) (now : Z) (db : DB)
  (loan : Loan.t) :
  NoDup (map EMI._id (emis db)) -> Loan_findById loanId db = Some loan ->
  let db' := handleSubscriptionCharged (chargedPayload loanId paymentId) now db in
  let k := EMI_countDocuments (unpaidOf loanId) db in
  let k' := EMI_countDocuments (unpaidOf loanId) db' in
  NoDup (map EMI._id (emis db'))
  /\ k' = (k - 7)%nat
  /\ exists loan', Loan_findById loanId db' = Some loan'
       /\ (k = 0%nat -> loan' = loan)
       /\ (k <> 0%nat -> k' = 0%nat -> Loan.status loan' = Loan.completed)
       /\ (k' <> 0%nat -> Loan.status loan' = Loan.status loan).
Proof.
  intros ND F. cbv zeta.
  set (k := EMI_countDocuments (unpaidOf loanId) db).
  set (batch := oldestUnpaid loanId db).
  assert (Lb : List.length batch = Nat.min 7 k) by apply oldestUnpaid_length.
  unfold handleSubscriptionCharged.
  cbn [chargedPayload subscriptionEntity paymentEntity].
  fold batch.
  destruct (Nat.eqb (List.length batch) 0) eqn:E0.
  - apply Nat.eqb_eq in E0. fold k.
    assert (K0 : k = 0%nat) by lia.
    split; [exact ND|]. split; [lia|].
    exists loan. split; [exact F|]. split; [reflexivity|].
    split; [intros N; contradiction | reflexivity].
  - apply Nat.eqb_neq in E0. rewrite F, batch_fold.
    destruct (creditAll_frame paymentId now batch loan)
      as (F1 & F2 & F3 & F4 & _).
    destruct (Loan_findById_id _ _ _ F) as [Hid _].
    set (db1 := with_emis
                  (fold_left (saveIf always (EMI.settle paymentId now)) batch (emis db))
                  db).
    set (loan2 := if Nat.eqb (EMI_countDocuments (unpaidOf loanId) db1) 0
                  then Loan.set_status Loan.completed (creditAll paymentId now batch loan)
                  else creditAll paymentId now batch loan).
    assert (G : Loan._id loan2 = loanId /\ Loan.amount loan2 = Loan.amount loan
                /\ Loan.totalDays loan2 = Loan.totalDays loan).
    { unfold loan2.
      destruct (Nat.eqb (EMI_countDocuments (unpaidOf loanId) db1) 0);
        cbn [Loan.set_status Loan._id Loan.amount Loan.totalDays];
        repeat split; congruence. }
    destruct G as (G1 & G2 & G3).
    assert (Sv : Loan_save loan2 db1
                 = with_loans (map (replace_loan loan2) (loans db1)) db1)
      by (apply (Loan_save_same_terms loan2 loan db1); try rewrite G1; assumption).
    assert (Ee : emis db1 = map (settleIn paymentId now batch) (emis db)).
    { cbn. apply batch_emis; [exact ND|].
      intros e He. apply (oldestUnpaid_incl loanId db e He). }
    assert (K1 : EMI_countDocuments (unpaidOf loanId) db1 = (k - 7)%nat).
    { unfold EMI_countDocuments, EMI_find. rewrite Ee.
      rewrite (unpaid_after_batch paymentId now loanId batch (emis db) ND).
      - rewrite Lb. unfold k, EMI_countDocuments, EMI_find. lia.
      - apply oldestUnpaid_NoDup, ND.
      - intros b Hb. apply (oldestUnpaid_incl loanId db b Hb). }
    rewrite Sv.
    assert (Kk : EMI_countDocuments (unpaidOf loanId)
                   (with_loans (map (replace_loan loan2) (loans db1)) db1)
                 = EMI_countDocuments (unpaidOf loanId) db1) by reflexivity.
    rewrite Kk.
    split.
    { cbn [with_loans emis]. rewrite Ee, map_ids_emis; [exact ND|].
      intros; apply settleIn_frame. }
    split; [exact K1|].
    exists loan2. split.
    { unfold Loan_findById. cbn [with_loans loans]. rewrite <- G1.
      apply find_replace_loan. exists loan. rewrite G1. exact F. }
    split; [intros K0; lia|].
    split.
    + intros _ Z0. unfold loan2. rewrite Z0. reflexivity.
    + intros N0. unfold loan2.
      apply Nat.eqb_neq in N0. rewrite N0. exact F4.
Qed.

Lemma chargeAll_spec (loanId : nat) (charges : list (string * Z)) :
  forall (db : DB) (loan : Loan.t),
  NoDup (map EMI._id (emis db)) -> Loan_findById loanId db = Some loan ->
  let db' := chargeAll loanId charges db in
  let k := EMI_countDocuments (unpaidOf loanId) db in
  let k' := EMI_countDocuments (unpaidOf loanId) db' in
  k' = (k - 7 * List.length charges)%nat
  /\ exists loan', Loan_findById loanId db' = Some loan'
       /\ (k' = 0%nat -> k <> 0%nat \/ Loan.status loan = Loan.completed ->
           Loan.status loan' = Loan.completed)
       /\ (k' <> 0%nat -> Loan.status loan' = Loan.status loan).
Proof.
  induction charges as [|c cs IH]; intros db loan ND F; cbv zeta.
  - cbn [chargeAll fold_left List.length]. split; [lia|].
    exists loan. split; [exact F|]. split; [|reflexivity].
    intros Z0 [N | S]; [contradiction | exact S].
  - unfold chargeAll. cbn [fold_left List.length].
    fold (chargeAll loanId cs
            (handleSubscriptionCharged (chargedPayload loanId (fst c)) (snd c) db)).
    destruct (charged_step loanId (fst c) (snd c) db loan ND F)
      as (ND1 & K1 & loan1 & F1 & Z1 & C1 & S1).
    set (db1 := handleSubscriptionCharged (chargedPayload loanId (fst c)) (snd c) db) in *.
    destruct (IH db1 loan1 ND1 F1) as (K2 & loan' & F' & C2 & S2).
    cbv zeta in K1, K2, Z1, C1, S1, C2, S2.
    set (k := EMI_countDocuments (unpaidOf loanId) db) in *.
    set (k1 := EMI_countDocuments (unpaidOf loanId) db1) in *.
    set (k' := EMI_countDocuments (unpaidOf loanId) (chargeAll loanId cs db1)) in *.
    split; [lia|]. exists loan'. split; [exact F'|]. split.
    + intros Z0 H. apply (C2 Z0).
      destruct (Nat.eq_dec k1 0) as [E1 | N1]; [right | left; exact N1].
      destruct (Nat.eq_dec k 0) as [E | N].
      * rewrite (Z1 E). destruct H as [H | H]; [contradiction | exact H].
      * apply (C1 N E1).
    + intros N0. rewrite (S2 N0). apply S1. lia.
Qed.

Lemma billingCycles_enough (k : nat) (n : Z) :
  billingCycles k <= n -> Z.of_nat k <= 7 * n.
Proof.
  unfold billingCycles, JS.Math_ceil. intros H.
  pose proof (Qle_ceiling (inject_Z (Z.of_nat k) / 7)) as C.
  assert (L : (inject_Z (Z.of_nat k) / 7 <= inject_Z n)%Q).
  { eapply Qle_trans; [exact C|]. rewrite <- Zle_Qle. exact H. }
  pose proof (mul_div_share (inject_Z (Z.of_nat k)) 7 eq_refl) as M.
  change (inject_Z 7) with 7%Q in M.
  rewrite Zle_Qle, inject_Z_mult. change (inject_Z 7) with 7%Q.
  set (q := (inject_Z (Z.of_nat k) / 7)%Q) in *. clearbody q. lra.
Qed.

(** X16. Subscription charges settle a loan seven installments at a time: a
    sequence of [n] subscription.charged events for a loan with [k] unpaid
    installments leaves max(0, k - 7n) of them unpaid; the loan's status is
    untouched while any remain; and once n reaches the billingCycles =
    ceil(k / 7) that setup-autopay requests, none remains and the loan is
    completed. *)
Theorem subscription_runs_to_completion (loanId : nat)
  (charges : list (string * Z)) (db : DB) (loan : Loan.t) :
  NoDup (map EMI._id (emis db)) -> Loan_findById loanId db = Some loan ->
  let k := EMI_countDocuments (unpaidOf loanId) db in
  let db' := chargeAll loanId charges db in
  EMI_countDocuments (unpaidOf loanId) db' = (k - 7 * List.length charges)%nat
  /\ exists loan', Loan_findById loanId db' = Some loan'
       /\ ((7 * List.length charges < k)%nat ->
           Loan.status loan' = Loan.status loan)
       /\ ((1 <= k)%nat -> billingCycles k <= Z.of_nat (List.length charges) ->
           EMI_countDocuments (unpaidOf loanId) db' = 0%nat
           /\ Loan.status loan' = Loan.completed).
Proof.
  intros ND F k db'.
  destruct (chargeAll_spec loanId charges db loan ND F) as (K & loan' & F' & C & S).
  cbv zeta in K, C, S. fold k in K, C. fold db' in K, F', C, S.
  split; [exact K|]. exists loan'. split; [exact F'|]. split.
  - intros Lt. apply S. lia.
  - intros K1 B. apply billingCycles_enough in B. fold k in B.
    assert (Z0 : EMI_countDocuments (unpaidOf loanId) db' = 0%nat) by lia.
    split; [exact Z0|]. apply (C Z0). left. lia.
Qed.

Lemma subscription_runs_to_completion_witness :
  billingCycles 100 = 15
  /\ EMI_countDocuments (unpaidOf 0)
       (chargeAll 0 (weeklyCharges 15) (approvedLoanDB 10000 100)) = 0%nat
  /\ exists loan', Loan_findById 0 (chargeAll 0 (weeklyCharges 15)
                                      (approvedLoanDB 10000 100)) = Some loan'
       /\ Loan.status loan' = Loan.completed.
Proof.
  assert (F : exists loan, Loan_findById 0 (approvedLoanDB 10000 100) = Some loan)
    by (eexists; vm_compute; reflexivity).
  destruct F as [loan F].
  assert (K : EMI_countDocuments (unpaidOf 0) (approvedLoanDB 10000 100) = 100%nat)
    by (vm_compute; reflexivity).
  assert (B : billingCycles 100 = 15) by (vm_compute; reflexivity).
  destruct (subscription_runs_to_completion 0%nat (weeklyCharges 15)
              (approvedLoanDB 10000 100) loan)
    as (_ & loan' & F' & _ & C).
  - apply nodupb_sound. vm_compute. reflexivity.
  - exact F.
  - split; [exact B|]. rewrite K in C.
    destruct C as [Z0 St]; [lia | rewrite B; vm_compute; discriminate |].
    split; [exact Z0|]. exists loan'. split; [exact F' | exact St].
Defined.
